(** * TokenPicker: the token observation and collection engine

    A shallow embedding of the extension's background service worker
    (background.js), of the popup's display masking (popup.js) and of the
    settings page's submit handler (settings.js), followed by the
    properties the design document states about them.

    Conventions of the embedding.
    - A JavaScript string is the list of its UTF-16 code units.
    - The in-memory [Map] of detected tokens is an association list in
      insertion order.
    - The worker's variables and the two browser stores form an explicit
      [State]; what the browser supplies to a handler (the clock, the
      page's storage, the cookie jar, the tab query) is an argument of its
      event.
    - The handlers are [async]: each is the sequence of its stretches
      between awaits ([arrive], [resume]), and a schedule ([exec])
      interleaves the stretches of different handlers.  The functions named
      after the handlers, with [step] and [run], compose the stretches of
      one handler and describe handlers that run one at a time. *)

From Stdlib Require Import List NArith ZArith Bool Ascii String Lia.
Import ListNotations.

(* ====================================================================== *)
(** ** JavaScript strings and the built-ins the sources call *)
(* ====================================================================== *)

Module JS.

(** A string value: its UTF-16 code units, in order. *)
Definition jsstring := list N.

(** A source literal made of ASCII characters. *)
Definition js (s : string) : jsstring := map N_of_ascii (list_ascii_of_string s).

(** [a === b] on strings. *)
Fixpoint str_eqb (a b : jsstring) : bool :=
  match a, b with
  | [], [] => true
  | x :: a', y :: b' => N.eqb x y && str_eqb a' b'
  | _, _ => false
  end.

(** Truthiness of a string: every string but the empty one. *)
Definition truthy (s : jsstring) : bool :=
  match s with [] => false | _ :: _ => true end.

(** ASCII case folding of one code unit: the letters A-Z go to a-z, every
    other unit stays. *)
Definition lower_unit (c : N) : N :=
  if (65 <=? c)%N && (c <=? 90)%N then (c + 32)%N else c.

(** ASCII case folding of a string. *)
Definition fold_ascii (s : jsstring) : jsstring := map lower_unit s.

(** *** [String.prototype.toLowerCase]

    The string is read as code points, each code point is replaced by its
    lowercase mapping of the Unicode Default Case Conversion (the full
    mappings and the Final_Sigma rule; no locale), and the result is written
    back as code units.  The tables are those of Unicode 14.0. *)

(** The lowercase mappings above ASCII, as ranges: first code point, last
    code point, step, and the image of the first.  A code point [c] of the
    range at a multiple of the step from the first maps to the image of the
    first plus [c - first]. *)
Definition lower_table : list (N * N * N * N) :=
  [
    (192, 214, 1, 224); (216, 222, 1, 248); (256, 302, 2, 257);
    (306, 310, 2, 307); (313, 327, 2, 314); (330, 374, 2, 331);
    (376, 376, 1, 255); (377, 381, 2, 378); (385, 385, 1, 595);
    (386, 388, 2, 387); (390, 390, 1, 596); (391, 391, 1, 392);
    (393, 394, 1, 598); (395, 395, 1, 396); (398, 398, 1, 477);
    (399, 399, 1, 601); (400, 400, 1, 603); (401, 401, 1, 402);
    (403, 403, 1, 608); (404, 404, 1, 611); (406, 406, 1, 617);
    (407, 407, 1, 616); (408, 408, 1, 409); (412, 412, 1, 623);
    (413, 413, 1, 626); (415, 415, 1, 629); (416, 420, 2, 417);
    (422, 422, 1, 640); (423, 423, 1, 424); (425, 425, 1, 643);
    (428, 428, 1, 429); (430, 430, 1, 648); (431, 431, 1, 432);
    (433, 434, 1, 650); (435, 437, 2, 436); (439, 439, 1, 658);
    (440, 440, 1, 441); (444, 444, 1, 445); (452, 452, 1, 454);
    (453, 453, 1, 454); (455, 455, 1, 457); (456, 456, 1, 457);
    (458, 458, 1, 460); (459, 475, 2, 460); (478, 494, 2, 479);
    (497, 497, 1, 499); (498, 500, 2, 499); (502, 502, 1, 405);
    (503, 503, 1, 447); (504, 542, 2, 505); (544, 544, 1, 414);
    (546, 562, 2, 547); (570, 570, 1, 11365); (571, 571, 1, 572);
    (573, 573, 1, 410); (574, 574, 1, 11366); (577, 577, 1, 578);
    (579, 579, 1, 384); (580, 580, 1, 649); (581, 581, 1, 652);
    (582, 590, 2, 583); (880, 882, 2, 881); (886, 886, 1, 887);
    (895, 895, 1, 1011); (902, 902, 1, 940); (904, 906, 1, 941);
    (908, 908, 1, 972); (910, 911, 1, 973); (913, 929, 1, 945);
    (931, 939, 1, 963); (975, 975, 1, 983); (984, 1006, 2, 985);
    (1012, 1012, 1, 952); (1015, 1015, 1, 1016); (1017, 1017, 1, 1010);
    (1018, 1018, 1, 1019); (1021, 1023, 1, 891); (1024, 1039, 1, 1104);
    (1040, 1071, 1, 1072); (1120, 1152, 2, 1121); (1162, 1214, 2, 1163);
    (1216, 1216, 1, 1231); (1217, 1229, 2, 1218); (1232, 1326, 2, 1233);
    (1329, 1366, 1, 1377); (4256, 4293, 1, 11520); (4295, 4295, 1, 11559);
    (4301, 4301, 1, 11565); (5024, 5103, 1, 43888); (5104, 5109, 1, 5112);
    (7312, 7354, 1, 4304); (7357, 7359, 1, 4349); (7680, 7828, 2, 7681);
    (7838, 7838, 1, 223); (7840, 7934, 2, 7841); (7944, 7951, 1, 7936);
    (7960, 7965, 1, 7952); (7976, 7983, 1, 7968); (7992, 7999, 1, 7984);
    (8008, 8013, 1, 8000); (8025, 8031, 2, 8017); (8040, 8047, 1, 8032);
    (8072, 8079, 1, 8064); (8088, 8095, 1, 8080); (8104, 8111, 1, 8096);
    (8120, 8121, 1, 8112); (8122, 8123, 1, 8048); (8124, 8124, 1, 8115);
    (8136, 8139, 1, 8050); (8140, 8140, 1, 8131); (8152, 8153, 1, 8144);
    (8154, 8155, 1, 8054); (8168, 8169, 1, 8160); (8170, 8171, 1, 8058);
    (8172, 8172, 1, 8165); (8184, 8185, 1, 8056); (8186, 8187, 1, 8060);
    (8188, 8188, 1, 8179); (8486, 8486, 1, 969); (8490, 8490, 1, 107);
    (8491, 8491, 1, 229); (8498, 8498, 1, 8526); (8544, 8559, 1, 8560);
    (8579, 8579, 1, 8580); (9398, 9423, 1, 9424); (11264, 11311, 1, 11312);
    (11360, 11360, 1, 11361); (11362, 11362, 1, 619);
    (11363, 11363, 1, 7549); (11364, 11364, 1, 637);
    (11367, 11371, 2, 11368); (11373, 11373, 1, 593);
    (11374, 11374, 1, 625); (11375, 11375, 1, 592); (11376, 11376, 1, 594);
    (11378, 11378, 1, 11379); (11381, 11381, 1, 11382);
    (11390, 11391, 1, 575); (11392, 11490, 2, 11393);
    (11499, 11501, 2, 11500); (11506, 11506, 1, 11507);
    (42560, 42604, 2, 42561); (42624, 42650, 2, 42625);
    (42786, 42798, 2, 42787); (42802, 42862, 2, 42803);
    (42873, 42875, 2, 42874); (42877, 42877, 1, 7545);
    (42878, 42886, 2, 42879); (42891, 42891, 1, 42892);
    (42893, 42893, 1, 613); (42896, 42898, 2, 42897);
    (42902, 42920, 2, 42903); (42922, 42922, 1, 614);
    (42923, 42923, 1, 604); (42924, 42924, 1, 609); (42925, 42925, 1, 620);
    (42926, 42926, 1, 618); (42928, 42928, 1, 670); (42929, 42929, 1, 647);
    (42930, 42930, 1, 669); (42931, 42931, 1, 43859);
    (42932, 42946, 2, 42933); (42948, 42948, 1, 42900);
    (42949, 42949, 1, 642); (42950, 42950, 1, 7566);
    (42951, 42953, 2, 42952); (42960, 42960, 1, 42961);
    (42966, 42968, 2, 42967); (42997, 42997, 1, 42998);
    (65313, 65338, 1, 65345); (66560, 66599, 1, 66600);
    (66736, 66771, 1, 66776); (66928, 66938, 1, 66967);
    (66940, 66954, 1, 66979); (66956, 66962, 1, 66995);
    (66964, 66965, 1, 67003); (68736, 68786, 1, 68800);
    (71840, 71871, 1, 71872); (93760, 93791, 1, 93792);
    (125184, 125217, 1, 125218)
  ]%N.

(** The code points that are Cased and not Case_Ignorable, as ranges. *)
Definition cased_table : list (N * N) :=
  [
    (65, 90); (97, 122); (170, 170); (181, 181); (186, 186); (192, 214);
    (216, 246); (248, 442); (444, 447); (452, 659); (661, 687); (880, 883);
    (886, 887); (891, 893); (895, 895); (902, 902); (904, 906); (908, 908);
    (910, 929); (931, 1013); (1015, 1153); (1162, 1327); (1329, 1366);
    (1376, 1416); (4256, 4293); (4295, 4295); (4301, 4301); (4304, 4346);
    (4349, 4351); (5024, 5109); (5112, 5117); (7296, 7304); (7312, 7354);
    (7357, 7359); (7424, 7467); (7531, 7543); (7545, 7578); (7680, 7957);
    (7960, 7965); (7968, 8005); (8008, 8013); (8016, 8023); (8025, 8025);
    (8027, 8027); (8029, 8029); (8031, 8061); (8064, 8116); (8118, 8124);
    (8126, 8126); (8130, 8132); (8134, 8140); (8144, 8147); (8150, 8155);
    (8160, 8172); (8178, 8180); (8182, 8188); (8450, 8450); (8455, 8455);
    (8458, 8467); (8469, 8469); (8473, 8477); (8484, 8484); (8486, 8486);
    (8488, 8488); (8490, 8493); (8495, 8500); (8505, 8505); (8508, 8511);
    (8517, 8521); (8526, 8526); (8544, 8575); (8579, 8580); (9398, 9449);
    (11264, 11387); (11390, 11492); (11499, 11502); (11506, 11507);
    (11520, 11557); (11559, 11559); (11565, 11565); (42560, 42605);
    (42624, 42651); (42786, 42863); (42865, 42887); (42891, 42894);
    (42896, 42954); (42960, 42961); (42963, 42963); (42965, 42969);
    (42997, 42998); (43002, 43002); (43824, 43866); (43872, 43880);
    (43888, 43967); (64256, 64262); (64275, 64279); (65313, 65338);
    (65345, 65370); (66560, 66639); (66736, 66771); (66776, 66811);
    (66928, 66938); (66940, 66954); (66956, 66962); (66964, 66965);
    (66967, 66977); (66979, 66993); (66995, 67001); (67003, 67004);
    (68736, 68786); (68800, 68850); (71840, 71903); (93760, 93823);
    (119808, 119892); (119894, 119964); (119966, 119967); (119970, 119970);
    (119973, 119974); (119977, 119980); (119982, 119993); (119995, 119995);
    (119997, 120003); (120005, 120069); (120071, 120074); (120077, 120084);
    (120086, 120092); (120094, 120121); (120123, 120126); (120128, 120132);
    (120134, 120134); (120138, 120144); (120146, 120485); (120488, 120512);
    (120514, 120538); (120540, 120570); (120572, 120596); (120598, 120628);
    (120630, 120654); (120656, 120686); (120688, 120712); (120714, 120744);
    (120746, 120770); (120772, 120779); (122624, 122633); (122635, 122654);
    (125184, 125251); (127280, 127305); (127312, 127337); (127344, 127369)
  ]%N.

(** The Case_Ignorable code points, as ranges. *)
Definition case_ignorable_table : list (N * N) :=
  [
    (39, 39); (46, 46); (58, 58); (94, 94); (96, 96); (168, 168);
    (173, 173); (175, 175); (180, 180); (183, 184); (688, 879); (884, 885);
    (890, 890); (900, 901); (903, 903); (1155, 1161); (1369, 1369);
    (1375, 1375); (1425, 1469); (1471, 1471); (1473, 1474); (1476, 1477);
    (1479, 1479); (1524, 1524); (1536, 1541); (1552, 1562); (1564, 1564);
    (1600, 1600); (1611, 1631); (1648, 1648); (1750, 1757); (1759, 1768);
    (1770, 1773); (1807, 1807); (1809, 1809); (1840, 1866); (1958, 1968);
    (2027, 2037); (2042, 2042); (2045, 2045); (2070, 2093); (2137, 2139);
    (2184, 2184); (2192, 2193); (2200, 2207); (2249, 2306); (2362, 2362);
    (2364, 2364); (2369, 2376); (2381, 2381); (2385, 2391); (2402, 2403);
    (2417, 2417); (2433, 2433); (2492, 2492); (2497, 2500); (2509, 2509);
    (2530, 2531); (2558, 2558); (2561, 2562); (2620, 2620); (2625, 2626);
    (2631, 2632); (2635, 2637); (2641, 2641); (2672, 2673); (2677, 2677);
    (2689, 2690); (2748, 2748); (2753, 2757); (2759, 2760); (2765, 2765);
    (2786, 2787); (2810, 2815); (2817, 2817); (2876, 2876); (2879, 2879);
    (2881, 2884); (2893, 2893); (2901, 2902); (2914, 2915); (2946, 2946);
    (3008, 3008); (3021, 3021); (3072, 3072); (3076, 3076); (3132, 3132);
    (3134, 3136); (3142, 3144); (3146, 3149); (3157, 3158); (3170, 3171);
    (3201, 3201); (3260, 3260); (3263, 3263); (3270, 3270); (3276, 3277);
    (3298, 3299); (3328, 3329); (3387, 3388); (3393, 3396); (3405, 3405);
    (3426, 3427); (3457, 3457); (3530, 3530); (3538, 3540); (3542, 3542);
    (3633, 3633); (3636, 3642); (3654, 3662); (3761, 3761); (3764, 3772);
    (3782, 3782); (3784, 3789); (3864, 3865); (3893, 3893); (3895, 3895);
    (3897, 3897); (3953, 3966); (3968, 3972); (3974, 3975); (3981, 3991);
    (3993, 4028); (4038, 4038); (4141, 4144); (4146, 4151); (4153, 4154);
    (4157, 4158); (4184, 4185); (4190, 4192); (4209, 4212); (4226, 4226);
    (4229, 4230); (4237, 4237); (4253, 4253); (4348, 4348); (4957, 4959);
    (5906, 5908); (5938, 5939); (5970, 5971); (6002, 6003); (6068, 6069);
    (6071, 6077); (6086, 6086); (6089, 6099); (6103, 6103); (6109, 6109);
    (6155, 6159); (6211, 6211); (6277, 6278); (6313, 6313); (6432, 6434);
    (6439, 6440); (6450, 6450); (6457, 6459); (6679, 6680); (6683, 6683);
    (6742, 6742); (6744, 6750); (6752, 6752); (6754, 6754); (6757, 6764);
    (6771, 6780); (6783, 6783); (6823, 6823); (6832, 6862); (6912, 6915);
    (6964, 6964); (6966, 6970); (6972, 6972); (6978, 6978); (7019, 7027);
    (7040, 7041); (7074, 7077); (7080, 7081); (7083, 7085); (7142, 7142);
    (7144, 7145); (7149, 7149); (7151, 7153); (7212, 7219); (7222, 7223);
    (7288, 7293); (7376, 7378); (7380, 7392); (7394, 7400); (7405, 7405);
    (7412, 7412); (7416, 7417); (7468, 7530); (7544, 7544); (7579, 7679);
    (8125, 8125); (8127, 8129); (8141, 8143); (8157, 8159); (8173, 8175);
    (8189, 8190); (8203, 8207); (8216, 8217); (8228, 8228); (8231, 8231);
    (8234, 8238); (8288, 8292); (8294, 8303); (8305, 8305); (8319, 8319);
    (8336, 8348); (8400, 8432); (11388, 11389); (11503, 11505);
    (11631, 11631); (11647, 11647); (11744, 11775); (11823, 11823);
    (12293, 12293); (12330, 12333); (12337, 12341); (12347, 12347);
    (12441, 12446); (12540, 12542); (40981, 40981); (42232, 42237);
    (42508, 42508); (42607, 42610); (42612, 42621); (42623, 42623);
    (42652, 42655); (42736, 42737); (42752, 42785); (42864, 42864);
    (42888, 42890); (42994, 42996); (43000, 43001); (43010, 43010);
    (43014, 43014); (43019, 43019); (43045, 43046); (43052, 43052);
    (43204, 43205); (43232, 43249); (43263, 43263); (43302, 43309);
    (43335, 43345); (43392, 43394); (43443, 43443); (43446, 43449);
    (43452, 43453); (43471, 43471); (43493, 43494); (43561, 43566);
    (43569, 43570); (43573, 43574); (43587, 43587); (43596, 43596);
    (43632, 43632); (43644, 43644); (43696, 43696); (43698, 43700);
    (43703, 43704); (43710, 43711); (43713, 43713); (43741, 43741);
    (43756, 43757); (43763, 43764); (43766, 43766); (43867, 43871);
    (43881, 43883); (44005, 44005); (44008, 44008); (44013, 44013);
    (64286, 64286); (64434, 64450); (65024, 65039); (65043, 65043);
    (65056, 65071); (65106, 65106); (65109, 65109); (65279, 65279);
    (65287, 65287); (65294, 65294); (65306, 65306); (65342, 65342);
    (65344, 65344); (65392, 65392); (65438, 65439); (65507, 65507);
    (65529, 65531); (66045, 66045); (66272, 66272); (66422, 66426);
    (67456, 67461); (67463, 67504); (67506, 67514); (68097, 68099);
    (68101, 68102); (68108, 68111); (68152, 68154); (68159, 68159);
    (68325, 68326); (68900, 68903); (69291, 69292); (69446, 69456);
    (69506, 69509); (69633, 69633); (69688, 69702); (69744, 69744);
    (69747, 69748); (69759, 69761); (69811, 69814); (69817, 69818);
    (69821, 69821); (69826, 69826); (69837, 69837); (69888, 69890);
    (69927, 69931); (69933, 69940); (70003, 70003); (70016, 70017);
    (70070, 70078); (70089, 70092); (70095, 70095); (70191, 70193);
    (70196, 70196); (70198, 70199); (70206, 70206); (70367, 70367);
    (70371, 70378); (70400, 70401); (70459, 70460); (70464, 70464);
    (70502, 70508); (70512, 70516); (70712, 70719); (70722, 70724);
    (70726, 70726); (70750, 70750); (70835, 70840); (70842, 70842);
    (70847, 70848); (70850, 70851); (71090, 71093); (71100, 71101);
    (71103, 71104); (71132, 71133); (71219, 71226); (71229, 71229);
    (71231, 71232); (71339, 71339); (71341, 71341); (71344, 71349);
    (71351, 71351); (71453, 71455); (71458, 71461); (71463, 71467);
    (71727, 71735); (71737, 71738); (71995, 71996); (71998, 71998);
    (72003, 72003); (72148, 72151); (72154, 72155); (72160, 72160);
    (72193, 72202); (72243, 72248); (72251, 72254); (72263, 72263);
    (72273, 72278); (72281, 72283); (72330, 72342); (72344, 72345);
    (72752, 72758); (72760, 72765); (72767, 72767); (72850, 72871);
    (72874, 72880); (72882, 72883); (72885, 72886); (73009, 73014);
    (73018, 73018); (73020, 73021); (73023, 73029); (73031, 73031);
    (73104, 73105); (73109, 73109); (73111, 73111); (73459, 73460);
    (78896, 78904); (92912, 92916); (92976, 92982); (92992, 92995);
    (94031, 94031); (94095, 94111); (94176, 94177); (94179, 94180);
    (110576, 110579); (110581, 110587); (110589, 110590); (113821, 113822);
    (113824, 113827); (118528, 118573); (118576, 118598); (119143, 119145);
    (119155, 119170); (119173, 119179); (119210, 119213); (119362, 119364);
    (121344, 121398); (121403, 121452); (121461, 121461); (121476, 121476);
    (121499, 121503); (121505, 121519); (122880, 122886); (122888, 122904);
    (122907, 122913); (122915, 122916); (122918, 122922); (123184, 123197);
    (123566, 123566); (123628, 123631); (125136, 125142); (125252, 125259);
    (127995, 127999); (917505, 917505); (917536, 917631); (917760, 917999)
  ]%N.

Definition in_ranges (c : N) (ranges : list (N * N)) : bool :=
  existsb (fun r => (fst r <=? c)%N && (c <=? snd r)%N) ranges.

Definition is_case_ignorable (c : N) : bool := in_ranges c case_ignorable_table.

(** A cased letter that the context scan does not skip. *)
Definition is_cased (c : N) : bool := in_ranges c cased_table.

Fixpoint lookup_lower (c : N) (table : list (N * N * N * N)) : option N :=
  match table with
  | [] => None
  | (first, last, step, image) :: table' =>
      if (first <=? c)%N && (c <=? last)%N && N.eqb ((c - first) mod step) 0
      then Some (image + (c - first))%N
      else lookup_lower c table'
  end.

(** The lowercase mapping of one code point outside the Final_Sigma rule;
    U+0130 is the one code point with a mapping of two. *)
Definition lower_cp (c : N) : list N :=
  if (c <? 128)%N then [lower_unit c]
  else if N.eqb c 304 then [105; 775]%N
  else match lookup_lower c lower_table with
       | Some image => [image]
       | None => [c]
       end.

(** Whether what follows is case-ignorable code points and then a cased
    letter. *)
Fixpoint followed_by_cased (rest : list N) : bool :=
  match rest with
  | [] => false
  | c :: rest' =>
      if is_case_ignorable c then followed_by_cased rest' else is_cased c
  end.

(** The conversion of a list of code points; [after_cased] tells whether
    what precedes is a cased letter and then case-ignorable code points.
    U+03A3 becomes U+03C2 when it is so preceded and not followed by a cased
    letter, and U+03C3 otherwise. *)
Fixpoint lower_cps (after_cased : bool) (cps : list N) : list N :=
  match cps with
  | [] => []
  | c :: rest =>
      (if N.eqb c 931
       then if after_cased && negb (followed_by_cased rest)
            then [962%N] else [963%N]
       else lower_cp c)
      ++ lower_cps (if is_case_ignorable c then after_cased else is_cased c) rest
  end.

Definition is_lead (u : N) : bool := (55296 <=? u)%N && (u <=? 56319)%N.
Definition is_trail (u : N) : bool := (56320 <=? u)%N && (u <=? 57343)%N.

(** The code points of a string: a lead surrogate followed by a trail
    surrogate is one code point, every other unit is its own. *)
Fixpoint toCodePoints (s : jsstring) : list N :=
  match s with
  | [] => []
  | u :: rest =>
      match rest with
      | v :: rest' =>
          if is_lead u && is_trail v
          then (65536 + (u - 55296) * 1024 + (v - 56320))%N :: toCodePoints rest'
          else u :: toCodePoints rest
      | [] => [u]
      end
  end.

(** The code units of one code point. *)
Definition codeUnits (c : N) : list N :=
  if (c <? 65536)%N then [c]
  else [(55296 + (c - 65536) / 1024)%N; (56320 + (c - 65536) mod 1024)%N].

Definition fromCodePoints (cps : list N) : jsstring := flat_map codeUnits cps.

Definition toLowerCase (s : jsstring) : jsstring :=
  fromCodePoints (lower_cps false (toCodePoints s)).

(** [s.startsWith(p)]; used to define [includes]. *)
Fixpoint startsWith (s p : jsstring) : bool :=
  match p, s with
  | [], _ => true
  | _ :: _, [] => false
  | y :: p', x :: s' => N.eqb x y && startsWith s' p'
  end.

(** [s.includes(p)]: [p] occurs in [s] as a contiguous run. *)
Fixpoint includes (s p : jsstring) : bool :=
  startsWith s p ||
  match s with
  | [] => false
  | _ :: s' => includes s' p
  end.

(** [s.length]. *)
Definition strlen (s : jsstring) : nat := List.length s.

(** [s.slice(0, n)] for [n >= 0]. *)
Definition slice_prefix (n : nat) (s : jsstring) : jsstring := firstn n s.

(** [s.slice(-n)] for [n > 0]: the last [n] code units, or all of [s] when it
    is shorter. *)
Definition slice_suffix (n : nat) (s : jsstring) : jsstring :=
  skipn (strlen s - n) s.

(** [u.repeat(n)] for [n >= 0]. *)
Fixpoint repeat_str (u : jsstring) (n : nat) : jsstring :=
  match n with
  | O => []
  | S n' => u ++ repeat_str u n'
  end.

(** The ECMAScript LineTerminator code units. *)
Definition isLineTerminator (c : N) : bool :=
  N.eqb c 10 || N.eqb c 13 || N.eqb c 8232 || N.eqb c 8233.

(** The code units matched by the regular expression class [\s]
    (WhiteSpace and LineTerminator); [trim] strips the same set. *)
Definition isWhiteSpace (c : N) : bool :=
  ((9 <=? c)%N && (c <=? 13)%N) || N.eqb c 32 || N.eqb c 160 ||
  N.eqb c 5760 || ((8192 <=? c)%N && (c <=? 8202)%N) ||
  N.eqb c 8232 || N.eqb c 8233 || N.eqb c 8239 || N.eqb c 8287 ||
  N.eqb c 12288 || N.eqb c 65279.

Fixpoint trimStart (s : jsstring) : jsstring :=
  match s with
  | c :: s' => if isWhiteSpace c then trimStart s' else s
  | [] => []
  end.

Definition trimEnd (s : jsstring) : jsstring := rev (trimStart (rev s)).

(** [s.trim()]. *)
Definition trim (s : jsstring) : jsstring := trimEnd (trimStart s).

(** *** The regular expression [/^Bearer\s+(.+)$/i] *)

(** One pattern letter against one input unit under the [i] flag (without
    the [u] flag): equal after ASCII case folding; a unit outside ASCII
    never folds onto an ASCII letter. *)
Definition unit_eqb_ci (c p : N) : bool := N.eqb (lower_unit c) (lower_unit p).

(** Consume the literal [p] at the start of [s], ignoring case. *)
Fixpoint strip_prefix_ci (p s : jsstring) : option jsstring :=
  match p, s with
  | [], _ => Some s
  | _ :: _, [] => None
  | y :: p', x :: s' => if unit_eqb_ci x y then strip_prefix_ci p' s' else None
  end.

(** Length of the longest run of [\s] units at the start of [s]. *)
Fixpoint ws_run (s : jsstring) : nat :=
  match s with
  | c :: s' => if isWhiteSpace c then S (ws_run s') else O
  | [] => O
  end.

(** [(.+)$] against [g]: at least one unit, none a line terminator (the dot
    excludes them and, without the [m] flag, [$] is the end of input). *)
Definition dot_plus_to_end (g : jsstring) : bool :=
  truthy g && forallb (fun c => negb (isLineTerminator c)) g.

(** Greedy [\s+] followed by [(.+)$]: try the longest run first and give
    one unit back at a time; [\s+] keeps at least one. *)
Fixpoint backtrack_ws (k : nat) (rest : jsstring) : option jsstring :=
  match k with
  | O => None
  | S k' =>
      let g := skipn k rest in
      if dot_plus_to_end g then Some g else backtrack_ws k' rest
  end.

(** [value.match(/^Bearer\s+(.+)$/i)], reduced to what the caller reads:
    [None] for no match, [Some g] with [g] the first capture group. *)
Definition matchBearer (value : jsstring) : option jsstring :=
  match strip_prefix_ci (js "Bearer") value with
  | None => None
  | Some rest => backtrack_ws (ws_run rest) rest
  end.

End JS.
Import JS.

(* ====================================================================== *)
(** ** background.js: settings and state *)
(* ====================================================================== *)

(** [tokenType]: 'bearer' | 'session' | 'custom'. *)
Inductive TokenType := bearer | session | custom.

(** [tokenSource]: 'headers' | 'storage' | 'cookies'. *)
Inductive TokenSource := headers | storage | cookies.

Record Settings := {
  tokenType : TokenType;
  customHeaderName : jsstring;
  tokenSource : TokenSource;
  maxTokens : Z;
  autoCleanup : bool
}.

Definition DEFAULT_SETTINGS : Settings := {|
  tokenType := bearer;
  customHeaderName := [];
  tokenSource := headers;
  maxTokens := 5;
  autoCleanup := true
|}.

(** The value the [Map] keeps for a token. *)
Record TokenData := { url : jsstring; timestamp : Z }.

(** One element of the lists built by [persistTokens] and [GET_TOKENS]. *)
Record TokenItem := {
  item_token : jsstring;
  item_url : jsstring;
  item_timestamp : Z
}.

(** A JavaScript [Map] from tokens to [TokenData], in insertion order. *)
Definition TokenMap := list (jsstring * TokenData).

Definition map_has (k : jsstring) (m : TokenMap) : bool :=
  existsb (fun e => str_eqb (fst e) k) m.

Fixpoint map_get (k : jsstring) (m : TokenMap) : option TokenData :=
  match m with
  | [] => None
  | (k', v) :: m' => if str_eqb k' k then Some v else map_get k m'
  end.

Definition map_size (m : TokenMap) : Z := Z.of_nat (List.length m).

(** [m.set(k, v)]: a present key keeps its place and takes the new value, a
    new key goes to the end. *)
Fixpoint map_set (k : jsstring) (v : TokenData) (m : TokenMap) : TokenMap :=
  match m with
  | [] => [(k, v)]
  | (k', v') :: m' =>
      if str_eqb k' k then (k', v) :: m' else (k', v') :: map_set k v m'
  end.

Definition map_keys (m : TokenMap) : list jsstring := map fst m.

(** The worker's module-level variables together with the two browser stores
    it writes: [chrome.storage.local] under the key 'settings' and
    [chrome.storage.session] under the key 'tokens' ([None]: key absent). *)
Record State := {
  detectedTokens : TokenMap;
  activeTabId : option Z;
  local_settings : option Settings;
  session_tokens : option (list TokenItem)
}.

Definition with_tokens (m : TokenMap) (st : State) : State := {|
  detectedTokens := m;
  activeTabId := activeTabId st;
  local_settings := local_settings st;
  session_tokens := session_tokens st
|}.

Definition with_activeTabId (t : option Z) (st : State) : State := {|
  detectedTokens := detectedTokens st;
  activeTabId := t;
  local_settings := local_settings st;
  session_tokens := session_tokens st
|}.

Definition with_local_settings (s : option Settings) (st : State) : State := {|
  detectedTokens := detectedTokens st;
  activeTabId := activeTabId st;
  local_settings := s;
  session_tokens := session_tokens st
|}.

Definition with_session_tokens (l : option (list TokenItem)) (st : State) : State := {|
  detectedTokens := detectedTokens st;
  activeTabId := activeTabId st;
  local_settings := local_settings st;
  session_tokens := l
|}.

(** [getSettings]: the stored settings over the defaults.  The settings
    page always stores all five fields, so the spread yields the stored
    record when there is one. *)
Definition getSettings (st : State) : Settings :=
  match local_settings st with
  | Some s => s
  | None => DEFAULT_SETTINGS
  end.

(** [saveSettings]. *)
Definition saveSettings (settings : Settings) (st : State) : State :=
  with_local_settings (Some settings) st.

(* ====================================================================== *)
(** ** background.js: token extraction from headers *)
(* ====================================================================== *)

(** An element of [details.requestHeaders], with its value as text. *)
Record Header := { header_name : jsstring; header_value : jsstring }.

(** The [for] loop of [extractTokenFromHeaders] over an array of headers. *)
Fixpoint scanHeaders (hs : list Header) (settings : Settings) : option jsstring :=
  match hs with
  | [] => None
  | header :: rest =>
      let name := toLowerCase (header_name header) in
      let value := header_value header in
      match tokenType settings with
      | bearer =>
          if str_eqb name (js "authorization") then
            match matchBearer value with
            | Some g => Some g
            | None => scanHeaders rest settings
            end
          else scanHeaders rest settings
      | session =>
          if str_eqb name (js "x-session-token") ||
             str_eqb name (js "session-token") ||
             str_eqb name (js "x-session-id")
          then Some value
          else scanHeaders rest settings
      | custom =>
          if truthy (customHeaderName settings) &&
             str_eqb name (toLowerCase (customHeaderName settings))
          then Some value
          else scanHeaders rest settings
      end
  end.

(** [extractTokenFromHeaders]; [None] for the argument stands for a missing
    or non-array [requestHeaders], [None] for the result for [null]. *)
Definition extractTokenFromHeaders (requestHeaders : option (list Header))
    (settings : Settings) : option jsstring :=
  match requestHeaders with
  | None => None
  | Some hs => scanHeaders hs settings
  end.

(* ====================================================================== *)
(** ** background.js: token storage and de-duplication *)
(* ====================================================================== *)

(** [persistTokens]: mirror the map, in its order, into the session store. *)
Definition tokenList (m : TokenMap) : list TokenItem :=
  map (fun e => {| item_token := fst e;
                   item_url := url (snd e);
                   item_timestamp := timestamp (snd e) |}) m.

Definition persistTokens (st : State) : State :=
  with_session_tokens (Some (tokenList (detectedTokens st))) st.

(** [detectedTokens.clear()]. *)
Definition clearTokens (st : State) : State := with_tokens [] st.

(** Which [return] of [addToken] (or of its caller) a call leaves through.
    The source returns [undefined] on every path; the tag names the path
    after the design document. *)
Inductive IngestOutcome := Accepted | DuplicateIgnored | CapacityReached | NoMatch.

(** [addToken(token, url, maxTokens)]; [now] is the reading of [Date.now()]. *)
Definition addToken (token url0 : jsstring) (maxTokens0 : Z) (now : Z)
    (st : State) : IngestOutcome * State :=
  if map_has token (detectedTokens st) then (DuplicateIgnored, st)
  else if (maxTokens0 <=? map_size (detectedTokens st))%Z then (CapacityReached, st)
  else
    (Accepted,
     persistTokens
       (with_tokens
          (map_set token {| url := url0; timestamp := now |} (detectedTokens st))
          st)).

(* ====================================================================== *)
(** ** background.js: web request listener *)
(* ====================================================================== *)

Record RequestDetails := {
  tabId : Z;
  request_url : jsstring;
  requestHeaders : option (list Header)
}.

(** [handleWebRequest(details)]. *)
Definition handleWebRequest (details : RequestDetails) (now : Z) (st : State)
    : IngestOutcome * State :=
  match activeTabId st with
  | Some active =>
      if negb (Z.eqb (tabId details) active) then (NoMatch, st)
      else
        let settings := getSettings st in
        match tokenSource settings with
        | headers =>
            match extractTokenFromHeaders (requestHeaders details) settings with
            | None => (NoMatch, st)
            | Some token =>
                if negb (truthy token) then (NoMatch, st)
                else addToken token (request_url details) (maxTokens settings) now st
            end
        | _ => (NoMatch, st)
        end
  | None => (NoMatch, st)
  end.

(* ====================================================================== *)
(** ** background.js: active tab tracking *)
(* ====================================================================== *)

(** [updateActiveTab]; [query] is the id of the tab returned by
    [chrome.tabs.query], [None] when it returns no tab or rejects. *)
Definition updateActiveTab (query : option Z) (st : State) : State :=
  match query with
  | Some id =>
      if match activeTabId st with
         | Some active => negb (Z.eqb id active)
         | None => true
         end
      then persistTokens (clearTokens (with_activeTabId (Some id) st))
      else st
  | None => st
  end.

(** The [chrome.tabs.onActivated] listener. *)
Definition onActivated (activated : Z) (st : State) : State :=
  persistTokens (clearTokens (with_activeTabId (Some activated) st)).

(** The [chrome.tabs.onUpdated] listener; [loading] is
    [changeInfo.status === 'loading']. *)
Definition onUpdated (updated : Z) (loading : bool) (st : State) : State :=
  match activeTabId st with
  | Some active =>
      if Z.eqb updated active && loading then persistTokens (clearTokens st)
      else st
  | None => st
  end.

(* ====================================================================== *)
(** ** background.js: storage and cookie extraction (on demand) *)
(* ====================================================================== *)

(** An element of the arrays the two extractors return. *)
Record Candidate := { cand_token : jsstring; cand_url : jsstring }.

(** The [patterns] table of the script injected by
    [extractTokensFromStorage], already indexed by the token type
    ([patterns[tokenType] || patterns.bearer]: an array is truthy even when
    empty, so the fallback is for a token type outside the three only). *)
Definition storage_patterns (tt : TokenType) (customHeaderName0 : jsstring)
    : list jsstring :=
  match tt with
  | bearer => [js "token"; js "access_token"; js "accessToken";
               js "auth_token"; js "authToken"; js "bearer"]
  | session => [js "session"; js "sessionToken"; js "session_token";
                js "sessionId"; js "session_id"]
  | custom => if truthy customHeaderName0
              then [toLowerCase customHeaderName0] else []
  end.

(** The [patterns] table of [extractTokensFromCookies]. *)
Definition cookie_patterns (tt : TokenType) (customHeaderName0 : jsstring)
    : list jsstring :=
  match tt with
  | bearer => [js "token"; js "access_token"; js "auth_token";
               js "bearer"; js "jwt"]
  | session => [js "session"; js "sessionid"; js "session_id"; js "sid"]
  | custom => if truthy customHeaderName0
              then [toLowerCase customHeaderName0] else []
  end.

(** The inner [for ... of searchPatterns] loop: its body runs for the first
    pattern contained in the lower-cased key and then breaks, so the loop
    reaches the body exactly when some pattern is contained. *)
Definition key_matches (searchPatterns : list jsstring) (key : jsstring) : bool :=
  existsb (fun pattern => includes (toLowerCase key) (toLowerCase pattern))
          searchPatterns.

(** [value && value.length > 10]. *)
Definition plausible (value : jsstring) : bool :=
  truthy value && (10 <? strlen value)%nat.

(** One of the two outer loops, over the entries of a store in index order;
    [kind] is the literal that starts the label. *)
Fixpoint scanStore (kind : jsstring) (searchPatterns : list jsstring)
    (entries : list (jsstring * jsstring)) : list Candidate :=
  match entries with
  | [] => []
  | (key, value) :: rest =>
      if key_matches searchPatterns key && plausible value
      then {| cand_token := value; cand_url := kind ++ js ":" ++ key |}
             :: scanStore kind searchPatterns rest
      else scanStore kind searchPatterns rest
  end.

(** The two stores of the page in the monitored tab. *)
Record PageStorage := {
  localStorage : list (jsstring * jsstring);
  sessionStorage : list (jsstring * jsstring)
}.

(** [extractTokensFromStorage]; [page] is [None] when the script cannot be
    run in the tab, which the [catch] turns into the empty array. *)
Definition extractTokensFromStorage (page : option PageStorage)
    (settings : Settings) : list Candidate :=
  match page with
  | None => []
  | Some p =>
      let searchPatterns :=
        storage_patterns (tokenType settings) (customHeaderName settings) in
      scanStore (js "localStorage") searchPatterns (localStorage p) ++
      scanStore (js "sessionStorage") searchPatterns (sessionStorage p)
  end.

Record Cookie := { cookie_name : jsstring; cookie_value : jsstring }.

(** The loop of [extractTokensFromCookies]. *)
Fixpoint scanCookies (searchPatterns : list jsstring) (jar : list Cookie)
    : list Candidate :=
  match jar with
  | [] => []
  | cookie :: rest =>
      if key_matches searchPatterns (cookie_name cookie) &&
         plausible (cookie_value cookie)
      then {| cand_token := cookie_value cookie;
              cand_url := js "cookie:" ++ cookie_name cookie |}
             :: scanCookies searchPatterns rest
      else scanCookies searchPatterns rest
  end.

(** [extractTokensFromCookies]; [jar] is [None] when [chrome.cookies.getAll]
    rejects. *)
Definition extractTokensFromCookies (jar : option (list Cookie))
    (settings : Settings) : list Candidate :=
  match jar with
  | None => []
  | Some cs =>
      scanCookies
        (cookie_patterns (tokenType settings) (customHeaderName settings)) cs
  end.

(* ====================================================================== *)
(** ** background.js: message handling and window close *)
(* ====================================================================== *)

(** What the browser answers during one [SCAN_STORAGE]: the storage of the
    page in the active tab, the URL of the tab the query returns and the
    cookies visible to that URL.  The message carries, next to it, the
    clock of the scan: [clock i] is what [Date.now()] returns while the
    loop handles the candidate of index [i]. *)
Record ScanEnv := {
  page_storage : option PageStorage;
  tab_url : option jsstring;
  cookie_jar : option (list Cookie)
}.

Inductive Message :=
| GET_TOKENS
| SCAN_STORAGE (env : ScanEnv) (clock : nat -> Z)
| CLEAR_DATA
| GET_SETTINGS
| SAVE_SETTINGS (settings : Settings)
| GET_ACTIVE_TAB_ID
| UNKNOWN_MESSAGE.

(** The argument of [sendResponse]. *)
Inductive Response :=
| RespTokens (tokens : list TokenItem)
| RespSuccess
| RespSettings (settings : Settings)
| RespTabId (id : option Z)
| RespError (error : jsstring).

(** The clock as the rest of the loop sees it once one candidate is
    handled. *)
Definition later (clock : nat -> Z) : nat -> Z := fun i => clock (S i).

(** The [for (const item of foundTokens) await addToken(...)] loop, run
    without another handler in between; each call of [addToken] reads the
    clock for itself. *)
Fixpoint addTokens (found : list Candidate) (maxTokens0 : Z) (clock : nat -> Z)
    (st : State) : State :=
  match found with
  | [] => st
  | item :: rest =>
      addTokens rest maxTokens0 (later clock)
        (snd (addToken (cand_token item) (cand_url item) maxTokens0 (clock O) st))
  end.

(** The candidates one scan finds. *)
Definition foundTokens (env : ScanEnv) (settings : Settings) : list Candidate :=
  match tokenSource settings with
  | storage => extractTokensFromStorage (page_storage env) settings
  | cookies =>
      match tab_url env with
      | Some u => if truthy u then extractTokensFromCookies (cookie_jar env) settings
                  else []
      | None => []
      end
  | headers => []
  end.

(** The [chrome.runtime.onMessage] listener. *)
Definition onMessage (message : Message) (st : State) : Response * State :=
  match message with
  | GET_TOKENS => (RespTokens (tokenList (detectedTokens st)), st)
  | SCAN_STORAGE env clock =>
      let settings := getSettings st in
      let st' := addTokens (foundTokens env settings) (maxTokens settings) clock st in
      (RespTokens (tokenList (detectedTokens st')), st')
  | CLEAR_DATA =>
      (RespSuccess, persistTokens (with_session_tokens None (clearTokens st)))
  | GET_SETTINGS => (RespSettings (getSettings st), st)
  | SAVE_SETTINGS settings =>
      (RespSuccess, persistTokens (clearTokens (saveSettings settings st)))
  | GET_ACTIVE_TAB_ID => (RespTabId (activeTabId st), st)
  | UNKNOWN_MESSAGE => (RespError (js "Unknown message type"), st)
  end.

(** The [chrome.windows.onRemoved] listener; [remaining] is the number of
    windows [chrome.windows.getAll] still reports. *)
Definition onWindowRemoved (remaining : nat) (st : State) : State :=
  match remaining with
  | O => if autoCleanup (getSettings st)
         then with_session_tokens None (clearTokens st)
         else st
  | S _ => st
  end.

(** *** The handlers run one at a time *)

(** The functions above compose all the stretches of a handler: they give
    the effect of an event whose handler reaches its end before the next
    event is handled.  [step] and [run] read a sequence of events that way;
    the handlers as the browser schedules them, stretch by stretch, follow
    below as [arrive], [resume] and [exec]. *)
Inductive Event :=
| WebRequest (details : RequestDetails) (now : Z)
| TabActivated (activated : Z)
| TabUpdated (updated : Z) (loading : bool)
| ActiveTabQueried (query : option Z)
| RuntimeMessage (message : Message)
| WindowRemoved (remaining : nat).

Definition step (e : Event) (st : State) : State :=
  match e with
  | WebRequest details now => snd (handleWebRequest details now st)
  | TabActivated activated => onActivated activated st
  | TabUpdated updated loading => onUpdated updated loading st
  | ActiveTabQueried query => updateActiveTab query st
  | RuntimeMessage message => snd (onMessage message st)
  | WindowRemoved remaining => onWindowRemoved remaining st
  end.

(** The state after a sequence of events, oldest first. *)
Fixpoint run (es : list Event) (st : State) : State :=
  match es with
  | [] => st
  | e :: es' => run es' (step e st)
  end.

(** The state of a freshly started worker: empty map, no active tab, and
    whatever the two browser stores hold. *)
Definition workerStart (stored : option Settings)
    (mirror : option (list TokenItem)) : State := {|
  detectedTokens := [];
  activeTabId := None;
  local_settings := stored;
  session_tokens := mirror
|}.

(* ====================================================================== *)
(** ** background.js: the handlers between their awaits *)
(* ====================================================================== *)

(** Every listener of the worker is an [async] function.  It runs from the
    arrival of its event to its first [await] of a browser call, and each
    later stretch runs once the awaited call has settled; stretches of other
    handlers run in between.  A call on one of the two stores takes its
    effect when it is issued (the browser serves the calls of one worker in
    the order they are made), so a stretch is a function on [State], and
    what a suspended handler keeps is its local variables: a [Task]. *)
Inductive Task :=
| RequestSettings (details : RequestDetails) (settings : Settings) (now : Z)
| ScanSettings (env : ScanEnv) (settings : Settings) (clock : nat -> Z)
| ScanTabQueried (env : ScanEnv) (settings : Settings) (clock : nat -> Z)
| ScanLoop (found : list Candidate) (maxTokens0 : Z) (clock : nat -> Z)
| ClearPersist
| SaveClear
| TabQueried (query : option Z)
| WindowsListed (remaining : nat)
| WindowsSettings (settings : Settings)
| WindowsCleared
| Finish (response : option Response).

(** What one stretch leaves: the state, the rest of the handler when it
    stopped at an [await], and the argument of [sendResponse] when it
    called it. *)
Record Stretch := {
  after : State;
  suspended : option Task;
  sent : option Response
}.

Definition finished (st : State) : Stretch :=
  {| after := st; suspended := None; sent := None |}.

Definition awaiting (st : State) (t : Task) : Stretch :=
  {| after := st; suspended := Some t; sent := None |}.

Definition responded (st : State) (r : Response) : Stretch :=
  {| after := st; suspended := None; sent := Some r |}.

(** The loop of [SCAN_STORAGE] from the candidate it has reached.  A call
    of [addToken] that returns before its [await] hands back a settled
    promise, and the loop goes on in the same stretch; a call that stores
    its token suspends the handler on [persistTokens].  After the last
    candidate the handler answers with the list of the map as it is then. *)
Fixpoint scanLoop (found : list Candidate) (maxTokens0 : Z) (clock : nat -> Z)
    (st : State) : Stretch :=
  match found with
  | [] => responded st (RespTokens (tokenList (detectedTokens st)))
  | item :: rest =>
      match addToken (cand_token item) (cand_url item) maxTokens0 (clock O) st with
      | (Accepted, st') => awaiting st' (ScanLoop rest maxTokens0 (later clock))
      | (_, st') => scanLoop rest maxTokens0 (later clock) st'
      end
  end.

(** The first stretch of each listener. *)
Definition arrive (e : Event) (st : State) : Stretch :=
  match e with
  | WebRequest details now =>
      match activeTabId st with
      | Some active =>
          if negb (Z.eqb (tabId details) active) then finished st
          else awaiting st (RequestSettings details (getSettings st) now)
      | None => finished st
      end
  | TabActivated activated =>
      awaiting (persistTokens (clearTokens (with_activeTabId (Some activated) st)))
               (Finish None)
  | TabUpdated updated loading =>
      match activeTabId st with
      | Some active =>
          if Z.eqb updated active && loading
          then awaiting (persistTokens (clearTokens st)) (Finish None)
          else finished st
      | None => finished st
      end
  | ActiveTabQueried query => awaiting st (TabQueried query)
  | RuntimeMessage message =>
      match message with
      | GET_TOKENS => responded st (RespTokens (tokenList (detectedTokens st)))
      | SCAN_STORAGE env clock =>
          awaiting st (ScanSettings env (getSettings st) clock)
      | CLEAR_DATA =>
          awaiting (with_session_tokens None (clearTokens st)) ClearPersist
      | GET_SETTINGS =>
          awaiting st (Finish (Some (RespSettings (getSettings st))))
      | SAVE_SETTINGS settings => awaiting (saveSettings settings st) SaveClear
      | GET_ACTIVE_TAB_ID => responded st (RespTabId (activeTabId st))
      | UNKNOWN_MESSAGE => responded st (RespError (js "Unknown message type"))
      end
  | WindowRemoved remaining => awaiting st (WindowsListed remaining)
  end.

(** The stretch a suspended handler runs when it is resumed. *)
Definition resume (t : Task) (st : State) : Stretch :=
  match t with
  | RequestSettings details settings now =>
      match tokenSource settings with
      | headers =>
          match extractTokenFromHeaders (requestHeaders details) settings with
          | None => finished st
          | Some token =>
              if negb (truthy token) then finished st
              else
                match addToken token (request_url details) (maxTokens settings)
                               now st with
                | (Accepted, st') => awaiting st' (Finish None)
                | (_, st') => finished st'
                end
          end
      | _ => finished st
      end
  | ScanSettings env settings clock =>
      match tokenSource settings with
      | storage =>
          awaiting st (ScanLoop (extractTokensFromStorage (page_storage env) settings)
                                (maxTokens settings) clock)
      | cookies => awaiting st (ScanTabQueried env settings clock)
      | headers => scanLoop [] (maxTokens settings) clock st
      end
  | ScanTabQueried env settings clock =>
      match tab_url env with
      | Some u =>
          if truthy u
          then awaiting st (ScanLoop (extractTokensFromCookies (cookie_jar env) settings)
                                     (maxTokens settings) clock)
          else scanLoop [] (maxTokens settings) clock st
      | None => scanLoop [] (maxTokens settings) clock st
      end
  | ScanLoop found maxTokens0 clock => scanLoop found maxTokens0 clock st
  | ClearPersist => awaiting (persistTokens st) (Finish (Some RespSuccess))
  | SaveClear =>
      awaiting (persistTokens (clearTokens st)) (Finish (Some RespSuccess))
  | TabQueried query =>
      match query with
      | Some id =>
          if match activeTabId st with
             | Some active => negb (Z.eqb id active)
             | None => true
             end
          then awaiting (persistTokens (clearTokens (with_activeTabId (Some id) st)))
                        (Finish None)
          else finished st
      | None => finished st
      end
  | WindowsListed remaining =>
      match remaining with
      | O => awaiting st (WindowsSettings (getSettings st))
      | S _ => finished st
      end
  | WindowsSettings settings =>
      if autoCleanup settings
      then awaiting (with_session_tokens None (clearTokens st)) WindowsCleared
      else finished st
  | WindowsCleared => awaiting st (Finish None)
  | Finish response => {| after := st; suspended := None; sent := response |}
  end.

(** The worker with its suspended handlers and the responses sent so far,
    oldest first. *)
Record Sys := {
  worker : State;
  pending : list Task;
  outbox : list Response
}.

(** The browser either delivers an event or resumes the suspended handler
    of index [i]. *)
Inductive Action :=
| Arrive (e : Event)
| Resume (i : nat).

Fixpoint remove_nth (i : nat) (ts : list Task) : list Task :=
  match ts, i with
  | [], _ => []
  | _ :: ts', O => ts'
  | t :: ts', S i' => t :: remove_nth i' ts'
  end.

Definition settle (s : Stretch) (others : list Task) (box : list Response) : Sys := {|
  worker := after s;
  pending := others ++ match suspended s with Some t => [t] | None => [] end;
  outbox := box ++ match sent s with Some r => [r] | None => [] end
|}.

(** One action; resuming a handler that is not there does nothing. *)
Definition act (a : Action) (sys : Sys) : Sys :=
  match a with
  | Arrive e => settle (arrive e (worker sys)) (pending sys) (outbox sys)
  | Resume i =>
      match nth_error (pending sys) i with
      | Some t =>
          settle (resume t (worker sys)) (remove_nth i (pending sys)) (outbox sys)
      | None => sys
      end
  end.

(** The system after a schedule of actions, oldest first. *)
Fixpoint exec (schedule : list Action) (sys : Sys) : Sys :=
  match schedule with
  | [] => sys
  | a :: schedule' => exec schedule' (act a sys)
  end.

(** A worker with no handler suspended. *)
Definition idle (st : State) : Sys :=
  {| worker := st; pending := []; outbox := [] |}.

(** The schedule that lets every handler reach its end before the next
    event arrives, resuming each up to [n] times. *)
Definition serial (n : nat) (es : list Event) : list Action :=
  flat_map (fun e => Arrive e :: repeat (Resume O) n) es.

(* ====================================================================== *)
(** ** popup.js: display masking *)
(* ====================================================================== *)

(** The string literal that [maskToken] repeats, as the source file stores
    it: the three code units U+201A, U+00C4, U+00A2. *)
Definition mask_unit : jsstring := [8218; 196; 162]%N.

(** The literal returned for short tokens: twelve times that unit. *)
Definition mask_short : jsstring := repeat_str mask_unit 12.

(** [maskToken(token)]. *)
Definition maskToken (token : jsstring) : jsstring :=
  if negb (truthy token) || (strlen token <? 12)%nat then mask_short
  else
    let visibleStart := 4%nat in
    let visibleEnd := 4%nat in
    let masked :=
      repeat_str mask_unit (Nat.min 20 (strlen token - visibleStart - visibleEnd)) in
    slice_prefix visibleStart token ++ masked ++ slice_suffix visibleEnd token.

(** *** popup.js: URL truncation and the token cards *)

(** [s.slice(start, end)] for integer arguments: a negative index counts
    from the end, both are clipped to the string. *)
Definition js_slice (s : jsstring) (start stop : Z) : jsstring :=
  let len := Z.of_nat (strlen s) in
  let from := if (start <? 0)%Z then Z.max (len + start) 0 else Z.min start len in
  let to := if (stop <? 0)%Z then Z.max (len + stop) 0 else Z.min stop len in
  firstn (Z.to_nat (to - from)) (skipn (Z.to_nat from) s).

(** [truncateUrl(url, maxLength)]. *)
Definition truncateUrl (url0 : jsstring) (maxLength : Z) : jsstring :=
  if (Z.of_nat (strlen url0) <=? maxLength)%Z then url0
  else js_slice url0 0 (maxLength - 3) ++ js "...".

(** The default of the second parameter, the only value a call uses. *)
Definition truncateUrl_default : Z := 40.

(** [x || 5] on a number: 5 for zero, [x] otherwise. *)
Definition or5 (x : Z) : Z := if Z.eqb x 0 then 5%Z else x.

(** The strings [renderTokens] interpolates into the markup it assigns to
    the [innerHTML] of one card: into the title attribute, into the URL
    line and into the value line.  The template escapes nothing, so these
    are what the HTML parser is given, not the text the page shows once the
    parser has read them. *)
Record TokenCard := {
  spliced_title : jsstring;
  spliced_url : jsstring;
  spliced_value : jsstring
}.

(** What [renderTokens] builds: the two numbers of the count line, which it
    sets through [textContent], and the cards it appends, in the order of
    the list. *)
Record PopupView := {
  view_count : nat;
  view_capacity : Z;
  view_cards : list TokenCard
}.

(** [renderTokens(tokens, maxTokens)]. *)
Definition renderTokens (tokens : list TokenItem) (maxTokens0 : Z) : PopupView := {|
  view_count := List.length tokens;
  view_capacity := maxTokens0;
  view_cards :=
    map (fun item => {| spliced_title := item_url item;
                        spliced_url := truncateUrl (item_url item) truncateUrl_default;
                        spliced_value := maskToken (item_token item) |})
        tokens
|}.

(** [response.tokens || []]. *)
Definition response_tokens (r : Response) : list TokenItem :=
  match r with
  | RespTokens tokens => tokens
  | _ => []
  end.

(** [settingsResponse.settings?.maxTokens || 5]. *)
Definition response_maxTokens (r : Response) : Z :=
  match r with
  | RespSettings settings => or5 (maxTokens settings)
  | _ => 5%Z
  end.

(** [loadTokens], run against the worker it messages. *)
Definition loadTokens (st : State) : PopupView :=
  let settingsResponse := fst (onMessage GET_SETTINGS st) in
  let response := fst (onMessage GET_TOKENS st) in
  renderTokens (response_tokens response) (response_maxTokens settingsResponse).


(* ====================================================================== *)
(** ** settings.js: the submit handler of the settings form *)
(* ====================================================================== *)

(** What the handler reads from the form: the checked radios, the text of
    the header-name input, the integer [parseInt] reads off the slider and
    the checkbox. *)
Record SettingsForm := {
  form_tokenType : TokenType;
  form_tokenSource : TokenSource;
  form_customHeaderName : jsstring;
  form_maxTokens : Z;
  form_autoCleanup : bool
}.

(** The two ifs that bring the slider's reading into 1..5. *)
Definition clampMaxTokens (maxTokens0 : Z) : Z :=
  let m := if (5 <? maxTokens0)%Z then 5%Z else maxTokens0 in
  if (m <? 1)%Z then 1%Z else m.

(** The [settings] object the handler builds. *)
Definition gatherSettings (f : SettingsForm) : Settings := {|
  tokenType := form_tokenType f;
  customHeaderName :=
    match form_tokenType f with
    | custom => trim (form_customHeaderName f)
    | _ => []
    end;
  tokenSource := form_tokenSource f;
  maxTokens := clampMaxTokens (form_maxTokens f);
  autoCleanup := form_autoCleanup f
|}.

(** What the handler ends with: an error shown and nothing sent, or the
    [SAVE_SETTINGS] message sent and the saved status shown. *)
Inductive SubmitResult :=
| ShowError (message : jsstring)
| Saved (response : Response).

(** The submit handler, run against the worker it messages. *)
Definition submitSettingsForm (f : SettingsForm) (st : State)
    : SubmitResult * State :=
  let settings := gatherSettings f in
  match form_tokenType f with
  | custom =>
      if negb (truthy (customHeaderName settings))
      then (ShowError (js "Please enter a custom header name"), st)
      else let (r, st') := onMessage (SAVE_SETTINGS settings) st in (Saved r, st')
  | _ => let (r, st') := onMessage (SAVE_SETTINGS settings) st in (Saved r, st')
  end.

(** *** settings.js: loading the page and moving the slider *)

(** [Math.min(5, Math.max(1, x))]: what the slider's input handler and
    [loadSettings] show beside the slider. *)
Definition shownMaxTokens (x : Z) : Z := Z.min 5 (Z.max 1 x).

(** [loadSettings]: the form after the page has been filled from the
    worker's answer; [f] is the form before.  The page is taken to have a
    radio for each token type and each token source. *)
Definition loadSettings (st : State) (f : SettingsForm) : SettingsForm :=
  match fst (onMessage GET_SETTINGS st) with
  | RespSettings settings => {|
      form_tokenType := tokenType settings;
      form_tokenSource := tokenSource settings;
      form_customHeaderName :=
        if truthy (customHeaderName settings) then customHeaderName settings
        else form_customHeaderName f;
      form_maxTokens := shownMaxTokens (or5 (maxTokens settings));
      form_autoCleanup := autoCleanup settings
    |}
  | _ => f
  end.

(* ====================================================================== *)
(** ** Predicates used by the statements *)
(* ====================================================================== *)

(** Every unit of [s] is an ASCII unit. *)
Definition ascii_only (s : jsstring) : Prop := Forall (fun u => (u < 128)%N) s.

(** An ASCII unit other than 'k', the one ASCII unit that is the lowercase
    of a code point outside ASCII (U+212A). *)
Definition plain_ascii (u : N) : Prop := (u < 128)%N /\ u <> 107%N.

(** The image of a range of the lowercase table lies outside ASCII, or the
    range is the single code point that maps to 'k'. *)
Definition range_image_ok (r : N * N * N * N) : bool :=
  let '(first, last, step, image) := r in
  (128 <=? image)%N || (N.eqb image 107 && N.eqb first last).

(** I2 of the design document, against the settings in force. *)
Definition within_capacity (st : State) : Prop :=
  (map_size (detectedTokens st) <= maxTokens (getSettings st))%Z.

(** I1: no token is a key twice. *)
Definition distinct_tokens (st : State) : Prop :=
  NoDup (map_keys (detectedTokens st)).

(** I3, first half: no key is the empty string. *)
Definition tokens_nonempty (st : State) : Prop :=
  Forall (fun token => truthy token = true) (map_keys (detectedTokens st)).

(** How many entries of the map carry the key [token]. *)
Definition occurrences (token : jsstring) (m : TokenMap) : nat :=
  List.length (filter (fun e => str_eqb (fst e) token) m).

(** A settings save never asks for a negative capacity. *)
Definition saves_nonneg (e : Event) : Prop :=
  match e with
  | RuntimeMessage (SAVE_SETTINGS s) => (0 <= maxTokens s)%Z
  | _ => True
  end.

(** The events that feed candidates to [addToken]. *)
Definition is_ingest (e : Event) : Prop :=
  match e with
  | WebRequest _ _ => True
  | RuntimeMessage (SCAN_STORAGE _ _) => True
  | _ => False
  end.


(** *** Devices of the proofs and the inputs the statements are run on *)

(** The shape of the state after one call. *)
Inductive added_by (token u : jsstring) (k now : Z) (st : State)
    : IngestOutcome -> State -> Prop :=
| added_dup :
    map_has token (detectedTokens st) = true ->
    added_by token u k now st DuplicateIgnored st
| added_full :
    map_has token (detectedTokens st) = false ->
    (k <= map_size (detectedTokens st))%Z ->
    added_by token u k now st CapacityReached st
| added_new :
    map_has token (detectedTokens st) = false ->
    (map_size (detectedTokens st) < k)%Z ->
    added_by token u k now st Accepted
      (persistTokens
         (with_tokens
            (detectedTokens st ++ [(token, {| url := u; timestamp := now |})])
            st)).

(** What [handleWebRequest] hands to [addToken], if anything. *)
Definition request_candidate (details : RequestDetails) (st : State)
    : option Candidate :=
  match activeTabId st with
  | Some active =>
      if Z.eqb (tabId details) active then
        match tokenSource (getSettings st) with
        | headers =>
            match extractTokenFromHeaders (requestHeaders details) (getSettings st) with
            | Some token =>
                if truthy token
                then Some {| cand_token := token; cand_url := request_url details |}
                else None
            | None => None
            end
        | _ => None
        end
      else None
  | None => None
  end.

(** Every step either empties the map or runs [addToken] over some
    candidates with non-empty tokens under the settings in force; only a
    settings save changes the stored settings, and it empties the map. *)
Inductive step_shape (e : Event) (st st' : State) : Prop :=
| shape_reset :
    detectedTokens st' = [] ->
    local_settings st' = local_settings st \/
    (exists s, e = RuntimeMessage (SAVE_SETTINGS s) /\ local_settings st' = Some s) ->
    step_shape e st st'
| shape_ingest cs clock :
    Forall (fun c => truthy (cand_token c) = true) cs ->
    st' = addTokens cs (maxTokens (getSettings st)) clock st ->
    step_shape e st st'.

(** A request of tab [tab] to [u] with one header
    [Authorization: Bearer <token>]. *)
Definition bearer_request (tab : Z) (u token : string) : RequestDetails := {|
  tabId := tab;
  request_url := js u;
  requestHeaders :=
    Some [{| header_name := js "Authorization";
             header_value := js "Bearer " ++ js token |}]
|}.

Definition headers_bearer (limit : Z) : Settings := {|
  tokenType := bearer;
  customHeaderName := [];
  tokenSource := headers;
  maxTokens := limit;
  autoCleanup := true
|}.

Definition custom_unnamed : Settings := {|
  tokenType := custom;
  customHeaderName := [];
  tokenSource := headers;
  maxTokens := 5;
  autoCleanup := true
|}.

(** Scenario 3: a limit of two and three requests with distinct tokens. *)
Definition scenario3_events : list Event :=
  [TabActivated 1;
   RuntimeMessage (SAVE_SETTINGS (headers_bearer 2));
   WebRequest (bearer_request 1 "https://a.example/1" "token-one-1111") 1001;
   WebRequest (bearer_request 1 "https://a.example/2" "token-two-2222") 1002;
   WebRequest (bearer_request 1 "https://a.example/3" "token-three-33") 1003].

(** A limit of one, a first token, and a second token seen at two URLs. *)
Definition capacity_events : list Event :=
  [TabActivated 1;
   RuntimeMessage (SAVE_SETTINGS (headers_bearer 1));
   WebRequest (bearer_request 1 "https://a.example/1" "token-one-1111") 1001;
   WebRequest (bearer_request 1 "https://a.example/2" "token-two-2222") 1002;
   WebRequest (bearer_request 1 "https://b.example/3" "token-two-2222") 1003].

(** Scenario 2: the same token seen at two URLs. *)
Definition scenario2_events : list Event :=
  [TabActivated 1;
   WebRequest (bearer_request 1 "https://a.example/first" "abc123xyz789") 1001;
   WebRequest (bearer_request 1 "https://a.example/second" "abc123xyz789") 1002].

(** The state after the worker started, tab 7 was activated and a request
    of tab 7 carried a bearer token. *)
Definition tab7_with_token : State :=
  run [TabActivated 7;
       WebRequest {| tabId := 7;
                     request_url := js "https://api.example/me";
                     requestHeaders :=
                       Some [{| header_name := js "Authorization";
                                header_value := js "Bearer abc123xyz789" |}] |}
                  1000]
      (workerStart None None).

Definition reset_to (id : Z) (st : State) : State :=
  persistTokens (clearTokens (with_activeTabId (Some id) st)).

(** The storage of scenario 5: a value of 8 units and one of 30 under keys
    that both contain a bearer keyword. *)
Definition scenario5_page : PageStorage := {|
  localStorage := [(js "auth_token_v2", js "12345678");
                   (js "auth_token_v2b", js "abcdefghijklmnopqrstuvwxyz0123")];
  sessionStorage := []
|}.

Definition storage_bearer : Settings := {|
  tokenType := bearer;
  customHeaderName := [];
  tokenSource := storage;
  maxTokens := 5;
  autoCleanup := true
|}.

(** The design document's words for a matching header: the name is
    'authorization' up to case and the value matches the pattern. *)
Definition is_bearer_header (h : Header) : bool :=
  str_eqb (toLowerCase (header_name h)) (js "authorization") &&
  match matchBearer (header_value h) with Some _ => true | None => false end.

(** The design document's words for the token: what follows the six units
    of the prefix, trimmed. *)
Definition trimmed_remainder (value : jsstring) : jsstring := trim (skipn 6 value).

(** *** Predicates of the further properties *)

(** The session mirror agrees with the map: it holds the map's list, or it
    is absent and the map is empty. *)
Definition mirror_synced (st : State) : Prop :=
  session_tokens st = Some (tokenList (detectedTokens st)) \/
  (session_tokens st = None /\ detectedTokens st = []).

Definition is_save (e : Event) : Prop :=
  match e with
  | RuntimeMessage (SAVE_SETTINGS _) => True
  | _ => False
  end.

(** The events that empty the map whatever the state. *)
Definition is_reset (e : Event) : Prop :=
  match e with
  | TabActivated _ => True
  | RuntimeMessage CLEAR_DATA => True
  | RuntimeMessage (SAVE_SETTINGS _) => True
  | _ => False
  end.

(** Names with a capital outside ASCII: 'ACCESS_TO', the Kelvin sign
    U+212A (which lower-cases to 'k') and 'EN'; the same under a session
    synonym; and 'CL', U+00C9, '-API' with its lower-case form. *)
Definition kelvin_key : jsstring := js "ACCESS_TO" ++ [8490%N] ++ js "EN".

Definition kelvin_header : jsstring := js "X-SESSION-TO" ++ [8490%N] ++ js "EN".

Definition cle_api_upper : jsstring := js "CL" ++ [201%N] ++ js "-API".

Definition cle_api_lower : jsstring := js "cl" ++ [233%N] ++ js "-api".

(** Settings of the custom type with the name given as code units. *)
Definition custom_named (name : jsstring) (source : TokenSource) : Settings := {|
  tokenType := custom;
  customHeaderName := name;
  tokenSource := source;
  maxTokens := 5;
  autoCleanup := true
|}.

(** A header named by one of the three session synonyms, up to case. *)
Definition is_session_header (h : Header) : bool :=
  let name := toLowerCase (header_name h) in
  str_eqb name (js "x-session-token") ||
  str_eqb name (js "session-token") ||
  str_eqb name (js "x-session-id").

(** A header named [configured], up to case. *)
Definition is_named_header (configured : jsstring) (h : Header) : bool :=
  str_eqb (toLowerCase (header_name h)) (toLowerCase configured).

(** Settings of the session type. *)
Definition session_settings : Settings := {|
  tokenType := session;
  customHeaderName := [];
  tokenSource := headers;
  maxTokens := 5;
  autoCleanup := true
|}.

(** Settings of the custom type with the header name [name]. *)
Definition custom_settings (name : string) : Settings := {|
  tokenType := custom;
  customHeaderName := js name;
  tokenSource := headers;
  maxTokens := 5;
  autoCleanup := true
|}.

(** A form of the custom type whose header name has whitespace around it. *)
Definition custom_form : SettingsForm := {|
  form_tokenType := custom;
  form_tokenSource := headers;
  form_customHeaderName := js "  X-Api-Key ";
  form_maxTokens := 3;
  form_autoCleanup := false
|}.

(** The candidates of a scan, each with the reading of the clock during
    its iteration of the loop. *)
Fixpoint stamped (clock : nat -> Z) (cs : list Candidate) : list (Z * Candidate) :=
  match cs with
  | [] => []
  | c :: cs' => (clock O, c) :: stamped (later clock) cs'
  end.

(** The candidates of [cs] whose token is neither in [seen] nor carried by
    an earlier candidate of [cs], in order. *)
Fixpoint fresh_candidates (seen : list jsstring) (cs : list (Z * Candidate))
    : list (Z * Candidate) :=
  match cs with
  | [] => []
  | c :: cs' =>
      if existsb (fun t => str_eqb t (cand_token (snd c))) seen
      then fresh_candidates seen cs'
      else c :: fresh_candidates (seen ++ [cand_token (snd c)]) cs'
  end.

(** The map entry [addToken] makes of a candidate at the time read for it. *)
Definition entry_of (c : Z * Candidate) : jsstring * TokenData :=
  (cand_token (snd c), {| url := cand_url (snd c); timestamp := fst c |}).

(** The candidate a cookie gives. *)
Definition cookie_candidate (cookie : Cookie) : Candidate := {|
  cand_token := cookie_value cookie;
  cand_url := js "cookie:" ++ cookie_name cookie
|}.

(** [s] neither starts nor ends with a whitespace unit. *)
Definition trimmed (s : jsstring) : Prop := trim s = s.

(** What the settings form can store: a capacity in 1..5, no header name
    unless the type is custom, and then a non-empty trimmed one. *)
Definition form_normal (s : Settings) : Prop :=
  (1 <= maxTokens s <= 5)%Z /\
  match tokenType s with
  | custom => customHeaderName s <> [] /\ trimmed (customHeaderName s)
  | _ => customHeaderName s = []
  end.

(** A form the submit handler accepts. *)
Definition form_accepted (f : SettingsForm) : Prop :=
  form_tokenType f = custom -> trim (form_customHeaderName f) <> [].

(** *** Predicates on suspended handlers and schedules *)

(** The limit a suspended handler hands to [addToken] when it gets there. *)
Definition task_limit (t : Task) : option Z :=
  match t with
  | RequestSettings _ settings _ => Some (maxTokens settings)
  | ScanSettings _ settings _ => Some (maxTokens settings)
  | ScanTabQueried _ settings _ => Some (maxTokens settings)
  | ScanLoop _ maxTokens0 _ => Some maxTokens0
  | _ => None
  end.

Definition task_bounded (K : Z) (t : Task) : Prop :=
  match task_limit t with
  | Some k => (k <= K)%Z
  | None => True
  end.

(** The candidates a suspended scan still holds carry non-empty tokens. *)
Definition task_clean (t : Task) : Prop :=
  match t with
  | ScanLoop found _ _ => Forall (fun c => truthy (cand_token c) = true) found
  | _ => True
  end.

(** The suspended handlers that never empty the map. *)
Definition task_keeps (t : Task) : Prop :=
  match t with
  | RequestSettings _ _ _ => True
  | ScanSettings _ _ _ => True
  | ScanTabQueried _ _ _ => True
  | ScanLoop _ _ _ => True
  | Finish _ => True
  | _ => False
  end.

(** Every event a schedule delivers satisfies [A]. *)
Definition arrivals (A : Event -> Prop) (schedule : list Action) : Prop :=
  Forall (fun a => match a with Arrive e => A e | Resume _ => True end) schedule.

(** A settings save asks for a capacity of at most [K]. *)
Definition save_bounded (K : Z) (e : Event) : Prop :=
  match e with
  | RuntimeMessage (SAVE_SETTINGS s) => (maxTokens s <= K)%Z
  | _ => True
  end.

(** [P] holds of the worker's state and [Q] of every suspended handler. *)
Definition steady (P : State -> Prop) (Q : Task -> Prop) (sys : Sys) : Prop :=
  P (worker sys) /\ Forall Q (pending sys).

(** The number of entries the browser offers to one scan, a bound on the
    number of its candidates. *)
Definition scan_size (env : ScanEnv) : nat :=
  match page_storage env with
  | Some p => List.length (localStorage p) + List.length (sessionStorage p)
  | None => O
  end +
  match cookie_jar env with
  | Some jar => List.length jar
  | None => O
  end.

Definition event_size (e : Event) : nat :=
  match e with
  | RuntimeMessage (SCAN_STORAGE env _) => scan_size env
  | _ => O
  end.

(** [n] resumptions are enough for the handler of [e] to reach its end. *)
Definition enough (n : nat) (e : Event) : Prop := (event_size e + 4 <= n)%nat.

(** The response a handler sends when it runs alone. *)
Definition answer (e : Event) (st : State) : list Response :=
  match e with
  | RuntimeMessage message => [fst (onMessage message st)]
  | _ => []
  end.

(** The responses to a sequence of events handled one at a time. *)
Fixpoint answers (es : list Event) (st : State) : list Response :=
  match es with
  | [] => []
  | e :: es' => answer e st ++ answers es' (step e st)
  end.

(** *** A settings save handled while a scan waits *)

Definition storage_policy (limit : Z) : Settings := {|
  tokenType := bearer;
  customHeaderName := [];
  tokenSource := storage;
  maxTokens := limit;
  autoCleanup := true
|}.

(** A page that keeps three tokens under keys with a bearer keyword. *)
Definition race_page : PageStorage := {|
  localStorage := [(js "access_token", js "aaaaaaaaaaaa-1");
                   (js "auth_token", js "bbbbbbbbbbbb-2")];
  sessionStorage := [(js "bearer", js "cccccccccccc-3")]
|}.

Definition race_env : ScanEnv := {|
  page_storage := Some race_page;
  tab_url := None;
  cookie_jar := None
|}.

Definition race_clock : nat -> Z := fun i => (7000 + Z.of_nat i)%Z.

(** Tab 7 is activated; a scan arrives, reads the settings and asks the
    page for its storage; while it waits a settings save arrives, clears
    the map and answers; then the page's storage comes back and the scan
    runs its loop to the end. *)
Definition race_schedule (saved : Settings) : list Action :=
  [Arrive (TabActivated 7); Resume 0;
   Arrive (RuntimeMessage (SCAN_STORAGE race_env race_clock)); Resume 0;
   Arrive (RuntimeMessage (SAVE_SETTINGS saved)); Resume 1; Resume 1;
   Resume 0; Resume 0; Resume 0; Resume 0].

(** A fresh worker under the storage source with a limit of five. *)
Definition race_start : Sys := idle (workerStart (Some (storage_policy 5)) None).

(** The three entries the scan of [race_page] stores. *)
Definition race_entries : TokenMap :=
  [(js "aaaaaaaaaaaa-1", {| url := js "localStorage:access_token"; timestamp := 7000 |});
   (js "bbbbbbbbbbbb-2", {| url := js "localStorage:auth_token"; timestamp := 7001 |});
   (js "cccccccccccc-3", {| url := js "sessionStorage:bearer"; timestamp := 7002 |})].

(* ====================================================================== *)
(** ** Strings *)
(* ====================================================================== *)

Lemma str_eqb_refl (a : jsstring) : str_eqb a a = true.
Proof.
  induction a as [|x a IH]; simpl; [reflexivity|].
  now rewrite N.eqb_refl, IH.
Qed.

Lemma str_eqb_eq (a b : jsstring) : str_eqb a b = true <-> a = b.
Proof.
  split.
  - revert b. induction a as [|x a IH]; intros [|y b] H; simpl in H;
      try discriminate; [reflexivity|].
    apply andb_true_iff in H as [Hx Hab].
    apply N.eqb_eq in Hx. f_equal; auto.
  - intros ->. apply str_eqb_refl.
Qed.

Lemma str_eqb_neq (a b : jsstring) : str_eqb a b = false <-> a <> b.
Proof.
  rewrite <- str_eqb_eq. destruct (str_eqb a b); split; congruence.
Qed.

Lemma truthy_nonempty (s : jsstring) : truthy s = true <-> s <> [].
Proof. destruct s; simpl; split; congruence. Qed.


Lemma repeat_str_length (u : jsstring) (n : nat) :
  strlen (repeat_str u n) = (n * strlen u)%nat.
Proof.
  unfold strlen. induction n as [|n IH]; simpl; [reflexivity|].
  rewrite length_app, IH. reflexivity.
Qed.

Lemma repeat_str_inj (u : jsstring) (n m : nat) :
  u <> [] -> repeat_str u n = repeat_str u m -> n = m.
Proof.
  intros Hu H. apply (f_equal strlen) in H.
  rewrite !repeat_str_length in H.
  assert (0 < strlen u)%nat by (destruct u; simpl; [congruence|lia]).
  nia.
Qed.

(** *** Lower-casing *)

Lemma lower_unit_ascii c : (c < 128)%N -> (lower_unit c < 128)%N.
Proof.
  intros H. unfold lower_unit.
  destruct ((65 <=? c)%N && (c <=? 90)%N) eqn:E; [|assumption].
  apply andb_true_iff in E as [_ E]. apply N.leb_le in E. lia.
Qed.

Lemma lower_unit_ascii_inv c : (lower_unit c < 128)%N -> (c < 128)%N.
Proof.
  unfold lower_unit.
  destruct ((65 <=? c)%N && (c <=? 90)%N) eqn:E; [|auto].
  apply andb_true_iff in E as [_ E]. apply N.leb_le in E. lia.
Qed.

Lemma fold_ascii_ascii_inv s : ascii_only (fold_ascii s) -> ascii_only s.
Proof.
  unfold ascii_only, fold_ascii. induction s as [|c s IH]; simpl; intros H;
    [constructor|].
  inversion H; subst. constructor; [now apply lower_unit_ascii_inv|auto].
Qed.

Lemma is_lead_ascii u : (u < 128)%N -> is_lead u = false.
Proof.
  intros H. unfold is_lead. apply andb_false_iff. left. apply N.leb_gt. lia.
Qed.

Lemma toCodePoints_ascii s : ascii_only s -> toCodePoints s = s.
Proof.
  unfold ascii_only. induction s as [|u s IH]; intros H; [reflexivity|].
  inversion H as [|? ? Hu Hs]; subst. cbn [toCodePoints].
  destruct s as [|v s']; [reflexivity|].
  rewrite (is_lead_ascii u Hu). cbn [andb]. f_equal. now apply IH.
Qed.

Lemma lower_cp_ascii c : (c < 128)%N -> lower_cp c = [lower_unit c].
Proof. intros H. unfold lower_cp. apply N.ltb_lt in H. now rewrite H. Qed.

Lemma lower_cps_ascii b s : ascii_only s -> lower_cps b s = fold_ascii s.
Proof.
  unfold ascii_only, fold_ascii. revert b.
  induction s as [|c s IH]; intros b H; [reflexivity|].
  inversion H as [|? ? Hc Hs]; subst. cbn [lower_cps map].
  assert (E : N.eqb c 931 = false) by (apply N.eqb_neq; lia).
  rewrite E, (lower_cp_ascii c Hc), IH by assumption. reflexivity.
Qed.

Lemma fromCodePoints_ascii s : ascii_only s -> fromCodePoints s = s.
Proof.
  unfold ascii_only, fromCodePoints. induction s as [|c s IH]; intros H;
    [reflexivity|].
  inversion H as [|? ? Hc Hs]; subst. cbn [flat_map].
  assert (E : (c <? 65536)%N = true) by (apply N.ltb_lt; lia).
  rewrite IH by assumption. unfold codeUnits. rewrite E. reflexivity.
Qed.

Lemma fold_ascii_ascii s : ascii_only s -> ascii_only (fold_ascii s).
Proof.
  unfold ascii_only, fold_ascii. intros H. apply Forall_map.
  eapply Forall_impl; [|exact H]. apply lower_unit_ascii.
Qed.

(** On ASCII strings [toLowerCase] is the ASCII case folding. *)
Lemma toLowerCase_ascii s : ascii_only s -> toLowerCase s = fold_ascii s.
Proof.
  intros H. unfold toLowerCase.
  rewrite (toCodePoints_ascii s H), (lower_cps_ascii false s H).
  apply fromCodePoints_ascii. now apply fold_ascii_ascii.
Qed.

Lemma lower_table_images : forallb range_image_ok lower_table = true.
Proof. vm_compute. reflexivity. Qed.

Lemma lookup_lower_image c table image :
  forallb range_image_ok table = true ->
  lookup_lower c table = Some image ->
  (128 <= image)%N \/ image = 107%N.
Proof.
  induction table as [|[[[first last] step] im] table IH]; simpl; [discriminate|].
  intros [Hr Ht]%andb_true_iff.
  destruct ((first <=? c)%N && (c <=? last)%N && N.eqb ((c - first) mod step) 0)
    eqn:E; [|now apply IH].
  intros [= <-].
  apply andb_true_iff in E as [[E1 E2]%andb_true_iff _].
  apply N.leb_le in E1, E2.
  apply orb_true_iff in Hr as [Hr|[Hr1 Hr2]%andb_true_iff].
  - apply N.leb_le in Hr. left. lia.
  - apply N.eqb_eq in Hr1, Hr2. right. lia.
Qed.

Lemma codeUnits_nonempty c : codeUnits c <> [].
Proof. unfold codeUnits. destruct (c <? 65536)%N; discriminate. Qed.

Lemma codeUnits_high c :
  (128 <= c)%N -> Exists (fun u => ~ plain_ascii u) (codeUnits c).
Proof.
  intros H. unfold codeUnits. destruct (c <? 65536)%N.
  - left. intros [Hu _]. lia.
  - left. intros [Hu _]. revert Hu.
    generalize ((c - 65536) / 1024)%N. intros q Hu. lia.
Qed.

Lemma lower_cp_high c :
  (128 <= c)%N -> Exists (fun u => ~ plain_ascii u) (fromCodePoints (lower_cp c)).
Proof.
  intros H. unfold lower_cp.
  assert (E : (c <? 128)%N = false) by (apply N.ltb_ge; lia). rewrite E.
  destruct (N.eqb c 304).
  - right. left. intros [Hu _]. lia.
  - destruct (lookup_lower c lower_table) as [image|] eqn:El.
    + unfold fromCodePoints. cbn [flat_map]. rewrite app_nil_r.
      destruct (lookup_lower_image c lower_table image lower_table_images El)
        as [Hi| ->].
      * now apply codeUnits_high.
      * left. intros [_ Hu]. congruence.
    + unfold fromCodePoints. cbn [flat_map]. rewrite app_nil_r.
      now apply codeUnits_high.
Qed.

Lemma lower_cp_nonempty c : lower_cp c <> [].
Proof.
  unfold lower_cp. destruct (c <? 128)%N; [discriminate|].
  destruct (N.eqb c 304); [discriminate|].
  destruct (lookup_lower c lower_table); discriminate.
Qed.

Lemma fromCodePoints_app a b :
  fromCodePoints (a ++ b) = fromCodePoints a ++ fromCodePoints b.
Proof. unfold fromCodePoints. apply flat_map_app. Qed.

Lemma lower_cps_plain_inv cps b :
  Forall plain_ascii (fromCodePoints (lower_cps b cps)) -> ascii_only cps.
Proof.
  unfold ascii_only. revert b. induction cps as [|c cps IH]; intros b H;
    [constructor|].
  cbn [lower_cps] in H. rewrite fromCodePoints_app in H.
  apply Forall_app in H as [Hout Hrest].
  constructor; [|eapply IH; eauto].
  destruct (N.lt_ge_cases c 128) as [Hc|Hc]; [assumption|]. exfalso.
  assert (Hex : Exists (fun u => ~ plain_ascii u)
                  (fromCodePoints
                     (if N.eqb c 931
                      then if b && negb (followed_by_cased cps)
                           then [962%N] else [963%N]
                      else lower_cp c))).
  { destruct (N.eqb c 931).
    - destruct (b && negb (followed_by_cased cps)); left; intros [Hu _];
        vm_compute in Hu; discriminate.
    - now apply lower_cp_high. }
  apply Exists_exists in Hex as [u [Hin Hu]].
  rewrite Forall_forall in Hout. apply Hu. now apply Hout.
Qed.

Lemma toCodePoints_ascii_inv s : ascii_only (toCodePoints s) -> ascii_only s.
Proof.
  unfold ascii_only.
  assert (H : forall n s, (List.length s <= n)%nat ->
              Forall (fun u => (u < 128)%N) (toCodePoints s) ->
              Forall (fun u => (u < 128)%N) s).
  { clear s. induction n as [|n IH]; intros s Hn Hs.
    - destruct s; [constructor|simpl in Hn; lia].
    - destruct s as [|u [|v s']]; [constructor|exact Hs|].
      cbn [toCodePoints] in Hs. simpl in Hn.
      destruct (is_lead u && is_trail v).
      + pose proof (Forall_inv Hs) as Hcp. cbv beta in Hcp. lia.
      + constructor; [exact (Forall_inv Hs)|].
        apply IH; [simpl; lia|exact (Forall_inv_tail Hs)]. }
  intros Hs. now apply (H (List.length s) s).
Qed.

(** A string whose lowercase form is made of ASCII units other than 'k' is
    itself an ASCII string, and its lowercase form is its ASCII folding. *)
Lemma toLowerCase_plain_inv s :
  Forall plain_ascii (toLowerCase s) ->
  ascii_only s /\ toLowerCase s = fold_ascii s.
Proof.
  intros H.
  assert (Ha : ascii_only s).
  { apply toCodePoints_ascii_inv. eapply lower_cps_plain_inv. exact H. }
  split; [exact Ha|now apply toLowerCase_ascii].
Qed.

Lemma toCodePoints_nonempty u s : toCodePoints (u :: s) <> [].
Proof.
  cbn [toCodePoints]. destruct s as [|v s']; [discriminate|].
  destruct (is_lead u && is_trail v); discriminate.
Qed.

Lemma toLowerCase_nil s : toLowerCase s = [] -> s = [].
Proof.
  destruct s as [|u s]; [reflexivity|]. unfold toLowerCase.
  destruct (toCodePoints (u :: s)) as [|c cps] eqn:E.
  - now destruct (toCodePoints_nonempty u s).
  - cbn [lower_cps]. rewrite fromCodePoints_app. intros H.
    apply app_eq_nil in H as [H _]. exfalso.
    destruct (N.eqb c 931).
    + destruct (false && negb (followed_by_cased cps)); discriminate.
    + destruct (lower_cp c) as [|o os] eqn:El; [now destruct (lower_cp_nonempty c)|].
      unfold fromCodePoints in H. cbn [flat_map] in H.
      apply app_eq_nil in H as [H _]. now destruct (codeUnits_nonempty o).
Qed.

Lemma toLowerCase_truthy s : truthy (toLowerCase s) = truthy s.
Proof.
  destruct s as [|u s]; [reflexivity|].
  destruct (toLowerCase (u :: s)) eqn:E; [|reflexivity].
  apply toLowerCase_nil in E. discriminate.
Qed.

Lemma js_bearer_plain : Forall plain_ascii (js "bearer").
Proof. repeat constructor; (vm_compute; congruence) || discriminate. Qed.

(** The strings whose lowercase form is 'bearer' are the ASCII spellings of
    that word. *)
Lemma toLowerCase_bearer prefix :
  toLowerCase prefix = js "bearer" <-> fold_ascii prefix = js "bearer".
Proof.
  split; intros H.
  - pose proof js_bearer_plain as Hp. rewrite <- H in Hp.
    apply toLowerCase_plain_inv in Hp as [_ Hp]. congruence.
  - rewrite toLowerCase_ascii; [assumption|].
    apply fold_ascii_ascii_inv. rewrite H. unfold ascii_only.
    repeat constructor.
Qed.

(** *** The regular expression *)

Lemma backtrack_ws_some k rest g :
  backtrack_ws k rest = Some g ->
  exists j, (1 <= j <= k)%nat /\ g = skipn j rest /\ dot_plus_to_end g = true.
Proof.
  induction k as [|k IH]; cbn [backtrack_ws]; [discriminate|].
  destruct (dot_plus_to_end (skipn (S k) rest)) eqn:E.
  - intros [= <-]. exists (S k). repeat split; [lia|lia|assumption].
  - intros H. destruct (IH H) as [j (Hj & Hg & Hd)].
    exists j. repeat split; [lia|lia|assumption|assumption].
Qed.

Lemma backtrack_ws_none k rest :
  backtrack_ws k rest = None ->
  forall j, (1 <= j <= k)%nat -> dot_plus_to_end (skipn j rest) = false.
Proof.
  induction k as [|k IH]; cbn [backtrack_ws]; intros H j Hj; [lia|].
  destruct (dot_plus_to_end (skipn (S k) rest)) eqn:E; [discriminate|].
  destruct (Nat.eq_dec j (S k)) as [->|Hne]; [assumption|].
  apply IH; [assumption|lia].
Qed.

Lemma matchBearer_some value g :
  matchBearer value = Some g ->
  exists rest j,
    strip_prefix_ci (js "Bearer") value = Some rest /\
    (1 <= j <= ws_run rest)%nat /\ g = skipn j rest /\
    dot_plus_to_end g = true.
Proof.
  unfold matchBearer.
  destruct (strip_prefix_ci (js "Bearer") value) as [rest|]; [|discriminate].
  intros H. apply backtrack_ws_some in H as [j (Hj & Hg & Hd)].
  exists rest, j. auto.
Qed.

(* ====================================================================== *)
(** ** The token map *)
(* ====================================================================== *)

Lemma map_has_In (k : jsstring) (m : TokenMap) :
  map_has k m = true <-> In k (map_keys m).
Proof.
  unfold map_has, map_keys. rewrite existsb_exists, in_map_iff. split.
  - intros [e [He Hk]]. apply str_eqb_eq in Hk. now exists e.
  - intros [e [Hk He]]. exists e. split; [assumption|]. now apply str_eqb_eq.
Qed.

Lemma map_has_false (k : jsstring) (m : TokenMap) :
  map_has k m = false <-> ~ In k (map_keys m).
Proof.
  rewrite <- map_has_In. destruct (map_has k m); split; congruence.
Qed.

Lemma map_get_has (k : jsstring) (m : TokenMap) :
  map_has k m = true <-> exists d, map_get k m = Some d.
Proof.
  induction m as [|[k' v] m IH]; simpl.
  - split; [discriminate | intros [d H]; discriminate].
  - destruct (str_eqb k' k) eqn:E; simpl.
    + split; [intros _; now exists v | reflexivity].
    + exact IH.
Qed.

Lemma map_set_fresh (k : jsstring) (v : TokenData) (m : TokenMap) :
  map_has k m = false -> map_set k v m = m ++ [(k, v)].
Proof.
  induction m as [|[k' v'] m IH]; simpl; intros H; [reflexivity|].
  apply orb_false_iff in H as [Hk Hm]. simpl in Hk.
  rewrite Hk. now rewrite IH.
Qed.

Lemma map_get_app_l (k : jsstring) (m m' : TokenMap) (d : TokenData) :
  map_get k m = Some d -> map_get k (m ++ m') = Some d.
Proof.
  induction m as [|[k' v] m IH]; simpl; [discriminate|].
  destruct (str_eqb k' k); auto.
Qed.

Lemma map_get_app_fresh (k : jsstring) (m : TokenMap) (d : TokenData) :
  map_has k m = false -> map_get k (m ++ [(k, d)]) = Some d.
Proof.
  induction m as [|[k' v] m IH]; simpl; intros H.
  - now rewrite str_eqb_refl.
  - apply orb_false_iff in H as [Hk Hm]. simpl in Hk. rewrite Hk. auto.
Qed.

Lemma map_size_app (m m' : TokenMap) :
  map_size (m ++ m') = (map_size m + map_size m')%Z.
Proof. unfold map_size. rewrite length_app. lia. Qed.

Lemma map_keys_app (m m' : TokenMap) :
  map_keys (m ++ m') = map_keys m ++ map_keys m'.
Proof. apply map_app. Qed.

Lemma NoDup_snoc (A : Type) (l : list A) (x : A) :
  NoDup l -> ~ In x l -> NoDup (l ++ [x]).
Proof.
  intros Hl Hx. induction Hl as [|y l Hy Hl IH]; simpl.
  - constructor; [intros []|constructor].
  - constructor.
    + rewrite in_app_iff. intros [H|[H|[]]]; [auto|].
      subst. apply Hx. now left.
    + apply IH. intros H. apply Hx. now right.
Qed.

Lemma occurrences_zero (k : jsstring) (m : TokenMap) :
  ~ In k (map_keys m) -> occurrences k m = O.
Proof.
  unfold occurrences. induction m as [|[k' v] m IH]; simpl; intros H;
    [reflexivity|].
  destruct (str_eqb k' k) eqn:E.
  - exfalso. apply H. left. now apply str_eqb_eq.
  - apply IH. tauto.
Qed.

Lemma occurrences_NoDup (k : jsstring) (m : TokenMap) :
  NoDup (map_keys m) -> In k (map_keys m) -> occurrences k m = 1%nat.
Proof.
  unfold occurrences. induction m as [|[k' v] m IH]; simpl; intros Hnd Hin;
    [contradiction|].
  inversion Hnd as [|? ? Hk' Hm]; subst.
  destruct (str_eqb k' k) eqn:E; simpl.
  - apply str_eqb_eq in E; subst.
    f_equal. now apply (occurrences_zero k m).
  - apply IH; [assumption|]. destruct Hin as [H|H]; [|assumption].
    apply str_eqb_neq in E. congruence.
Qed.

(* ====================================================================== *)
(** ** [addToken]: the three ways out *)
(* ====================================================================== *)

Lemma addToken_duplicate token u k now st :
  map_has token (detectedTokens st) = true ->
  addToken token u k now st = (DuplicateIgnored, st).
Proof. intros H. unfold addToken. now rewrite H. Qed.

Lemma addToken_full token u k now st :
  map_has token (detectedTokens st) = false ->
  (k <= map_size (detectedTokens st))%Z ->
  addToken token u k now st = (CapacityReached, st).
Proof.
  intros H Hk. unfold addToken. rewrite H.
  apply Z.leb_le in Hk. now rewrite Hk.
Qed.

Lemma addToken_accept token u k now st :
  map_has token (detectedTokens st) = false ->
  (map_size (detectedTokens st) < k)%Z ->
  addToken token u k now st =
    (Accepted,
     persistTokens
       (with_tokens
          (detectedTokens st ++ [(token, {| url := u; timestamp := now |})]) st)).
Proof.
  intros H Hk. unfold addToken. rewrite H.
  apply Z.leb_gt in Hk. rewrite Hk. now rewrite map_set_fresh.
Qed.

Lemma addToken_spec token u k now st :
  added_by token u k now st
    (fst (addToken token u k now st)) (snd (addToken token u k now st)).
Proof.
  destruct (map_has token (detectedTokens st)) eqn:H.
  - rewrite addToken_duplicate by assumption. now constructor.
  - destruct (Z_le_gt_dec k (map_size (detectedTokens st))) as [Hk|Hk].
    + rewrite addToken_full by assumption. now constructor.
    + rewrite addToken_accept by (assumption || lia). constructor; [assumption|lia].
Qed.

Lemma addToken_settings token u k now st :
  local_settings (snd (addToken token u k now st)) = local_settings st.
Proof. destruct (addToken_spec token u k now st); reflexivity. Qed.

Lemma addToken_activeTabId token u k now st :
  activeTabId (snd (addToken token u k now st)) = activeTabId st.
Proof. destruct (addToken_spec token u k now st); reflexivity. Qed.

Lemma addToken_capacity token u k now st :
  (map_size (detectedTokens st) <= k)%Z ->
  (map_size (detectedTokens (snd (addToken token u k now st))) <= k)%Z.
Proof.
  intros H. destruct (addToken_spec token u k now st); simpl; try assumption.
  rewrite map_size_app. unfold map_size at 2. simpl. lia.
Qed.

Lemma addToken_distinct token u k now st :
  distinct_tokens st -> distinct_tokens (snd (addToken token u k now st)).
Proof.
  unfold distinct_tokens. intros H.
  destruct (addToken_spec token u k now st) as [ | |Hfresh _]; simpl;
    try assumption.
  rewrite map_keys_app. apply NoDup_snoc; [assumption|].
  now apply map_has_false.
Qed.

Lemma addToken_nonempty token u k now st :
  truthy token = true ->
  tokens_nonempty st -> tokens_nonempty (snd (addToken token u k now st)).
Proof.
  unfold tokens_nonempty. intros Ht H.
  destruct (addToken_spec token u k now st); simpl; try assumption.
  rewrite map_keys_app. apply Forall_app. split; [assumption|].
  constructor; [assumption|constructor].
Qed.

Lemma addToken_keeps token u k now st t d :
  map_get t (detectedTokens st) = Some d ->
  map_get t (detectedTokens (snd (addToken token u k now st))) = Some d.
Proof.
  intros H. destruct (addToken_spec token u k now st); simpl; try assumption.
  now apply map_get_app_l.
Qed.

Lemma addToken_at_capacity token u k now st :
  (k <= map_size (detectedTokens st))%Z ->
  snd (addToken token u k now st) = st /\
  fst (addToken token u k now st) <> Accepted.
Proof.
  intros H. destruct (addToken_spec token u k now st); simpl;
    try (split; [reflexivity|discriminate]).
  lia.
Qed.

(** *** The loop over the candidates of a scan *)

Lemma addTokens_settings cs k clock st :
  local_settings (addTokens cs k clock st) = local_settings st.
Proof.
  revert clock st. induction cs as [|c cs IH]; intros clock st; simpl; [reflexivity|].
  rewrite IH. apply addToken_settings.
Qed.

Lemma addTokens_capacity cs k clock st :
  (map_size (detectedTokens st) <= k)%Z ->
  (map_size (detectedTokens (addTokens cs k clock st)) <= k)%Z.
Proof.
  revert clock st. induction cs as [|c cs IH]; intros clock st H; simpl; [assumption|].
  apply IH. now apply addToken_capacity.
Qed.

Lemma addTokens_distinct cs k clock st :
  distinct_tokens st -> distinct_tokens (addTokens cs k clock st).
Proof.
  revert clock st. induction cs as [|c cs IH]; intros clock st H; simpl; [assumption|].
  apply IH. now apply addToken_distinct.
Qed.

Lemma addTokens_nonempty cs k clock st :
  Forall (fun c => truthy (cand_token c) = true) cs ->
  tokens_nonempty st -> tokens_nonempty (addTokens cs k clock st).
Proof.
  revert clock st. induction cs as [|c cs IH]; intros clock st Hcs H; simpl; [assumption|].
  inversion Hcs; subst. apply IH; [assumption|].
  now apply addToken_nonempty.
Qed.

Lemma addTokens_keeps cs k clock st t d :
  map_get t (detectedTokens st) = Some d ->
  map_get t (detectedTokens (addTokens cs k clock st)) = Some d.
Proof.
  revert clock st. induction cs as [|c cs IH]; intros clock st H; simpl; [assumption|].
  apply IH. now apply addToken_keeps.
Qed.

Lemma addTokens_at_capacity cs k clock st :
  (k <= map_size (detectedTokens st))%Z -> addTokens cs k clock st = st.
Proof.
  intros H. revert clock. induction cs as [|c cs IH]; intros clock; simpl;
    [reflexivity|].
  destruct (addToken_at_capacity (cand_token c) (cand_url c) k (clock O) st H)
    as [-> _].
  apply IH.
Qed.

(* ====================================================================== *)
(** ** The shape of one step of the worker *)
(* ====================================================================== *)

Lemma handleWebRequest_candidate details now st :
  handleWebRequest details now st =
    match request_candidate details st with
    | Some c => addToken (cand_token c) (cand_url c) (maxTokens (getSettings st)) now st
    | None => (NoMatch, st)
    end.
Proof.
  unfold handleWebRequest, request_candidate.
  destruct (activeTabId st) as [active|]; [|reflexivity].
  destruct (Z.eqb (tabId details) active); simpl; [|reflexivity].
  destruct (tokenSource (getSettings st)); try reflexivity.
  destruct (extractTokenFromHeaders _ _) as [token|]; [|reflexivity].
  destruct (truthy token); reflexivity.
Qed.

Lemma request_candidate_truthy details st c :
  request_candidate details st = Some c -> truthy (cand_token c) = true.
Proof.
  unfold request_candidate.
  destruct (activeTabId st) as [active|]; [|discriminate].
  destruct (Z.eqb _ _); [|discriminate].
  destruct (tokenSource _); try discriminate.
  destruct (extractTokenFromHeaders _ _) as [token|]; [|discriminate].
  destruct (truthy token) eqn:E; [|discriminate].
  intros [= <-]. exact E.
Qed.

Lemma plausible_truthy value : plausible value = true -> truthy value = true.
Proof. unfold plausible. now intros [H _]%andb_true_iff. Qed.

Lemma scanStore_plausible kind pats entries :
  Forall (fun c => plausible (cand_token c) = true) (scanStore kind pats entries).
Proof.
  induction entries as [|[key value] rest IH]; simpl; [constructor|].
  destruct (key_matches pats key && plausible value) eqn:E; [|assumption].
  constructor; [|assumption]. simpl.
  now apply andb_true_iff in E as [_ E].
Qed.

Lemma scanCookies_plausible pats jar :
  Forall (fun c => plausible (cand_token c) = true) (scanCookies pats jar).
Proof.
  induction jar as [|cookie rest IH]; simpl; [constructor|].
  destruct (key_matches pats (cookie_name cookie) && plausible (cookie_value cookie))
    eqn:E; [|assumption].
  constructor; [|assumption]. simpl.
  now apply andb_true_iff in E as [_ E].
Qed.

Lemma foundTokens_plausible env settings :
  Forall (fun c => plausible (cand_token c) = true) (foundTokens env settings).
Proof.
  unfold foundTokens, extractTokensFromStorage, extractTokensFromCookies.
  destruct (tokenSource settings).
  - constructor.
  - destruct (page_storage env); [|constructor].
    apply Forall_app. split; apply scanStore_plausible.
  - destruct (tab_url env) as [u|]; [|constructor].
    destruct (truthy u); [|constructor].
    destruct (cookie_jar env); [apply scanCookies_plausible|constructor].
Qed.

Lemma foundTokens_truthy env settings :
  Forall (fun c => truthy (cand_token c) = true) (foundTokens env settings).
Proof.
  eapply Forall_impl; [|apply foundTokens_plausible].
  intros c. apply plausible_truthy.
Qed.

Lemma shape_same e st : step_shape e st st.
Proof. now apply shape_ingest with (cs := []) (clock := fun _ => 0%Z). Qed.

Lemma step_has_shape e st : step_shape e st (step e st).
Proof.
  destruct e as [details now|activated|updated loading|query|message|remaining];
    simpl.
  - rewrite handleWebRequest_candidate.
    destruct (request_candidate details st) as [c|] eqn:E; [|apply shape_same].
    apply shape_ingest with (cs := [c]) (clock := fun _ => now); [|reflexivity].
    constructor; [|constructor]. eapply request_candidate_truthy; eauto.
  - apply shape_reset; [reflexivity|now left].
  - unfold onUpdated. destruct (activeTabId st) as [active|]; [|apply shape_same].
    destruct (Z.eqb updated active && loading); [|apply shape_same].
    apply shape_reset; [reflexivity|now left].
  - unfold updateActiveTab. destruct query as [id|]; [|apply shape_same].
    match goal with |- context [if ?b then _ else _] => destruct b end;
      [|apply shape_same].
    apply shape_reset; [reflexivity|now left].
  - destruct message as [|env clock| | |s| |]; simpl; try apply shape_same.
    + apply shape_ingest with (cs := foundTokens env (getSettings st)) (clock := clock);
        [apply foundTokens_truthy|reflexivity].
    + apply shape_reset; [reflexivity|now left].
    + apply shape_reset; [reflexivity|]. right. now exists s.
  - unfold onWindowRemoved. destruct remaining; [|apply shape_same].
    destruct (autoCleanup (getSettings st)); [|apply shape_same].
    apply shape_reset; [reflexivity|now left].
Qed.

Lemma ingest_shape e st :
  is_ingest e ->
  exists cs clock, step e st = addTokens cs (maxTokens (getSettings st)) clock st.
Proof.
  destruct e as [details now| | | |message|]; simpl; try contradiction.
  - intros _. rewrite handleWebRequest_candidate.
    destruct (request_candidate details st) as [c|].
    + now exists [c], (fun _ => now).
    + now exists [], (fun _ => 0%Z).
  - destruct message as [|env clock| | | | |]; try contradiction.
    intros _. now exists (foundTokens env (getSettings st)), clock.
Qed.

(* ====================================================================== *)
(** ** Invariants of the worker *)
(* ====================================================================== *)

Lemma map_size_nonneg (m : TokenMap) : (0 <= map_size m)%Z.
Proof. unfold map_size. lia. Qed.

Lemma getSettings_local st st' :
  local_settings st' = local_settings st -> getSettings st' = getSettings st.
Proof. unfold getSettings. now intros ->. Qed.

Lemma step_within_capacity e st :
  saves_nonneg e -> within_capacity st -> within_capacity (step e st).
Proof.
  intros He H. unfold within_capacity in *.
  destruct (step_has_shape e st) as [Hempty Hs|cs now _ Heq].
  - rewrite Hempty. change (map_size []) with 0%Z.
    destruct Hs as [Hs|[s [-> Hs]]].
    + rewrite (getSettings_local _ _ Hs).
      pose proof (map_size_nonneg (detectedTokens st)). lia.
    + unfold getSettings. rewrite Hs. exact He.
  - rewrite Heq.
    rewrite (getSettings_local st _ (addTokens_settings _ _ _ _)).
    now apply addTokens_capacity.
Qed.

Lemma run_within_capacity es st :
  Forall saves_nonneg es -> within_capacity st -> within_capacity (run es st).
Proof.
  revert st. induction es as [|e es IH]; intros st Hes H; simpl; [assumption|].
  inversion Hes; subst. apply IH; [assumption|].
  now apply step_within_capacity.
Qed.



Lemma step_nonempty e st : tokens_nonempty st -> tokens_nonempty (step e st).
Proof.
  intros H. destruct (step_has_shape e st) as [Hempty _|cs now Hcs Heq].
  - unfold tokens_nonempty. rewrite Hempty. constructor.
  - rewrite Heq. now apply addTokens_nonempty.
Qed.

Lemma run_nonempty es st : tokens_nonempty st -> tokens_nonempty (run es st).
Proof.
  revert st. induction es as [|e es IH]; intros st H; simpl; [assumption|].
  apply IH. now apply step_nonempty.
Qed.

Lemma ingest_at_capacity e st :
  is_ingest e ->
  (maxTokens (getSettings st) <= map_size (detectedTokens st))%Z ->
  step e st = st.
Proof.
  intros He H. destruct (ingest_shape e st He) as [cs [now ->]].
  now apply addTokens_at_capacity.
Qed.

(* ====================================================================== *)
(** ** The handlers between their awaits *)
(* ====================================================================== *)

Lemma addToken_bound token u k now st K :
  (map_size (detectedTokens st) <= K)%Z -> (k <= K)%Z ->
  (map_size (detectedTokens (snd (addToken token u k now st))) <= K)%Z.
Proof.
  intros H Hk. destruct (addToken_spec token u k now st); simpl; try assumption.
  rewrite map_size_app. unfold map_size at 2. simpl. lia.
Qed.

Lemma addTokens_bound cs k clock st K :
  (map_size (detectedTokens st) <= K)%Z -> (k <= K)%Z ->
  (map_size (detectedTokens (addTokens cs k clock st)) <= K)%Z.
Proof.
  revert clock st. induction cs as [|c cs IH]; intros clock st H Hk; simpl;
    [assumption|].
  apply IH; [|assumption]. now apply addToken_bound.
Qed.

(** One stretch of the loop handles an initial piece [handled] of the
    candidates as [addTokens] does; it either reaches the end and answers,
    or stops after a stored candidate with the others still to do. *)
Lemma scanLoop_spec found k clock st :
  exists handled rest clock',
    found = handled ++ rest /\
    after (scanLoop found k clock st) = addTokens handled k clock st /\
    addTokens rest k clock' (after (scanLoop found k clock st)) =
      addTokens found k clock st /\
    (rest = [] /\
     suspended (scanLoop found k clock st) = None /\
     sent (scanLoop found k clock st) =
       Some (RespTokens (tokenList (detectedTokens (addTokens found k clock st))))
     \/
     (List.length rest < List.length found)%nat /\
     suspended (scanLoop found k clock st) = Some (ScanLoop rest k clock') /\
     sent (scanLoop found k clock st) = None).
Proof.
  revert clock st. induction found as [|item found IH]; intros clock st.
  - exists [], [], clock. simpl. repeat split. now left.
  - cbn [scanLoop addTokens].
    destruct (addToken (cand_token item) (cand_url item) k (clock O) st)
      as [outcome st'] eqn:E.
    assert (Hst : snd (addToken (cand_token item) (cand_url item) k (clock O) st) = st')
      by now rewrite E.
    destruct outcome;
      try (destruct (IH (later clock) st')
             as (handled & rest & clock' & Hf & Ha & Hr & Hor);
           exists (item :: handled), rest, clock';
           cbn [addTokens app]; rewrite Hst;
           split; [now rewrite Hf|]; split; [exact Ha|]; split; [exact Hr|];
           destruct Hor as [(-> & Hs & Hsent)|(Hlen & Hs & Hsent)];
           [left; repeat split; assumption
           |right; repeat split; try assumption; simpl; lia]).
    exists [item], found, (later clock). cbn [addTokens app after awaiting].
    rewrite Hst. repeat split. right. repeat split. simpl. lia.
Qed.

Lemma exec_app a b sys : exec (a ++ b) sys = exec b (exec a sys).
Proof. revert sys. induction a as [|x a IH]; intros sys; simpl; auto. Qed.

(** With no handler suspended, resuming does nothing. *)
Lemma exec_nothing_pending i n st box :
  exec (repeat (Resume i) n) {| worker := st; pending := []; outbox := box |} =
    {| worker := st; pending := []; outbox := box |}.
Proof.
  induction n as [|n IH]; simpl; [reflexivity|].
  destruct i; simpl; exact IH.
Qed.

(** A suspended scan loop that is the only suspended handler and is resumed
    often enough does what [addTokens] does, and answers. *)
Lemma scan_drains n found k clock st box :
  (List.length found < n)%nat ->
  exec (repeat (Resume O) n)
       {| worker := st; pending := [ScanLoop found k clock]; outbox := box |} =
    {| worker := addTokens found k clock st;
       pending := [];
       outbox := box ++ [RespTokens (tokenList (detectedTokens
                                                  (addTokens found k clock st)))] |}.
Proof.
  revert found clock st. induction n as [|n IH]; intros found clock st Hn; [lia|].
  cbn [repeat exec act nth_error pending worker outbox remove_nth resume].
  destruct (scanLoop_spec found k clock st)
    as (handled & rest & clock' & Hf & Ha & Hr & [(-> & Hs & Hsent)|(Hlen & Hs & Hsent)]).
  - unfold settle. rewrite Hs, Hsent. cbn [app].
    simpl in Hr. rewrite Hr. apply exec_nothing_pending.
  - unfold settle. rewrite Hs, Hsent. cbn [app]. rewrite app_nil_r.
    rewrite IH by lia. now rewrite Hr.
Qed.

Lemma scanStore_length kind pats entries :
  (List.length (scanStore kind pats entries) <= List.length entries)%nat.
Proof.
  induction entries as [|[key value] rest IH]; simpl; [lia|].
  destruct (key_matches pats key && plausible value); simpl; lia.
Qed.

Lemma scanCookies_length pats jar :
  (List.length (scanCookies pats jar) <= List.length jar)%nat.
Proof.
  induction jar as [|k rest IH]; simpl; [lia|].
  destruct (key_matches pats (cookie_name k) && plausible (cookie_value k));
    simpl; lia.
Qed.

Lemma extractTokensFromStorage_length env settings :
  (List.length (extractTokensFromStorage (page_storage env) settings)
   <= scan_size env)%nat.
Proof.
  unfold extractTokensFromStorage, scan_size.
  destruct (page_storage env) as [p|]; simpl; [|lia].
  rewrite length_app.
  pose proof (scanStore_length (js "localStorage")
                (storage_patterns (tokenType settings) (customHeaderName settings))
                (localStorage p)).
  pose proof (scanStore_length (js "sessionStorage")
                (storage_patterns (tokenType settings) (customHeaderName settings))
                (sessionStorage p)).
  lia.
Qed.

Lemma extractTokensFromCookies_length env settings :
  (List.length (extractTokensFromCookies (cookie_jar env) settings)
   <= scan_size env)%nat.
Proof.
  unfold extractTokensFromCookies, scan_size.
  destruct (cookie_jar env) as [jar|]; simpl; [|lia].
  pose proof (scanCookies_length
                (cookie_patterns (tokenType settings) (customHeaderName settings)) jar).
  lia.
Qed.

Ltac run_stretches :=
  repeat (progress (cbn [exec act arrive resume nth_error remove_nth repeat
                         worker pending outbox after suspended sent scanLoop
                         app fst snd];
                    unfold finished, awaiting, responded, settle));
  rewrite ?app_nil_r.

Ltac one_stretch :=
  repeat (progress (cbn [exec act arrive resume nth_error remove_nth
                         worker pending outbox after suspended sent scanLoop
                         app fst snd];
                    unfold finished, awaiting, responded, settle));
  rewrite ?app_nil_r.

Ltac next_resume :=
  match goal with
  | |- context [repeat (Resume O) (S ?m)] =>
      change (repeat (Resume O) (S m)) with (Resume O :: repeat (Resume O) m)
  end.

(** A handler that runs alone and is resumed often enough does what [step]
    says and sends what [onMessage] returns. *)
Lemma handler_completes e st box n :
  enough n e ->
  exec (Arrive e :: repeat (Resume O) n)
       {| worker := st; pending := []; outbox := box |} =
    {| worker := step e st; pending := []; outbox := box ++ answer e st |}.
Proof.
  unfold enough. intros Hn.
  destruct n as [|[|[|[|n]]]]; try lia.
  destruct e as [details now|activated|updated loading|query|message|remaining];
    cbn [step answer].
  - unfold handleWebRequest. run_stretches.
    destruct (activeTabId st) as [active|]; [|run_stretches; apply exec_nothing_pending].
    destruct (negb (Z.eqb (tabId details) active));
      [run_stretches; apply exec_nothing_pending|].
    run_stretches.
    destruct (tokenSource (getSettings st));
      try (run_stretches; apply exec_nothing_pending).
    destruct (extractTokenFromHeaders (requestHeaders details) (getSettings st))
      as [token|]; [|run_stretches; apply exec_nothing_pending].
    destruct (negb (truthy token)); [run_stretches; apply exec_nothing_pending|].
    destruct (addToken token (request_url details) (maxTokens (getSettings st)) now st)
      as [[] st']; run_stretches; apply exec_nothing_pending.
  - unfold onActivated. run_stretches. apply exec_nothing_pending.
  - unfold onUpdated. run_stretches.
    destruct (activeTabId st) as [active|]; [|run_stretches; apply exec_nothing_pending].
    destruct (Z.eqb updated active && loading); run_stretches;
      apply exec_nothing_pending.
  - unfold updateActiveTab. run_stretches.
    destruct query as [id|]; [|run_stretches; apply exec_nothing_pending].
    destruct (match activeTabId st with
              | Some active => negb (Z.eqb id active)
              | None => true
              end); run_stretches; apply exec_nothing_pending.
  - destruct message as [|env clock| | |settings| |]; cbn [onMessage fst snd];
      try (run_stretches; apply exec_nothing_pending).
    unfold foundTokens. cbn [event_size] in Hn.
    one_stretch. next_resume. one_stretch.
    destruct (tokenSource (getSettings st)).
    + run_stretches. apply exec_nothing_pending.
    + one_stretch.
      pose proof (extractTokensFromStorage_length env (getSettings st)).
      apply scan_drains. lia.
    + one_stretch. next_resume. one_stretch.
      destruct (tab_url env) as [u|]; [|run_stretches; apply exec_nothing_pending].
      destruct (truthy u); [|run_stretches; apply exec_nothing_pending].
      one_stretch.
      pose proof (extractTokensFromCookies_length env (getSettings st)).
      apply scan_drains. lia.
  - unfold onWindowRemoved. run_stretches.
    destruct remaining; [|run_stretches; apply exec_nothing_pending].
    run_stretches.
    destruct (autoCleanup (getSettings st)); run_stretches;
      apply exec_nothing_pending.
Qed.

(** Handlers that run one at a time: the serial schedule of a sequence of
    events does what [run] says. *)
Lemma serial_exec n es st box :
  Forall (enough n) es ->
  exec (serial n es) {| worker := st; pending := []; outbox := box |} =
    {| worker := run es st; pending := []; outbox := box ++ answers es st |}.
Proof.
  intros Hes. revert st box.
  induction Hes as [|e es He Hes IH]; intros st box; cbn [serial flat_map run answers].
  - now rewrite app_nil_r.
  - change (flat_map (fun e0 => Arrive e0 :: repeat (Resume O) n) es)
      with (serial n es).
    rewrite exec_app, (handler_completes e st box n He), IH.
    now rewrite app_assoc.
Qed.

(** *** What one stretch does *)

Lemma extractTokensFromStorage_truthy page settings :
  Forall (fun c => truthy (cand_token c) = true)
         (extractTokensFromStorage page settings).
Proof.
  unfold extractTokensFromStorage. destruct page as [p|]; [|constructor].
  apply Forall_app. split;
    (eapply Forall_impl; [|apply scanStore_plausible]);
    intros c; apply plausible_truthy.
Qed.

Lemma extractTokensFromCookies_truthy jar settings :
  Forall (fun c => truthy (cand_token c) = true)
         (extractTokensFromCookies jar settings).
Proof.
  unfold extractTokensFromCookies. destruct jar as [cs|]; [|constructor].
  eapply Forall_impl; [|apply scanCookies_plausible].
  intros c. apply plausible_truthy.
Qed.

(** The first stretch of a handler leaves the map as it is or empties it,
    changes the stored settings only when it is a settings save, and does
    nothing to the state when the event is a request or a scan; the handler
    it suspends holds the limit in force and candidates it may store. *)
Lemma arrive_shape e st :
  (detectedTokens (after (arrive e st)) = detectedTokens st \/
   detectedTokens (after (arrive e st)) = []) /\
  (local_settings (after (arrive e st)) = local_settings st \/
   exists settings,
     e = RuntimeMessage (SAVE_SETTINGS settings) /\
     local_settings (after (arrive e st)) = Some settings) /\
  (is_ingest e -> after (arrive e st) = st) /\
  (forall t,
      suspended (arrive e st) = Some t ->
      task_clean t /\
      (forall k, task_limit t = Some k -> k = maxTokens (getSettings st)) /\
      (is_ingest e -> task_keeps t)).
Proof.
  destruct e as [details now|activated|updated loading|query|message|remaining];
    cbn [arrive is_ingest].
  - destruct (activeTabId st) as [active|];
      [destruct (negb (Z.eqb (tabId details) active))|];
      (split; [now left|]; split; [now left|]; split; [reflexivity|]);
      intros t; cbn; intros [= <-]; cbn; repeat split; congruence.
  - split; [now right|]. split; [now left|]. split; [contradiction|].
    intros t. cbn. intros [= <-]. cbn. repeat split; try discriminate; contradiction.
  - destruct (activeTabId st) as [active|];
      [destruct (Z.eqb updated active && loading)|];
      (split; [(now left) || (now right)|]; split; [now left|];
       split; [contradiction|]);
      intros t; cbn; intros [= <-]; cbn;
      repeat split; try discriminate; contradiction.
  - split; [now left|]. split; [now left|]. split; [contradiction|].
    intros t. cbn. intros [= <-]. cbn. repeat split; try discriminate; contradiction.
  - destruct message as [|env clock| | |settings| |]; cbn;
      (split; [(now left) || (now right)|]);
      (split; [(now left) || (right; eexists; split; reflexivity)|]);
      (split; [try contradiction; try reflexivity|]);
      intros t; intros [= <-]; cbn;
      repeat split; try discriminate; try contradiction; congruence.
  - split; [now left|]. split; [now left|]. split; [contradiction|].
    intros t. cbn. intros [= <-]. cbn. repeat split; try discriminate; contradiction.
Qed.

(** A later stretch never writes the settings; it leaves the map as it is,
    or empties it (no request or scan does), or runs [addToken] over
    candidates of the suspended handler under the limit the handler kept.
    The handler it suspends keeps that limit and what is left of those
    candidates. *)
Lemma resume_shape t st :
  local_settings (after (resume t st)) = local_settings st /\
  (detectedTokens (after (resume t st)) = detectedTokens st \/
   (detectedTokens (after (resume t st)) = [] /\ ~ task_keeps t) \/
   exists cs k clock,
     task_limit t = Some k /\
     (task_clean t -> Forall (fun c => truthy (cand_token c) = true) cs) /\
     after (resume t st) = addTokens cs k clock st) /\
  (forall t',
      suspended (resume t st) = Some t' ->
      (task_clean t -> task_clean t') /\
      (forall k, task_limit t' = Some k -> task_limit t = Some k) /\
      (task_keeps t -> task_keeps t')).
Proof.
  assert (Hloop : forall found k clock,
             task_clean (ScanLoop found k clock) ->
             local_settings (after (scanLoop found k clock st)) = local_settings st /\
             (exists cs clock0,
                 Forall (fun c => truthy (cand_token c) = true) cs /\
                 after (scanLoop found k clock st) = addTokens cs k clock0 st) /\
             (forall t',
                 suspended (scanLoop found k clock st) = Some t' ->
                 task_clean t' /\ task_limit t' = Some k /\ task_keeps t')).
  { intros found k clock Hclean.
    destruct (scanLoop_spec found k clock st)
      as (handled & rest & clock' & Hf & Ha & _ & Hor).
    cbn [task_clean] in Hclean. rewrite Hf in Hclean.
    apply Forall_app in Hclean as [Hh Hr].
    split; [rewrite Ha; apply addTokens_settings|].
    split; [now exists handled, clock|].
    intros t' Ht'. destruct Hor as [(_ & Hs & _)|(_ & Hs & _)];
      rewrite Hs in Ht'; [discriminate|].
    injection Ht' as <-. cbn. auto. }
  assert (Hraw : forall found k clock,
             local_settings (after (scanLoop found k clock st)) = local_settings st /\
             (exists cs clock0,
                 after (scanLoop found k clock st) = addTokens cs k clock0 st) /\
             (forall t',
                 suspended (scanLoop found k clock st) = Some t' ->
                 exists rest clock', t' = ScanLoop rest k clock')).
  { intros found k clock.
    destruct (scanLoop_spec found k clock st)
      as (handled & rest & clock' & Hf & Ha & _ & Hor).
    split; [rewrite Ha; apply addTokens_settings|].
    split; [now exists handled, clock|].
    intros t' Ht'. destruct Hor as [(_ & Hs & _)|(_ & Hs & _)];
      rewrite Hs in Ht'; [discriminate|].
    injection Ht' as <-. eauto. }
  destruct t as [details settings now|env settings clock|env settings clock
                |found k clock| | |query|remaining|settings| |response];
    cbn [resume].
  - (* RequestSettings *)
    assert (Hsame : forall s : Stretch,
               s = finished st ->
               local_settings (after s) = local_settings st /\
               (detectedTokens (after s) = detectedTokens st \/
                (detectedTokens (after s) = [] /\
                 ~ task_keeps (RequestSettings details settings now)) \/
                exists cs k clock,
                  task_limit (RequestSettings details settings now) = Some k /\
                  (task_clean (RequestSettings details settings now) ->
                   Forall (fun c => truthy (cand_token c) = true) cs) /\
                  after s = addTokens cs k clock st) /\
               (forall t',
                   suspended s = Some t' ->
                   (task_clean (RequestSettings details settings now) -> task_clean t') /\
                   (forall k, task_limit t' = Some k ->
                              task_limit (RequestSettings details settings now) = Some k) /\
                   (task_keeps (RequestSettings details settings now) -> task_keeps t'))).
    { intros s ->. cbn. split; [reflexivity|]. split; [now left|]. discriminate. }
    destruct (tokenSource settings); try (now apply Hsame).
    destruct (extractTokenFromHeaders (requestHeaders details) settings)
      as [token|]; [|now apply Hsame].
    destruct (truthy token) eqn:Htruthy; cbn [negb]; [|now apply Hsame].
    pose proof (addToken_settings token (request_url details) (maxTokens settings)
                  now st) as Hset.
    assert (Hadd : addTokens [{| cand_token := token; cand_url := request_url details |}]
                     (maxTokens settings) (fun _ => now) st =
                   snd (addToken token (request_url details) (maxTokens settings) now st))
      by reflexivity.
    destruct (addToken token (request_url details) (maxTokens settings) now st)
      as [outcome st'].
    cbn [snd] in Hset, Hadd.
    assert (Hstate :
              exists cs k clock,
                task_limit (RequestSettings details settings now) = Some k /\
                (task_clean (RequestSettings details settings now) ->
                 Forall (fun c => truthy (cand_token c) = true) cs) /\
                st' = addTokens cs k clock st).
    { exists [{| cand_token := token; cand_url := request_url details |}],
        (maxTokens settings), (fun _ => now).
      split; [reflexivity|]. split; [|now rewrite Hadd].
      intros _. constructor; [exact Htruthy|constructor]. }
    destruct outcome; cbn;
      (split; [exact Hset|]; split; [right; right; exact Hstate|]);
      intros t'; try discriminate.
    intros [= <-]. cbn. repeat split; try discriminate; auto.
  - (* ScanSettings *)
    destruct (tokenSource settings); cbn.
    + split; [reflexivity|]. split; [now left|]. discriminate.
    + split; [reflexivity|]. split; [now left|].
      intros t' [= <-]. cbn. repeat split; auto.
      intros _. apply extractTokensFromStorage_truthy.
    + split; [reflexivity|]. split; [now left|].
      intros t' [= <-]. cbn. repeat split; auto.
  - (* ScanTabQueried *)
    destruct (tab_url env) as [u|]; [destruct (truthy u)|]; cbn;
      (split; [reflexivity|]; split; [now left|]); try discriminate.
    intros t' [= <-]. cbn. repeat split; auto.
    intros _. apply extractTokensFromCookies_truthy.
  - (* ScanLoop *)
    destruct (Hraw found k clock) as (Hset & (cs & clock0 & Hafter) & Hnext).
    split; [exact Hset|]. split.
    + right. right.
      destruct (scanLoop_spec found k clock st)
        as (handled & rest & clock' & Hf & Ha & _).
      exists handled, k, clock. split; [reflexivity|]. split; [|exact Ha].
      cbn [task_clean]. rewrite Hf. intros Hc. now apply Forall_app in Hc as [Hc _].
    + intros t' Ht'. split; [|split].
      * intros Hclean. now apply (Hloop found k clock Hclean).
      * destruct (Hnext t' Ht') as (rest & clock' & ->). cbn. auto.
      * destruct (Hnext t' Ht') as (rest & clock' & ->). cbn. auto.
  - (* ClearPersist *)
    cbn. split; [reflexivity|]. split; [now left|].
    intros t' [= <-]. cbn. repeat split; auto; discriminate.
  - (* SaveClear *)
    cbn. split; [reflexivity|]. split; [right; left; split; [reflexivity|cbn; tauto]|].
    intros t' [= <-]. cbn. repeat split; auto; discriminate.
  - (* TabQueried *)
    destruct query as [id|];
      [destruct (match activeTabId st with
                 | Some active => negb (Z.eqb id active)
                 | None => true
                 end)|]; cbn;
      (split; [reflexivity|]);
      (split; [(now left) || (right; left; split; [reflexivity|cbn; tauto])|]);
      try discriminate.
    intros t' [= <-]. cbn. repeat split; auto; discriminate.
  - (* WindowsListed *)
    destruct remaining; cbn; (split; [reflexivity|]; split; [now left|]);
      try discriminate.
    intros t' [= <-]. cbn. repeat split; auto; try discriminate; contradiction.
  - (* WindowsSettings *)
    destruct (autoCleanup settings); cbn;
      (split; [reflexivity|]);
      (split; [(now left) || (right; left; split; [reflexivity|cbn; tauto])|]);
      try discriminate.
    intros t' [= <-]. cbn. repeat split; auto; try discriminate; contradiction.
  - (* WindowsCleared *)
    cbn. split; [reflexivity|]. split; [now left|].
    intros t' [= <-]. cbn. repeat split; auto; discriminate.
  - (* Finish *)
    cbn. split; [reflexivity|]. split; [now left|]. discriminate.
Qed.

(** *** Invariants of every schedule *)

Lemma remove_nth_Forall (Q : Task -> Prop) i ts :
  Forall Q ts -> Forall Q (remove_nth i ts).
Proof.
  intros H. revert i. induction H as [|t ts Ht Hts IH]; intros i;
    [destruct i; constructor|].
  destruct i; cbn; [assumption|]. constructor; [assumption|apply IH].
Qed.

Lemma nth_error_Forall (Q : Task -> Prop) i ts t :
  Forall Q ts -> nth_error ts i = Some t -> Q t.
Proof.
  intros H Hn. apply nth_error_In in Hn.
  rewrite Forall_forall in H. now apply H.
Qed.

Section Steady.

Variable P : State -> Prop.
Variable Q : Task -> Prop.
Variable A : Event -> Prop.

Hypothesis arrive_steady :
  forall e st,
    A e -> P st ->
    P (after (arrive e st)) /\
    (forall t, suspended (arrive e st) = Some t -> Q t).

Hypothesis resume_steady :
  forall t st,
    Q t -> P st ->
    P (after (resume t st)) /\
    (forall t', suspended (resume t st) = Some t' -> Q t').

Lemma settle_steady s others box :
  P (after s) -> (forall t, suspended s = Some t -> Q t) -> Forall Q others ->
  steady P Q (settle s others box).
Proof.
  intros HP HQ Ho. split; [exact HP|]. cbn. apply Forall_app. split; [exact Ho|].
  destruct (suspended s) as [t|]; constructor; [now apply HQ|constructor].
Qed.

Lemma act_steady a sys :
  match a with Arrive e => A e | Resume _ => True end ->
  steady P Q sys -> steady P Q (act a sys).
Proof.
  intros Ha [HP HQ]. destruct a as [e|i]; cbn [act].
  - destruct (arrive_steady e (worker sys) Ha HP). now apply settle_steady.
  - destruct (nth_error (pending sys) i) as [t|] eqn:E; [|now split].
    destruct (resume_steady t (worker sys) (nth_error_Forall Q i _ t HQ E) HP).
    apply settle_steady; try assumption. now apply remove_nth_Forall.
Qed.

Lemma exec_steady schedule sys :
  arrivals A schedule -> steady P Q sys -> steady P Q (exec schedule sys).
Proof.
  intros Hs. revert sys. induction Hs as [|a schedule Ha Hs IH]; intros sys H;
    cbn [exec]; [assumption|].
  apply IH. now apply act_steady.
Qed.

End Steady.

Lemma arrivals_any schedule : arrivals (fun _ => True) schedule.
Proof.
  unfold arrivals. apply Forall_forall. intros [e|i] _; exact I.
Qed.

(** Under any schedule the keys of the map stay pairwise distinct. *)
Lemma exec_distinct schedule sys :
  distinct_tokens (worker sys) -> distinct_tokens (worker (exec schedule sys)).
Proof.
  intros H.
  apply (exec_steady distinct_tokens (fun _ => True) (fun _ => True)).
  - intros e st _ Hd. split; [|auto].
    destruct (arrive_shape e st) as ([Hsame|Hempty] & _);
      unfold distinct_tokens; [now rewrite Hsame|rewrite Hempty; constructor].
  - intros t st _ Hd. split; [|auto].
    destruct (resume_shape t st)
      as (_ & [Hsame|[[Hempty _]|(cs & k & clock & _ & _ & Hadd)]] & _);
      unfold distinct_tokens.
    + now rewrite Hsame.
    + rewrite Hempty. constructor.
    + rewrite Hadd. now apply addTokens_distinct.
  - apply arrivals_any.
  - split; [assumption|]. apply Forall_forall. auto.
Qed.

(** Under any schedule no key is the empty string, as long as the scans
    that are suspended at the start hold no empty candidate. *)
Lemma exec_nonempty schedule sys :
  steady tokens_nonempty task_clean sys ->
  steady tokens_nonempty task_clean (exec schedule sys).
Proof.
  apply (exec_steady tokens_nonempty task_clean (fun _ => True)).
  - intros e st _ Hd.
    destruct (arrive_shape e st) as ([Hsame|Hempty] & _ & _ & Htask).
    + split; [unfold tokens_nonempty; now rewrite Hsame|].
      intros t Ht. now apply Htask.
    + split; [unfold tokens_nonempty; rewrite Hempty; constructor|].
      intros t Ht. now apply Htask.
  - intros t st Hq Hd.
    destruct (resume_shape t st)
      as (_ & [Hsame|[[Hempty _]|(cs & k & clock & _ & Hcs & Hadd)]] & Htask);
      (split; [|intros t' Ht'; now apply (Htask t' Ht')]);
      unfold tokens_nonempty.
    + now rewrite Hsame.
    + rewrite Hempty. constructor.
    + rewrite Hadd. apply addTokens_nonempty; auto.
  - apply arrivals_any.
Qed.

(** Under any schedule the map holds at most [K] entries, when [K] bounds
    the size and the limit in force at the start, the limits the suspended
    handlers keep and the limits of the settings saved on the way. *)
Lemma exec_bounded K schedule sys :
  arrivals (save_bounded K) schedule ->
  steady (fun st => (map_size (detectedTokens st) <= K)%Z /\
                    (maxTokens (getSettings st) <= K)%Z)
         (task_bounded K) sys ->
  steady (fun st => (map_size (detectedTokens st) <= K)%Z /\
                    (maxTokens (getSettings st) <= K)%Z)
         (task_bounded K) (exec schedule sys).
Proof.
  apply exec_steady.
  - intros e st He [Hsize Hlimit].
    pose proof (map_size_nonneg (detectedTokens st)) as Hpos.
    destruct (arrive_shape e st) as (Htokens & Hsettings & _ & Htask).
    split; [split|].
    + destruct Htokens as [->| ->]; [assumption|]. change (map_size []) with 0%Z. lia.
    + destruct Hsettings as [Hs|(settings & -> & Hs)].
      * now rewrite (getSettings_local st _ Hs).
      * unfold getSettings. rewrite Hs. exact He.
    + intros t Ht. destruct (Htask t Ht) as (_ & Hk & _).
      unfold task_bounded. destruct (task_limit t) as [k|]; [|exact I].
      now rewrite (Hk k eq_refl).
  - intros t st Hq [Hsize Hlimit].
    pose proof (map_size_nonneg (detectedTokens st)) as Hpos.
    destruct (resume_shape t st) as (Hsettings & Htokens & Htask).
    split; [split|].
    + destruct Htokens as [->|[[-> _]|(cs & k & clock & Hk & _ & ->)]];
        [assumption|change (map_size []) with 0%Z; lia|].
      apply addTokens_bound; [assumption|].
      unfold task_bounded in Hq. now rewrite Hk in Hq.
    + now rewrite (getSettings_local st _ Hsettings).
    + intros t' Ht'. destruct (Htask t' Ht') as (_ & Hk & _).
      unfold task_bounded in *. destruct (task_limit t') as [k|]; [|exact I].
      now rewrite (Hk k eq_refl) in Hq.
Qed.

(** Requests and scans, however their stretches interleave, keep every
    entry the map holds. *)
Lemma exec_keeps token d schedule sys :
  arrivals is_ingest schedule ->
  steady (fun st => map_get token (detectedTokens st) = Some d) task_keeps sys ->
  steady (fun st => map_get token (detectedTokens st) = Some d) task_keeps
         (exec schedule sys).
Proof.
  apply exec_steady.
  - intros e st He Hget.
    destruct (arrive_shape e st) as (_ & _ & Hsame & Htask).
    rewrite (Hsame He). split; [assumption|].
    intros t Ht. now apply Htask.
  - intros t st Hq Hget.
    destruct (resume_shape t st)
      as (_ & [Hsame|[[_ Hno]|(cs & k & clock & _ & _ & Hadd)]] & Htask);
      try contradiction;
      (split; [|intros t' Ht'; now apply (Htask t' Ht')]).
    + now rewrite Hsame.
    + rewrite Hadd. now apply addTokens_keeps.
Qed.

(* ====================================================================== *)
(** ** C1: the bound *)
(* ====================================================================== *)


(* ====================================================================== *)
(** ** C2: de-duplication and the first source *)
(* ====================================================================== *)

Lemma occurrences_le_one token st :
  distinct_tokens st -> (occurrences token (detectedTokens st) <= 1)%nat.
Proof.
  intros Hnd. destruct (map_has token (detectedTokens st)) eqn:E.
  - rewrite occurrences_NoDup; [lia|exact Hnd|now apply map_has_In].
  - apply map_has_false in E. apply occurrences_zero in E. lia.
Qed.

Lemma exec_keeps_one token d schedule sys :
  distinct_tokens (worker sys) ->
  arrivals is_ingest schedule ->
  Forall task_keeps (pending sys) ->
  map_get token (detectedTokens (worker sys)) = Some d ->
  map_get token (detectedTokens (worker (exec schedule sys))) = Some d /\
  occurrences token (detectedTokens (worker (exec schedule sys))) = 1%nat.
Proof.
  intros Hnd Hs Hp Hget.
  destruct (exec_keeps token d schedule sys Hs (conj Hget Hp)) as [Hkept _].
  split; [exact Hkept|].
  apply occurrences_NoDup; [now apply exec_distinct|].
  apply map_has_In, map_get_has. now exists d.
Qed.

(** The claim as stated fails where the capacity return comes first: under
    a limit of one, with one token stored, a second token seen at two URLs
    is turned down both times and has no entry at the end.  The events are
    handled one at a time. *)
Lemma C2_duplicate_at_capacity_not_stored :
  occurrences (js "token-two-2222")
              (detectedTokens (run capacity_events (workerStart None None))) = 0%nat /\
  map_keys (detectedTokens (run capacity_events (workerStart None None))) =
    [js "token-one-1111"] /\
  fst (handleWebRequest (bearer_request 1 "https://a.example/2" "token-two-2222") 1002
         (run (firstn 3 capacity_events) (workerStart None None))) = CapacityReached /\
  fst (handleWebRequest (bearer_request 1 "https://b.example/3" "token-two-2222") 1003
         (run (firstn 4 capacity_events) (workerStart None None))) = CapacityReached /\
  worker (exec (serial 4 capacity_events) (idle (workerStart None None))) =
    run capacity_events (workerStart None None).
Proof. repeat split; vm_compute; reflexivity. Qed.

(** C2.  In a state whose keys are pairwise distinct:
    - under every schedule of events and resumed handlers a token has at
      most one entry;
    - [addToken] on a token that is not a key, with room left, stores it:
      it leaves through the accepting return and appends the entry with the
      given source and time; from then on, however the stretches of later
      requests and scans interleave, the token has exactly one entry, still
      with that source and time;
    - the stretch of the request handler that follows its settings read
      does the same with the token of the request: a stored token leaves the
      state as it is, whatever the limit; a new one with room left is
      appended with the request URL; a new one without room is dropped;
    - an entry already present is kept as it is by every such schedule;
    - [addToken] on a stored token leaves through the duplicate return
      whatever the limit and the current size are;
    - [addToken] on a token that is not a key, without room, leaves through
      the capacity return, and the token has no entry. *)
Theorem C2_dedup_first_source :
  forall sys : Sys,
    distinct_tokens (worker sys) ->
    (forall schedule token,
        (occurrences token (detectedTokens (worker (exec schedule sys))) <= 1)%nat) /\
    (forall token u k now,
        map_has token (detectedTokens (worker sys)) = false ->
        (map_size (detectedTokens (worker sys)) < k)%Z ->
        exists st',
          addToken token u k now (worker sys) = (Accepted, st') /\
          detectedTokens st' =
            detectedTokens (worker sys) ++ [(token, {| url := u; timestamp := now |})] /\
          forall schedule others box,
            arrivals is_ingest schedule ->
            Forall task_keeps others ->
            map_get token
              (detectedTokens
                 (worker (exec schedule
                            {| worker := st'; pending := others; outbox := box |}))) =
              Some {| url := u; timestamp := now |} /\
            occurrences token
              (detectedTokens
                 (worker (exec schedule
                            {| worker := st'; pending := others; outbox := box |}))) =
              1%nat) /\
    (forall details settings now token,
        tokenSource settings = headers ->
        extractTokenFromHeaders (requestHeaders details) settings = Some token ->
        truthy token = true ->
        (map_has token (detectedTokens (worker sys)) = true ->
         after (resume (RequestSettings details settings now) (worker sys)) =
           worker sys) /\
        (map_has token (detectedTokens (worker sys)) = false ->
         (map_size (detectedTokens (worker sys)) < maxTokens settings)%Z ->
         detectedTokens
           (after (resume (RequestSettings details settings now) (worker sys))) =
           detectedTokens (worker sys) ++
           [(token, {| url := request_url details; timestamp := now |})]) /\
        (map_has token (detectedTokens (worker sys)) = false ->
         (maxTokens settings <= map_size (detectedTokens (worker sys)))%Z ->
         after (resume (RequestSettings details settings now) (worker sys)) =
           worker sys)) /\
    (forall token d,
        map_get token (detectedTokens (worker sys)) = Some d ->
        forall schedule,
          arrivals is_ingest schedule ->
          Forall task_keeps (pending sys) ->
          map_get token (detectedTokens (worker (exec schedule sys))) = Some d /\
          occurrences token (detectedTokens (worker (exec schedule sys))) = 1%nat) /\
    (forall token,
        map_has token (detectedTokens (worker sys)) = true ->
        forall u k now,
          addToken token u k now (worker sys) = (DuplicateIgnored, worker sys)) /\
    (forall token u k now,
        map_has token (detectedTokens (worker sys)) = false ->
        (k <= map_size (detectedTokens (worker sys)))%Z ->
        addToken token u k now (worker sys) = (CapacityReached, worker sys) /\
        occurrences token (detectedTokens (worker sys)) = 0%nat).
Proof.
  intros sys Hnd. split; [|split; [|split; [|split; [|split]]]].
  - intros schedule token. apply occurrences_le_one. now apply exec_distinct.
  - intros token u k now Hfresh Hk.
    eexists. split; [now apply addToken_accept|]. split; [reflexivity|].
    intros schedule others box Hs Ho.
    apply exec_keeps_one; try assumption.
    + pose proof (addToken_distinct token u k now (worker sys) Hnd) as Hnd'.
      now rewrite addToken_accept in Hnd' by assumption.
    + cbn. now apply map_get_app_fresh.
  - intros details settings now token Hsrc Hext Htruthy.
    cbn [resume]. rewrite Hsrc, Hext, Htruthy. cbn [negb].
    split; [|split].
    + intros Hhas. now rewrite addToken_duplicate.
    + intros Hfresh Hk. now rewrite addToken_accept.
    + intros Hfresh Hk. now rewrite addToken_full.
  - intros token d Hget schedule Hs Hp. now apply exec_keeps_one.
  - intros token Hhas u k now. now apply addToken_duplicate.
  - intros token u k now Hfresh Hk. split; [now apply addToken_full|].
    apply occurrences_zero. now apply map_has_false.
Qed.

(* ====================================================================== *)
(** ** C8: stored tokens are non-empty *)
(* ====================================================================== *)

Lemma handleWebRequest_empty_token details now st :
  extractTokenFromHeaders (requestHeaders details) (getSettings st) = Some [] ->
  handleWebRequest details now st = (NoMatch, st).
Proof.
  intros H. rewrite handleWebRequest_candidate. unfold request_candidate.
  rewrite H. simpl.
  destruct (activeTabId st) as [active|]; [|reflexivity].
  destruct (Z.eqb (tabId details) active); [|reflexivity].
  destruct (tokenSource (getSettings st)); reflexivity.
Qed.

Lemma plausible_length value :
  plausible value = true -> (10 < strlen value)%nat.
Proof.
  unfold plausible. intros [_ H]%andb_true_iff. now apply Nat.ltb_lt.
Qed.

(** C8.  If no key of the map is the empty string, none is after any
    sequence of events.  A web request whose matched header value is the
    empty string leaves through the no-match return with the state
    untouched; such a value can be matched under the session and the custom
    type and never under the bearer type; and every candidate of a storage
    or cookie scan is longer than ten code units. *)
Theorem C8_tokens_nonempty :
  forall (es : list Event) (st0 : State),
    tokens_nonempty st0 ->
    let st := run es st0 in
    tokens_nonempty st /\
    (forall details now,
        extractTokenFromHeaders (requestHeaders details) (getSettings st) = Some [] ->
        handleWebRequest details now st = (NoMatch, st)) /\
    (forall env settings c,
        In c (foundTokens env settings) -> (10 < strlen (cand_token c))%nat) /\
    (forall value, matchBearer value <> Some []) /\
    (forall settings,
        tokenType settings = session ->
        extractTokenFromHeaders
          (Some [{| header_name := js "X-Session-Token"; header_value := [] |}])
          settings = Some []) /\
    (forall settings,
        tokenType settings = custom ->
        customHeaderName settings <> [] ->
        extractTokenFromHeaders
          (Some [{| header_name := customHeaderName settings; header_value := [] |}])
          settings = Some []).
Proof.
  intros es st0 H0 st. split; [|split; [|split; [|split; [|split]]]].
  - now apply run_nonempty.
  - intros details now. apply handleWebRequest_empty_token.
  - intros env settings c Hc. apply plausible_length.
    pose proof (foundTokens_plausible env settings) as Hall.
    rewrite Forall_forall in Hall. now apply Hall.
  - intros value Hm. apply matchBearer_some in Hm as [rest [j (_ & _ & _ & Hd)]].
    discriminate.
  - intros settings Htt. simpl. rewrite Htt. reflexivity.
  - intros settings Htt Hname. simpl. rewrite Htt.
    apply truthy_nonempty in Hname. rewrite Hname, str_eqb_refl. reflexivity.
Qed.

(* ====================================================================== *)
(** ** C3: display masking *)
(* ====================================================================== *)

Lemma maskToken_short token :
  (strlen token < 12)%nat -> maskToken token = mask_short.
Proof.
  intros H. unfold maskToken. apply Nat.ltb_lt in H. rewrite H.
  now rewrite orb_true_r.
Qed.

Lemma maskToken_long token :
  (12 <= strlen token)%nat ->
  maskToken token =
    slice_prefix 4 token ++
    repeat_str mask_unit (Nat.min 20 (strlen token - 8)) ++
    slice_suffix 4 token.
Proof.
  intros H. unfold maskToken.
  assert (Ht : truthy token = true) by (destruct token; simpl in *; [lia|reflexivity]).
  apply Nat.ltb_ge in H. rewrite Ht, H. simpl negb. cbv iota. simpl orb.
  cbv zeta. cbv iota.
  replace (strlen token - 4 - 4)%nat with (strlen token - 8)%nat by lia.
  reflexivity.
Qed.

Lemma token_three_parts token :
  (8 <= strlen token)%nat ->
  token =
    slice_prefix 4 token ++
    firstn (strlen token - 8) (skipn 4 token) ++
    slice_suffix 4 token.
Proof.
  intros H. unfold slice_prefix, slice_suffix.
  replace (strlen token - 4)%nat with ((strlen token - 8) + 4)%nat by lia.
  rewrite <- skipn_skipn. rewrite firstn_skipn. now rewrite firstn_skipn.
Qed.

(** C3, as stated, fails: no single width serves every token of twelve or
    more code units.  A token of length 12 gets four mask units, one of
    length 13 gets five. *)
Lemma C3_mask_width_varies :
  ~ (exists w : nat,
       forall token : jsstring,
         (12 <= strlen token)%nat ->
         maskToken token =
           slice_prefix 4 token ++ repeat_str mask_unit w ++ slice_suffix 4 token).
Proof.
  intros [w Hw].
  assert (Hu : mask_unit <> []) by discriminate.
  pose proof (Hw (js "abcdefghijkl") ltac:(simpl; lia)) as H12.
  pose proof (Hw (js "abcdefghijklm") ltac:(simpl; lia)) as H13.
  rewrite maskToken_long in H12, H13 by (simpl; lia).
  apply app_inv_head, app_inv_tail, (repeat_str_inj _ _ _ Hu) in H12.
  apply app_inv_head, app_inv_tail, (repeat_str_inj _ _ _ Hu) in H13.
  simpl in H12, H13. congruence.
Qed.

(** C3, amended.  For a token of twelve or more code units the masked
    string is the token's first four units, then [min 20 (length - 8)] mask
    units, then its last four units; the units between the first and the
    last four do not matter: two tokens of one length with the same first
    four and last four units are masked alike.  For a shorter token the
    result is the constant of twelve mask units, the same for every such
    token. *)
Theorem C3_mask_shape :
  forall token : jsstring,
    ((12 <= strlen token)%nat ->
       maskToken token =
         slice_prefix 4 token ++
         repeat_str mask_unit (Nat.min 20 (strlen token - 8)) ++
         slice_suffix 4 token /\
       strlen (slice_prefix 4 token) = 4%nat /\
       strlen (slice_suffix 4 token) = 4%nat /\
       exists hidden,
         token = slice_prefix 4 token ++ hidden ++ slice_suffix 4 token /\
         strlen hidden = (strlen token - 8)%nat) /\
    ((strlen token < 12)%nat ->
       maskToken token = mask_short /\
       forall other, (strlen other < 12)%nat -> maskToken other = maskToken token) /\
    (forall other,
        strlen other = strlen token ->
        slice_prefix 4 other = slice_prefix 4 token ->
        slice_suffix 4 other = slice_suffix 4 token ->
        maskToken other = maskToken token).
Proof.
  intros token. split; [|split].
  3: { intros other Hl Hp Hs.
       destruct (Nat.lt_ge_cases (strlen token) 12) as [H|H].
       - now rewrite !maskToken_short by lia.
       - rewrite !maskToken_long by lia. now rewrite Hl, Hp, Hs. }
  - intros H. split; [now apply maskToken_long|].
    unfold slice_prefix, slice_suffix, strlen in *.
    split; [rewrite length_firstn; lia|].
    split; [rewrite length_skipn; lia|].
    exists (firstn (List.length token - 8) (skipn 4 token)). split.
    + apply token_three_parts. unfold strlen. lia.
    + rewrite length_firstn, length_skipn. lia.
  - intros H. split; [now apply maskToken_short|].
    intros other Ho. now rewrite !maskToken_short.
Qed.

(* ====================================================================== *)
(** ** C4 and C6: saving settings *)
(* ====================================================================== *)

Lemma clampMaxTokens_range m : (1 <= clampMaxTokens m <= 5)%Z.
Proof.
  unfold clampMaxTokens.
  destruct (5 <? m)%Z eqn:E5.
  - simpl. lia.
  - destruct (m <? 1)%Z eqn:E1; [lia|].
    apply Z.ltb_ge in E5, E1. lia.
Qed.

Lemma clampMaxTokens_id m : (1 <= m <= 5)%Z -> clampMaxTokens m = m.
Proof.
  intros H. unfold clampMaxTokens.
  assert (E5 : (5 <? m)%Z = false) by (apply Z.ltb_ge; lia).
  assert (E1 : (m <? 1)%Z = false) by (apply Z.ltb_ge; lia).
  now rewrite E5, E1.
Qed.

Lemma onMessage_save s st :
  onMessage (SAVE_SETTINGS s) st =
    (RespSuccess, persistTokens (clearTokens (saveSettings s st))).
Proof. reflexivity. Qed.



(** C6.  Entries found under the previous policy are visible after a
    policy change.  A fresh worker under the storage source has tab 7
    activated; a scan arrives, reads the settings and asks the page for its
    storage; a settings save that selects the headers source arrives, clears
    the map and answers, and at that point the map is empty; then the page's
    storage comes back and the scan stores the three tokens it finds there.
    A [GET_TOKENS] that arrives afterwards, with no handler suspended and
    the headers policy in force, is answered with the three entries taken
    from the page's storage. *)
Theorem C6_scan_outlives_policy_change :
  detectedTokens
    (worker (exec (firstn 7 (race_schedule (headers_bearer 5))) race_start)) = [] /\
  outbox (exec (firstn 7 (race_schedule (headers_bearer 5))) race_start) =
    [RespSuccess] /\
  getSettings
    (worker (exec (firstn 7 (race_schedule (headers_bearer 5))) race_start)) =
    headers_bearer 5 /\
  pending (exec (race_schedule (headers_bearer 5)) race_start) = [] /\
  getSettings (worker (exec (race_schedule (headers_bearer 5)) race_start)) =
    headers_bearer 5 /\
  detectedTokens (worker (exec (race_schedule (headers_bearer 5)) race_start)) =
    race_entries /\
  outbox (exec (race_schedule (headers_bearer 5) ++ [Arrive (RuntimeMessage GET_TOKENS)])
               race_start) =
    [RespSuccess; RespTokens (tokenList race_entries);
     RespTokens (tokenList race_entries)] /\
  map_keys race_entries =
    [js "aaaaaaaaaaaa-1"; js "bbbbbbbbbbbb-2"; js "cccccccccccc-3"] /\
  map url (map snd race_entries) =
    [js "localStorage:access_token"; js "localStorage:auth_token";
     js "sessionStorage:bearer"].
Proof. repeat split; vm_compute; reflexivity. Qed.

(* ====================================================================== *)
(** ** C7: the active tab *)
(* ====================================================================== *)

(** C7, as stated, fails for the activation listener: with tab 7 stored as
    the active tab and one token collected, an activation of tab 7 is not a
    no-op, it empties the collection. *)
Lemma C7_activation_of_stored_tab_resets :
  activeTabId tab7_with_token = Some 7%Z /\
  map_keys (detectedTokens tab7_with_token) = [js "abc123xyz789"] /\
  detectedTokens (onActivated 7 tab7_with_token) = [] /\
  onActivated 7 tab7_with_token <> tab7_with_token.
Proof.
  repeat split; try reflexivity.
  intros H. apply (f_equal detectedTokens) in H. discriminate.
Qed.

(** C7, amended.  [updateActiveTab] stores the queried tab and empties the
    collection exactly when the query returns a tab whose id differs from
    the stored one, and is a no-op when the ids are equal or no tab is
    returned.  The activation listener always stores the activated id and
    empties the collection, whether or not the id differs.  A 'loading'
    update of the active tab always empties the collection and leaves the
    stored id as it is; any other update is a no-op. *)
Theorem C7_context_tracking :
  forall (st : State) (id : Z),
    (activeTabId st <> Some id -> updateActiveTab (Some id) st = reset_to id st) /\
    (activeTabId st = Some id -> updateActiveTab (Some id) st = st) /\
    updateActiveTab None st = st /\
    onActivated id st = reset_to id st /\
    (detectedTokens (reset_to id st) = [] /\
     activeTabId (reset_to id st) = Some id /\
     session_tokens (reset_to id st) = Some [] /\
     local_settings (reset_to id st) = local_settings st) /\
    (activeTabId st = Some id ->
     onUpdated id true st = persistTokens (clearTokens st) /\
     detectedTokens (onUpdated id true st) = [] /\
     activeTabId (onUpdated id true st) = Some id) /\
    onUpdated id false st = st /\
    (forall loading, activeTabId st <> Some id -> onUpdated id loading st = st).
Proof.
  intros st id. unfold updateActiveTab, onUpdated.
  split; [|split; [|split; [|split; [|split; [|split; [|split]]]]]].
  - intros H. destruct (activeTabId st) as [active|]; [|reflexivity].
    destruct (Z.eqb id active) eqn:E; [|reflexivity].
    apply Z.eqb_eq in E. congruence.
  - intros ->. now rewrite Z.eqb_refl.
  - reflexivity.
  - reflexivity.
  - repeat split; reflexivity.
  - intros H. rewrite H, Z.eqb_refl. simpl. repeat split; try reflexivity.
    exact H.
  - destruct (activeTabId st) as [active|]; [|reflexivity].
    now rewrite andb_false_r.
  - intros loading H. destruct (activeTabId st) as [active|]; [|reflexivity].
    destruct (Z.eqb id active) eqn:E; [|reflexivity].
    apply Z.eqb_eq in E. congruence.
Qed.

(* ====================================================================== *)
(** ** C9: candidates of a storage scan *)
(* ====================================================================== *)

Lemma key_matches_iff pats key :
  key_matches pats key = true <->
  exists pattern,
    In pattern pats /\ includes (toLowerCase key) (toLowerCase pattern) = true.
Proof. unfold key_matches. apply existsb_exists. Qed.

Lemma plausible_iff value :
  plausible value = true <-> (10 < strlen value)%nat.
Proof.
  split; [apply plausible_length|].
  intros H. unfold plausible. apply andb_true_iff. split.
  - destruct value; [simpl in H; lia|reflexivity].
  - now apply Nat.ltb_lt.
Qed.

Lemma In_scanStore kind pats entries c :
  In c (scanStore kind pats entries) <->
  exists key value,
    In (key, value) entries /\
    key_matches pats key = true /\ plausible value = true /\
    c = {| cand_token := value; cand_url := kind ++ js ":" ++ key |}.
Proof.
  induction entries as [|[key value] rest IH]; simpl.
  - split; [contradiction|]. intros [? [? [[] _]]].
  - destruct (key_matches pats key && plausible value) eqn:E.
    + apply andb_true_iff in E as [Ek Ev]. simpl. rewrite IH. split.
      * intros [<-|[k [v (Hin & Hk & Hv & ->)]]].
        -- exists key, value. auto.
        -- exists k, v. auto.
      * intros [k [v ([[= <- <-]|Hin] & Hk & Hv & ->)]]; [now left|].
        right. exists k, v. auto.
    + rewrite IH. split.
      * intros [k [v (Hin & Hk & Hv & ->)]]. exists k, v. auto.
      * intros [k [v ([[= <- <-]|Hin] & Hk & Hv & ->)]].
        -- rewrite Hk, Hv in E. discriminate.
        -- exists k, v. auto.
Qed.

Lemma scanStore_single kind pats key value :
  key_matches pats key = true ->
  scanStore kind pats [(key, value)] =
    if (10 <? strlen value)%nat
    then [{| cand_token := value; cand_url := kind ++ js ":" ++ key |}]
    else [].
Proof.
  intros Hk. simpl. rewrite Hk. simpl.
  destruct (10 <? strlen value)%nat eqn:E.
  - apply Nat.ltb_lt, plausible_iff in E. now rewrite E.
  - destruct (plausible value) eqn:P; [|reflexivity].
    apply plausible_iff, Nat.ltb_lt in P. congruence.
Qed.

(** C9.  The candidates of a storage scan are exactly the entries of the two
    stores whose key, lower-cased, contains a lower-cased keyword of the
    selected type and whose value is longer than ten units; the candidate
    carries the value as token and the store's name, a colon and the key as
    source.  An entry under a matching key yields no candidate when its
    value has length 8 and yields its candidate when the length is 30; on
    the storage of scenario 5 the scan returns the 30-unit value alone, and
    a scan message on a fresh worker monitoring that page stores it.
    Lower-casing is [toLowerCase], which folds every cased code point: the
    key 'ACCESS_TO' U+212A 'EN' is matched by the keyword 'token', and a
    key with U+00E9 by a configured name with U+00C9. *)
Theorem C9_storage_candidates :
  forall (page : PageStorage) (settings : Settings),
    let pats := storage_patterns (tokenType settings) (customHeaderName settings) in
    (forall c,
        In c (extractTokensFromStorage (Some page) settings) <->
        exists key value,
          (In (key, value) (localStorage page) /\
           cand_url c = js "localStorage:" ++ key \/
           In (key, value) (sessionStorage page) /\
           cand_url c = js "sessionStorage:" ++ key) /\
          cand_token c = value /\
          (exists pattern,
              In pattern pats /\
              includes (toLowerCase key) (toLowerCase pattern) = true) /\
          (10 < strlen value)%nat) /\
    (forall kind key value,
        key_matches pats key = true ->
        (strlen value = 8%nat -> scanStore kind pats [(key, value)] = []) /\
        (strlen value = 30%nat ->
         scanStore kind pats [(key, value)] =
           [{| cand_token := value; cand_url := kind ++ js ":" ++ key |}])) /\
    extractTokensFromStorage (Some scenario5_page) storage_bearer =
      [{| cand_token := js "abcdefghijklmnopqrstuvwxyz0123";
          cand_url := js "localStorage:auth_token_v2b" |}] /\
    extractTokensFromStorage
      (Some {| localStorage := [(kelvin_key, js "abcdefghijkl")];
               sessionStorage := [(cle_api_lower, js "mnopqrstuvwx")] |})
      storage_bearer =
      [{| cand_token := js "abcdefghijkl";
          cand_url := js "localStorage:" ++ kelvin_key |}] /\
    extractTokensFromStorage
      (Some {| localStorage := [(kelvin_key, js "abcdefghijkl")];
               sessionStorage := [(cle_api_lower, js "mnopqrstuvwx")] |})
      (custom_named cle_api_upper storage) =
      [{| cand_token := js "mnopqrstuvwx";
          cand_url := js "sessionStorage:" ++ cle_api_lower |}] /\
    map_keys
      (detectedTokens
         (run [TabActivated 1;
               RuntimeMessage
                 (SCAN_STORAGE {| page_storage := Some scenario5_page;
                                  tab_url := None; cookie_jar := None |}
                              (fun _ => 1000%Z))]
              (workerStart (Some storage_bearer) None))) =
      [js "abcdefghijklmnopqrstuvwxyz0123"].
Proof.
  intros page settings pats. split; [|split; [|split; [|split; [|split]]]].
  - intros c. unfold extractTokensFromStorage. fold pats.
    rewrite in_app_iff, !In_scanStore. split.
    + intros [[k [v (Hin & Hk & Hv & ->)]]|[k [v (Hin & Hk & Hv & ->)]]];
        exists k, v; (split; [|split; [reflexivity|split]]);
        try (now apply key_matches_iff); try (now apply plausible_iff).
      * left. split; [assumption|reflexivity].
      * right. split; [assumption|reflexivity].
    + intros [k [v (Hwhere & Htok & Hk & Hv)]].
      apply key_matches_iff in Hk. apply plausible_iff in Hv.
      destruct c as [tok u]. simpl in Hwhere, Htok. subst tok.
      destruct Hwhere as [[Hin ->]|[Hin ->]]; [left|right];
        exists k, v; repeat split; auto.
  - intros kind key value Hk. rewrite (scanStore_single kind pats key value Hk).
    split; intros ->; reflexivity.
  - reflexivity.
  - vm_compute. reflexivity.
  - vm_compute. reflexivity.
  - reflexivity.
Qed.

(* ====================================================================== *)
(** ** C10: the custom type without a header name *)
(* ====================================================================== *)

Lemma scanHeaders_custom_unnamed hs settings :
  tokenType settings = custom ->
  customHeaderName settings = [] ->
  scanHeaders hs settings = None.
Proof.
  intros Ht Hn. induction hs as [|h hs IH]; simpl; [reflexivity|].
  rewrite Ht, Hn. simpl. exact IH.
Qed.

Lemma scanStore_no_patterns kind entries : scanStore kind [] entries = [].
Proof. induction entries as [|[key value] rest IH]; simpl; auto. Qed.

Lemma scanCookies_no_patterns jar : scanCookies [] jar = [].
Proof. induction jar as [|cookie rest IH]; simpl; auto. Qed.

Lemma foundTokens_custom_unnamed env settings :
  tokenType settings = custom ->
  customHeaderName settings = [] ->
  foundTokens env settings = [].
Proof.
  intros Ht Hn. unfold foundTokens, extractTokensFromStorage,
    extractTokensFromCookies.
  rewrite Ht, Hn. simpl.
  destruct (tokenSource settings); [reflexivity| |].
  - destruct (page_storage env); [|reflexivity].
    now rewrite !scanStore_no_patterns.
  - destruct (tab_url env) as [u|]; [|reflexivity].
    destruct (truthy u); [|reflexivity].
    destruct (cookie_jar env); [apply scanCookies_no_patterns|reflexivity].
Qed.

(** C10.  When the settings in force select the custom type and the custom
    header name is the empty string: the header matcher returns [null] for
    every argument, the storage scan and the cookie scan return the empty
    array whatever the page and the cookie jar hold (their keyword sets are
    empty), every web request leaves through the no-match return, and every
    sequence of requests and scans leaves the whole state, the collection
    included, as it was.  The empty name is the default. *)
Theorem C10_custom_without_name :
  forall st : State,
    tokenType (getSettings st) = custom ->
    customHeaderName (getSettings st) = [] ->
    (forall hs, extractTokenFromHeaders hs (getSettings st) = None) /\
    (forall page, extractTokensFromStorage page (getSettings st) = []) /\
    (forall jar, extractTokensFromCookies jar (getSettings st) = []) /\
    (forall details now, handleWebRequest details now st = (NoMatch, st)) /\
    (forall env clock,
        onMessage (SCAN_STORAGE env clock) st =
          (RespTokens (tokenList (detectedTokens st)), st)) /\
    (forall es, Forall is_ingest es -> run es st = st) /\
    storage_patterns (tokenType (getSettings st))
                     (customHeaderName (getSettings st)) = [] /\
    cookie_patterns (tokenType (getSettings st))
                    (customHeaderName (getSettings st)) = [] /\
    customHeaderName DEFAULT_SETTINGS = [].
Proof.
  intros st Ht Hn.
  assert (Hh : forall hs, extractTokenFromHeaders hs (getSettings st) = None).
  { intros [hs|]; [|reflexivity]. now apply scanHeaders_custom_unnamed. }
  assert (Hw : forall details now, handleWebRequest details now st = (NoMatch, st)).
  { intros details now. unfold handleWebRequest. rewrite Hh.
    destruct (activeTabId st) as [active|]; [|reflexivity].
    destruct (negb _); [reflexivity|].
    destruct (tokenSource (getSettings st)); reflexivity. }
  assert (Hs : forall env clock,
             onMessage (SCAN_STORAGE env clock) st =
               (RespTokens (tokenList (detectedTokens st)), st)).
  { intros env clock. simpl. now rewrite foundTokens_custom_unnamed. }
  split; [exact Hh|]. split.
  { intros page. unfold extractTokensFromStorage. rewrite Ht, Hn. simpl.
    destruct page; [|reflexivity]. now rewrite !scanStore_no_patterns. }
  split.
  { intros jar. unfold extractTokensFromCookies. rewrite Ht, Hn. simpl.
    destruct jar; [apply scanCookies_no_patterns|reflexivity]. }
  split; [exact Hw|]. split; [exact Hs|].
  split; [|rewrite Ht, Hn; repeat split; reflexivity].
  intros es Hes. induction Hes as [|e es He Hes IH]; simpl; [reflexivity|].
  assert (Hstep : step e st = st).
  { destruct e as [details now| | | |message|]; simpl in He; try contradiction.
    - change (snd (handleWebRequest details now st) = st). now rewrite Hw.
    - destruct message as [|env clock| | | | |]; try contradiction.
      change (snd (onMessage (SCAN_STORAGE env clock) st) = st). now rewrite Hs. }
  rewrite Hstep. exact IH.
Qed.

(* ====================================================================== *)
(** ** C5: the bearer matcher *)
(* ====================================================================== *)

Lemma unit_eqb_ci_eq c p : unit_eqb_ci c p = true <-> lower_unit c = lower_unit p.
Proof. apply N.eqb_eq. Qed.

Lemma strip_prefix_ci_some p s rest :
  strip_prefix_ci p s = Some rest <->
  exists pre,
    s = pre ++ rest /\ List.length pre = List.length p /\
    fold_ascii pre = fold_ascii p.
Proof.
  revert s. induction p as [|y p IH]; intros s; simpl.
  - split.
    + intros [= ->]. now exists [].
    + intros [[|x pre] (-> & Hl & _)]; [reflexivity|discriminate].
  - destruct s as [|x s].
    + split; [discriminate|]. intros [[|x pre] (He & Hl & _)]; discriminate.
    + destruct (unit_eqb_ci x y) eqn:E.
      * rewrite IH. apply unit_eqb_ci_eq in E. split.
        -- intros [pre (-> & Hl & Hp)]. exists (x :: pre). simpl.
           repeat split; congruence.
        -- intros [[|x' pre] (He & Hl & Hp)]; [discriminate|].
           simpl in He, Hl, Hp. injection He as <- ->. injection Hp as _ Hp.
           exists pre. repeat split; [lia|assumption].
      * split; [discriminate|].
        intros [[|x' pre] (He & Hl & Hp)]; [discriminate|].
        simpl in He, Hp. injection He as <- _. injection Hp as Hx _.
        apply unit_eqb_ci_eq in Hx. congruence.
Qed.

Lemma ws_run_le s : (ws_run s <= List.length s)%nat.
Proof.
  induction s as [|c s IH]; simpl; [lia|].
  destruct (isWhiteSpace c); simpl; lia.
Qed.

Lemma skipn_ws_run s : skipn (ws_run s) s = trimStart s.
Proof.
  induction s as [|c s IH]; simpl; [reflexivity|].
  destruct (isWhiteSpace c); [exact IH|reflexivity].
Qed.

Lemma firstn_ws_run s j :
  (j <= ws_run s)%nat -> forallb isWhiteSpace (firstn j s) = true.
Proof.
  revert j. induction s as [|c s IH]; intros j Hj; simpl in Hj.
  - now rewrite firstn_nil.
  - destruct j as [|j]; [reflexivity|]. simpl.
    destruct (isWhiteSpace c); [|lia]. simpl. apply IH. lia.
Qed.

Lemma ws_run_app_ge ws t :
  forallb isWhiteSpace ws = true -> (List.length ws <= ws_run (ws ++ t))%nat.
Proof.
  induction ws as [|c ws IH]; simpl; intros H; [lia|].
  apply andb_true_iff in H as [Hc Hws]. rewrite Hc.
  specialize (IH Hws). lia.
Qed.

Lemma trimStart_app_ws ws t :
  forallb isWhiteSpace ws = true -> trimStart (ws ++ t) = trimStart t.
Proof.
  induction ws as [|c ws IH]; simpl; intros H; [reflexivity|].
  apply andb_true_iff in H as [Hc Hws]. rewrite Hc. auto.
Qed.

Lemma dot_plus_suffix a b :
  dot_plus_to_end (a ++ b) = true -> b <> [] -> dot_plus_to_end b = true.
Proof.
  unfold dot_plus_to_end. intros H Hb.
  apply andb_true_iff in H as [_ H]. rewrite forallb_app in H.
  apply andb_true_iff in H as [_ H]. rewrite H.
  apply truthy_nonempty in Hb. now rewrite Hb.
Qed.

Lemma skipn_split (l : jsstring) j m :
  (j <= m)%nat -> skipn j l = firstn (m - j) (skipn j l) ++ skipn m l.
Proof.
  intros H. replace m with ((m - j) + j)%nat at 2 by lia.
  rewrite <- skipn_skipn. now rewrite firstn_skipn.
Qed.

(** The first success of the backtracking: later-tried shorter runs are
    not looked at, earlier-tried longer runs have failed. *)
Lemma backtrack_ws_first k rest g :
  backtrack_ws k rest = Some g ->
  exists j,
    (1 <= j <= k)%nat /\ g = skipn j rest /\ dot_plus_to_end g = true /\
    forall j', (j < j' <= k)%nat -> dot_plus_to_end (skipn j' rest) = false.
Proof.
  induction k as [|k IH]; cbn [backtrack_ws]; [discriminate|].
  destruct (dot_plus_to_end (skipn (S k) rest)) eqn:E.
  - intros [= <-]. exists (S k).
    split; [lia|]. split; [reflexivity|]. split; [assumption|].
    intros j' Hj'. lia.
  - intros H. destruct (IH H) as [j (Hj & Hg & Hd & Hfail)].
    exists j. split; [lia|]. split; [assumption|]. split; [assumption|].
    intros j' Hj'. destruct (Nat.eq_dec j' (S k)) as [->|Hne]; [assumption|].
    apply Hfail. lia.
Qed.

(** What the capture group holds, against [trimStart]. *)
Lemma backtrack_ws_token rest g :
  backtrack_ws (ws_run rest) rest = Some g ->
  (trimStart rest <> [] /\ g = trimStart rest) \/
  (trimStart rest = [] /\ strlen g = 1%nat).
Proof.
  intros H. apply backtrack_ws_first in H as [j (Hj & Hg & Hd & Hfail)].
  pose proof (ws_run_le rest) as Hle.
  pose proof (skipn_ws_run rest) as Htail.
  destruct (trimStart rest) as [|c tail] eqn:Et.
  - right. split; [reflexivity|].
    assert (Hn : ws_run rest = List.length rest).
    { apply (f_equal (@List.length N)) in Htail.
      rewrite length_skipn in Htail. simpl in Htail. lia. }
    assert (Hlen : strlen g = (List.length rest - j)%nat).
    { subst g. unfold strlen. now rewrite length_skipn. }
    assert (Hg0 : strlen g <> 0%nat).
    { unfold dot_plus_to_end in Hd. destruct g; [discriminate|simpl; lia]. }
    destruct (Nat.eq_dec (S j) (ws_run rest)) as [Hj1|Hj1]; [lia|].
    exfalso.
    assert (Hlast : dot_plus_to_end (skipn (ws_run rest - 1) rest) = false)
      by (apply Hfail; lia).
    rewrite (skipn_split rest j (ws_run rest - 1)) in Hg by lia.
    rewrite Hg in Hd. apply dot_plus_suffix in Hd; [congruence|].
    intros Hnil. apply (f_equal (@List.length N)) in Hnil.
    rewrite length_skipn in Hnil. simpl in Hnil. lia.
  - left. split; [discriminate|].
    destruct (Nat.eq_dec j (ws_run rest)) as [->|Hne]; [congruence|].
    exfalso.
    assert (Hfull : dot_plus_to_end (skipn (ws_run rest) rest) = false)
      by (apply Hfail; lia).
    rewrite (skipn_split rest j (ws_run rest)) in Hg by lia.
    rewrite Hg in Hd. apply dot_plus_suffix in Hd; [congruence|].
    rewrite Htail. discriminate.
Qed.

Lemma matchBearer_parts value g :
  matchBearer value = Some g ->
  exists prefix ws,
    value = prefix ++ ws ++ g /\
    fold_ascii prefix = js "bearer" /\
    ws <> [] /\ forallb isWhiteSpace ws = true /\
    dot_plus_to_end g = true /\
    (g = trimStart (ws ++ g) \/ (trimStart (ws ++ g) = [] /\ strlen g = 1%nat)).
Proof.
  unfold matchBearer.
  destruct (strip_prefix_ci (js "Bearer") value) as [rest|] eqn:Ep; [|discriminate].
  intros H.
  apply strip_prefix_ci_some in Ep as [prefix (-> & _ & Hp)].
  pose proof (backtrack_ws_token rest g H) as Htok.
  apply backtrack_ws_some in H as [j (Hj & Hg & Hd)].
  assert (Hrest : rest = firstn j rest ++ g)
    by (rewrite Hg; symmetry; apply firstn_skipn).
  exists prefix, (firstn j rest). rewrite <- Hrest.
  split; [reflexivity|]. split; [exact Hp|]. split.
  { intros Hnil. apply (f_equal (@List.length N)) in Hnil.
    rewrite length_firstn in Hnil. pose proof (ws_run_le rest). simpl in Hnil. lia. }
  split; [apply firstn_ws_run; lia|]. split; [assumption|].
  destruct Htok as [[_ ->]|[Hnil Hone]]; [now left|now right].
Qed.

Lemma matchBearer_complete prefix ws t :
  fold_ascii prefix = js "bearer" ->
  ws <> [] -> forallb isWhiteSpace ws = true ->
  dot_plus_to_end t = true ->
  matchBearer (prefix ++ ws ++ t) <> None.
Proof.
  intros Hp Hws Hall Ht. unfold matchBearer.
  assert (Hs : strip_prefix_ci (js "Bearer") (prefix ++ ws ++ t) = Some (ws ++ t)).
  { apply strip_prefix_ci_some. exists prefix. split; [reflexivity|].
    split; [|exact Hp].
    apply (f_equal (@List.length N)) in Hp. unfold fold_ascii in Hp.
    rewrite length_map in Hp. exact Hp. }
  rewrite Hs. intros Hnone.
  pose proof (backtrack_ws_none _ _ Hnone (List.length ws)) as Hfail.
  rewrite skipn_app, skipn_all, Nat.sub_diag in Hfail. simpl in Hfail.
  rewrite Hfail in Ht; [discriminate|].
  split; [destruct ws; simpl; [congruence|lia]|now apply ws_run_app_ge].
Qed.

Lemma scanHeaders_bearer_find hs settings :
  tokenType settings = bearer ->
  scanHeaders hs settings =
    match find is_bearer_header hs with
    | Some h => matchBearer (header_value h)
    | None => None
    end.
Proof.
  intros Ht. induction hs as [|h hs IH]; simpl; [reflexivity|].
  rewrite Ht. unfold is_bearer_header at 1.
  destruct (str_eqb (toLowerCase (header_name h)) (js "authorization")); simpl;
    [|exact IH].
  destruct (matchBearer (header_value h)) eqn:E; simpl; [|exact IH].
  now rewrite E.
Qed.

(** C5, as stated, fails on the token: the capture keeps the whitespace
    that ends the header value, so the token of
    [Authorization: Bearer abc123xyz789  ] is not the trimmed remainder. *)
Lemma C5_trailing_whitespace_kept :
  let value := js "Bearer abc123xyz789  " in
  let hs := Some [{| header_name := js "Authorization"; header_value := value |}] in
  extractTokenFromHeaders hs DEFAULT_SETTINGS = Some (js "abc123xyz789  ") /\
  trimmed_remainder value = js "abc123xyz789" /\
  extractTokenFromHeaders hs DEFAULT_SETTINGS <> Some (trimmed_remainder value).
Proof. repeat split; try reflexivity. discriminate. Qed.

(** C5, amended.  Under the bearer type with the headers source:
    - the matcher returns the capture of the first header, in list order,
      whose lower-cased name is 'authorization' and whose value matches,
      and [null] when there is none;
    - a value matches exactly when it is a prefix equal to 'bearer' up to
      case, then at least one whitespace unit, then at least one unit with
      no line terminator up to the end of the value;
    - the capture is what follows the prefix with its leading whitespace
      removed and its trailing whitespace kept; when nothing but whitespace
      follows the prefix, it is one whitespace unit;
    - a request of the active tab hands that capture to [addToken] with the
      request URL as source. *)
Theorem C5_bearer_matcher :
  forall st : State,
    tokenType (getSettings st) = bearer ->
    tokenSource (getSettings st) = headers ->
    (forall hs,
        extractTokenFromHeaders (Some hs) (getSettings st) =
          match find is_bearer_header hs with
          | Some h => matchBearer (header_value h)
          | None => None
          end) /\
    (forall value,
        matchBearer value <> None <->
        exists prefix ws t,
          value = prefix ++ ws ++ t /\
          toLowerCase prefix = js "bearer" /\
          ws <> [] /\ forallb isWhiteSpace ws = true /\
          t <> [] /\ forallb (fun c => negb (isLineTerminator c)) t = true) /\
    (forall value token,
        matchBearer value = Some token ->
        exists prefix ws,
          value = prefix ++ ws ++ token /\
          toLowerCase prefix = js "bearer" /\
          ws <> [] /\ forallb isWhiteSpace ws = true /\
          token <> [] /\
          (token = trimStart (ws ++ token) \/
           (trimStart (ws ++ token) = [] /\ strlen token = 1%nat))) /\
    (forall details now token,
        activeTabId st = Some (tabId details) ->
        extractTokenFromHeaders (requestHeaders details) (getSettings st) =
          Some token ->
        handleWebRequest details now st =
          addToken token (request_url details) (maxTokens (getSettings st)) now st).
Proof.
  intros st Ht Hsrc. split; [|split; [|split]].
  - intros hs. now apply scanHeaders_bearer_find.
  - intros value. split.
    + destruct (matchBearer value) as [g|] eqn:E; [intros _|congruence].
      apply matchBearer_parts in E as [prefix [ws (Hv & Hp & Hws & Hall & Hd & _)]].
      apply toLowerCase_bearer in Hp.
      exists prefix, ws, g. unfold dot_plus_to_end in Hd.
      apply andb_true_iff in Hd as [Hne Hlt]. apply truthy_nonempty in Hne.
      repeat split; assumption.
    + intros [prefix [ws [t (-> & Hp & Hws & Hall & Hne & Hlt)]]].
      apply toLowerCase_bearer in Hp.
      apply matchBearer_complete; try assumption.
      unfold dot_plus_to_end. apply truthy_nonempty in Hne. now rewrite Hne, Hlt.
  - intros value token E.
    apply matchBearer_parts in E as [prefix [ws (Hv & Hp & Hws & Hall & Hd & Htok)]].
    apply toLowerCase_bearer in Hp.
    exists prefix, ws. unfold dot_plus_to_end in Hd.
    apply andb_true_iff in Hd as [Hne _]. apply truthy_nonempty in Hne.
    repeat split; assumption.
  - intros details now token Hact Hex. unfold handleWebRequest.
    rewrite Hact, Z.eqb_refl, Hsrc, Hex. simpl.
    assert (Hne : truthy token = true).
    { destruct (requestHeaders details) as [hs|]; [|discriminate].
      simpl in Hex. rewrite scanHeaders_bearer_find in Hex by assumption.
      destruct (find is_bearer_header hs) as [h|]; [|discriminate].
      apply matchBearer_some in Hex as [rest [j (_ & _ & _ & Hd)]].
      unfold dot_plus_to_end in Hd. now apply andb_true_iff in Hd as [Hd _]. }
    now rewrite Hne.
Qed.

(* ====================================================================== *)
(** ** The scenarios of the design document, run on the model *)
(* ====================================================================== *)

Example matchBearer_plain :
  matchBearer (js "Bearer abc123xyz789") = Some (js "abc123xyz789").
Proof. reflexivity. Qed.

Example matchBearer_any_case :
  matchBearer (js "bEARER   tok") = Some (js "tok").
Proof. reflexivity. Qed.

Example matchBearer_needs_space : matchBearer (js "Bearerabc") = None.
Proof. reflexivity. Qed.

Example matchBearer_only_spaces : matchBearer (js "Bearer   ") = Some (js " ").
Proof. reflexivity. Qed.

Example matchBearer_line_break : matchBearer (js "Bearer a" ++ [10%N] ++ js "b") = None.
Proof. reflexivity. Qed.

Example scenario1 :
  tokenList
    (detectedTokens
       (run [TabActivated 1;
             WebRequest (bearer_request 1 "https://a.example/me" "abc123xyz789") 1000]
            (workerStart None None))) =
  [{| item_token := js "abc123xyz789";
      item_url := js "https://a.example/me";
      item_timestamp := 1000 |}].
Proof. reflexivity. Qed.

Example scenario2 :
  let st := run (firstn 2 scenario2_events) (workerStart None None) in
  fst (handleWebRequest
         (bearer_request 1 "https://a.example/second" "abc123xyz789") 1002 st) =
    DuplicateIgnored /\
  tokenList (detectedTokens (run scenario2_events (workerStart None None))) =
    [{| item_token := js "abc123xyz789";
        item_url := js "https://a.example/first";
        item_timestamp := 1001 |}].
Proof. split; reflexivity. Qed.

Example scenario3 :
  let st := run (firstn 4 scenario3_events) (workerStart None None) in
  fst (handleWebRequest
         (bearer_request 1 "https://a.example/3" "token-three-33") 1003 st) =
    CapacityReached /\
  map_keys (detectedTokens (run scenario3_events (workerStart None None))) =
    [js "token-one-1111"; js "token-two-2222"].
Proof. split; reflexivity. Qed.

Example scenario4 :
  let st := run (firstn 4 scenario3_events) (workerStart None None) in
  map_size (detectedTokens st) = 2%Z /\
  detectedTokens (step (TabActivated 9) st) = [].
Proof. split; reflexivity. Qed.

Example maskToken_12 :
  maskToken (js "abcdefghijkl") =
    js "abcd" ++ repeat_str mask_unit 4 ++ js "ijkl".
Proof. reflexivity. Qed.

Example maskToken_40 :
  maskToken (js "abcdefghijklmnopqrstuvwxyz0123456789ABCD") =
    js "abcd" ++ repeat_str mask_unit 20 ++ js "ABCD".
Proof. reflexivity. Qed.

Example maskToken_11 : maskToken (js "abcdefghijk") = mask_short.
Proof. reflexivity. Qed.

(* ====================================================================== *)
(** ** The theorems at concrete inputs *)
(* ====================================================================== *)

Lemma C2_scenario2 :
  distinct_tokens (worker (idle (workerStart None None))) /\
  (occurrences (js "abc123xyz789")
     (detectedTokens
        (worker (exec (serial 4 scenario2_events) (idle (workerStart None None)))))
   <= 1)%nat.
Proof.
  assert (H0 : distinct_tokens (worker (idle (workerStart None None))))
    by constructor.
  split; [exact H0|].
  exact (proj1 (C2_dedup_first_source (idle (workerStart None None)) H0)
               (serial 4 scenario2_events) (js "abc123xyz789")).
Defined.

Lemma C5_default_settings :
  tokenType (getSettings (workerStart None None)) = bearer /\
  tokenSource (getSettings (workerStart None None)) = headers /\
  forall hs,
    extractTokenFromHeaders (Some hs) (getSettings (workerStart None None)) =
      match find is_bearer_header hs with
      | Some h => matchBearer (header_value h)
      | None => None
      end.
Proof.
  split; [reflexivity|]. split; [reflexivity|].
  exact (proj1 (C5_bearer_matcher (workerStart None None) eq_refl eq_refl)).
Defined.

Lemma C8_scenario3 :
  tokens_nonempty (workerStart None None) /\
  tokens_nonempty (run scenario3_events (workerStart None None)).
Proof.
  assert (H0 : tokens_nonempty (workerStart None None)) by constructor.
  split; [exact H0|].
  exact (proj1 (C8_tokens_nonempty scenario3_events (workerStart None None) H0)).
Defined.

Lemma C10_custom_unnamed :
  tokenType (getSettings (workerStart (Some custom_unnamed) None)) = custom /\
  customHeaderName (getSettings (workerStart (Some custom_unnamed) None)) = [] /\
  forall hs,
    extractTokenFromHeaders hs (getSettings (workerStart (Some custom_unnamed) None)) =
      None.
Proof.
  split; [reflexivity|]. split; [reflexivity|].
  exact (proj1 (C10_custom_without_name
                  (workerStart (Some custom_unnamed) None) eq_refl eq_refl)).
Defined.

(* ====================================================================== *)
(** ** Further properties: the worker's state *)
(* ====================================================================== *)

Lemma synced_persist st : mirror_synced (persistTokens st).
Proof. left. reflexivity. Qed.

Lemma addToken_synced token u k now st :
  snd (addToken token u k now st) = st \/
  mirror_synced (snd (addToken token u k now st)).
Proof.
  destruct (addToken_spec token u k now st); simpl; auto.
  right. apply synced_persist.
Qed.

Lemma addToken_keeps_synced token u k now st :
  mirror_synced st -> mirror_synced (snd (addToken token u k now st)).
Proof. intros H. destruct (addToken_synced token u k now st) as [->|]; auto. Qed.

Lemma addTokens_keeps_synced cs k clock st :
  mirror_synced st -> mirror_synced (addTokens cs k clock st).
Proof.
  revert clock st. induction cs as [|c cs IH]; intros clock st H; simpl; [assumption|].
  apply IH. now apply addToken_keeps_synced.
Qed.

Lemma addTokens_synced cs k clock st :
  addTokens cs k clock st = st \/ mirror_synced (addTokens cs k clock st).
Proof.
  revert clock st. induction cs as [|c cs IH]; intros clock st; simpl; [now left|].
  destruct (addToken_synced (cand_token c) (cand_url c) k (clock O) st) as [->|H].
  - apply IH.
  - right. now apply addTokens_keeps_synced.
Qed.

Lemma step_synced e st : step e st = st \/ mirror_synced (step e st).
Proof.
  destruct e as [details now|activated|updated loading|query|message|remaining];
    simpl.
  - rewrite handleWebRequest_candidate.
    destruct (request_candidate details st) as [c|]; [|now left].
    apply addToken_synced.
  - right. apply synced_persist.
  - unfold onUpdated. destruct (activeTabId st) as [active|]; [|now left].
    destruct (Z.eqb updated active && loading); [|now left].
    right. apply synced_persist.
  - unfold updateActiveTab. destruct query as [id|]; [|now left].
    match goal with |- context [if ?b then _ else _] => destruct b end;
      [|now left].
    right. apply synced_persist.
  - destruct message as [|env clock| | |s| |]; simpl; try (now left).
    + apply addTokens_synced.
    + right. apply synced_persist.
    + right. apply synced_persist.
  - unfold onWindowRemoved. destruct remaining; [|now left].
    destruct (autoCleanup (getSettings st)); [|now left].
    right. right. split; reflexivity.
Qed.

Lemma step_keeps_synced e st : mirror_synced st -> mirror_synced (step e st).
Proof. intros H. destruct (step_synced e st) as [->|]; auto. Qed.

Lemma run_keeps_synced es st : mirror_synced st -> mirror_synced (run es st).
Proof.
  revert st. induction es as [|e es IH]; intros st H; simpl; [assumption|].
  apply IH. now apply step_keeps_synced.
Qed.

(** X1.  After any sequence of events the worker's state is as before or
    the session mirror agrees with the map of detected tokens: the mirror
    holds the map's entries in the map's order, or the mirror is absent and
    the map is empty.  In the second case the answer to [GET_TOKENS] is the
    mirror's list. *)
Theorem X1_mirror_follows_map :
  forall (es : list Event) (st : State),
    run es st = st \/
    (mirror_synced (run es st) /\
     forall mirror,
       session_tokens (run es st) = Some mirror ->
       fst (onMessage GET_TOKENS (run es st)) = RespTokens mirror).
Proof.
  intros es st.
  assert (H : run es st = st \/ mirror_synced (run es st)).
  { revert st. induction es as [|e es IH]; intros st; simpl; [now left|].
    destruct (step_synced e st) as [->|Hs]; [apply IH|].
    right. now apply run_keeps_synced. }
  destruct H as [H|H]; [now left|]. right. split; [assumption|].
  intros mirror Hm. simpl. destruct H as [H|[H _]]; congruence.
Qed.

Lemma addTokens_activeTabId cs k clock st :
  activeTabId (addTokens cs k clock st) = activeTabId st.
Proof.
  revert clock st. induction cs as [|c cs IH]; intros clock st; simpl; [reflexivity|].
  rewrite IH. apply addToken_activeTabId.
Qed.

Lemma step_frame e st :
  match e with
  | RuntimeMessage (SAVE_SETTINGS s) => local_settings (step e st) = Some s
  | _ => local_settings (step e st) = local_settings st
  end /\
  match e with
  | TabActivated id => activeTabId (step e st) = Some id
  | ActiveTabQueried (Some id) => activeTabId (step e st) = Some id
  | _ => activeTabId (step e st) = activeTabId st
  end.
Proof.
  destruct e as [details now|activated|updated loading|query|message|remaining];
    simpl.
  - rewrite handleWebRequest_candidate.
    destruct (request_candidate details st) as [c|]; [|now split].
    split; [apply addToken_settings|apply addToken_activeTabId].
  - now split.
  - unfold onUpdated. destruct (activeTabId st) as [active|] eqn:E;
      [|now split].
    destruct (Z.eqb updated active && loading); simpl; now split.
  - unfold updateActiveTab. destruct query as [id|]; [|now split].
    destruct (activeTabId st) as [active|] eqn:E; [|now split].
    destruct (Z.eqb id active) eqn:Eid; simpl; [|now split].
    apply Z.eqb_eq in Eid. subst. now split.
  - destruct message as [|env clock| | |s| |]; simpl; try (now split).
    split; [apply addTokens_settings|apply addTokens_activeTabId].
  - unfold onWindowRemoved. destruct remaining; [|now split].
    destruct (autoCleanup (getSettings st)); now split.
Qed.

(** X2.  Only a settings save changes the stored settings, and only a tab
    activation or a tab query that returns a tab changes the stored active
    tab: every other event leaves them as they are.  Hence a sequence of
    events without a settings save leaves the settings in force unchanged,
    whatever it clears. *)
Theorem X2_settings_and_tab_frame :
  forall (e : Event) (st : State),
    (~ is_save e -> local_settings (step e st) = local_settings st) /\
    (forall s, e = RuntimeMessage (SAVE_SETTINGS s) ->
               getSettings (step e st) = s) /\
    ((forall id, e <> TabActivated id) ->
     (forall id, e <> ActiveTabQueried (Some id)) ->
     activeTabId (step e st) = activeTabId st) /\
    (forall es, Forall (fun e' => ~ is_save e') es ->
                getSettings (run es st) = getSettings st).
Proof.
  intros e st. split; [|split; [|split]].
  - intros Hns. pose proof (proj1 (step_frame e st)) as H.
    destruct e as [| | | |[| | | |s| |]|]; try exact H.
    exfalso. apply Hns. exact I.
  - intros s ->. reflexivity.
  - intros Ha Hq. pose proof (proj2 (step_frame e st)) as H.
    destruct e as [|id| |[id|]| |]; try exact H.
    + now destruct (Ha id).
    + now destruct (Hq id).
  - intros es Hes. revert st. induction Hes as [|e' es He' Hes IH]; intros st;
      simpl; [reflexivity|].
    rewrite IH. apply getSettings_local.
    pose proof (proj1 (step_frame e' st)) as H.
    destruct e' as [| | | |[| | | |s| |]|]; try exact H.
    exfalso. apply He'. exact I.
Qed.

(** X3.  The two sources of tokens exclude each other.  A web request of a
    tab other than the stored active tab, or made while the source is not
    'headers', leaves the state as it is.  A scan made while the source is
    'headers' finds nothing and answers the current list.  A scan under the
    'storage' source does not depend on the cookie jar or the tab URL, and a
    scan under the 'cookies' source does not depend on the page's storage
    and finds nothing when the tab query gives no URL or an empty one. *)
Theorem X3_source_gating :
  forall st : State,
    (forall details now,
        activeTabId st <> Some (tabId details) \/
        tokenSource (getSettings st) <> headers ->
        handleWebRequest details now st = (NoMatch, st)) /\
    (forall env clock,
        tokenSource (getSettings st) = headers ->
        onMessage (SCAN_STORAGE env clock) st =
          (RespTokens (tokenList (detectedTokens st)), st)) /\
    (forall env env',
        tokenSource (getSettings st) = storage ->
        page_storage env = page_storage env' ->
        foundTokens env (getSettings st) = foundTokens env' (getSettings st)) /\
    (forall env env',
        tokenSource (getSettings st) = cookies ->
        tab_url env = tab_url env' -> cookie_jar env = cookie_jar env' ->
        foundTokens env (getSettings st) = foundTokens env' (getSettings st)) /\
    (forall env,
        tokenSource (getSettings st) = cookies ->
        tab_url env = None \/ tab_url env = Some [] ->
        foundTokens env (getSettings st) = []).
Proof.
  intros st. split; [|split; [|split; [|split]]].
  - intros details now H. unfold handleWebRequest.
    destruct (activeTabId st) as [active|] eqn:Ea; [|reflexivity].
    destruct (Z.eqb (tabId details) active) eqn:Et; [|reflexivity].
    apply Z.eqb_eq in Et. simpl.
    destruct H as [H|H]; [congruence|].
    destruct (tokenSource (getSettings st)); [congruence|reflexivity|reflexivity].
  - intros env now H. simpl. unfold foundTokens. now rewrite H.
  - intros env env' H Hp. unfold foundTokens. now rewrite H, Hp.
  - intros env env' H Hu Hj. unfold foundTokens. now rewrite H, Hu, Hj.
  - intros env H [Hu|Hu]; unfold foundTokens; now rewrite H, Hu.
Qed.

(** X4.  Every reset is idempotent and resets absorb one another: handling
    a tab activation, a clear command or a settings save twice leaves the
    state the first handling left; so do a second 'loading' update, a
    second last-window close and a second tab query with the same answer.
    After any resetting event, whatever came before, the map is empty and
    the mirror holds the empty list. *)
Theorem X4_resets_idempotent :
  forall st : State,
    (forall e, is_reset e -> step e (step e st) = step e st) /\
    (forall e, is_reset e ->
               detectedTokens (step e st) = [] /\
               session_tokens (step e st) = Some []) /\
    (forall id loading,
        onUpdated id loading (onUpdated id loading st) = onUpdated id loading st) /\
    (forall remaining,
        onWindowRemoved remaining (onWindowRemoved remaining st) =
          onWindowRemoved remaining st) /\
    (forall query,
        updateActiveTab query (updateActiveTab query st) = updateActiveTab query st).
Proof.
  intros st. split; [|split; [|split; [|split]]].
  - intros e He. destruct e as [| | | |[| | | |s| |]|]; try contradiction;
      reflexivity.
  - intros e He. destruct e as [| | | |[| | | |s| |]|]; try contradiction;
      split; reflexivity.
  - intros id loading. unfold onUpdated.
    destruct (activeTabId st) as [active|] eqn:Ea; [|now rewrite Ea].
    destruct (Z.eqb id active && loading) eqn:E; simpl; rewrite Ea, E; reflexivity.
  - intros remaining. unfold onWindowRemoved. destruct remaining; [|reflexivity].
    destruct (autoCleanup (getSettings st)) eqn:E; [|now rewrite E].
    change (getSettings (with_session_tokens None (clearTokens st)))
      with (getSettings st). now rewrite E.
  - intros [id|]; [|reflexivity]. unfold updateActiveTab.
    destruct (activeTabId st) as [active|] eqn:Ea.
    + destruct (Z.eqb id active) eqn:E; simpl.
      * now rewrite Ea, E.
      * now rewrite Z.eqb_refl.
    + simpl. now rewrite Z.eqb_refl.
Qed.

(* ====================================================================== *)
(** ** Further properties: the session and custom header matchers *)
(* ====================================================================== *)

Lemma scanHeaders_session_find hs settings :
  tokenType settings = session ->
  scanHeaders hs settings = option_map header_value (find is_session_header hs).
Proof.
  intros Ht. induction hs as [|h hs IH]; simpl; [reflexivity|].
  rewrite Ht. unfold is_session_header at 1. cbv zeta.
  match goal with |- context [if ?b then Some _ else _] => destruct b end;
    [reflexivity|exact IH].
Qed.

Lemma scanHeaders_custom_find hs settings :
  tokenType settings = custom ->
  customHeaderName settings <> [] ->
  scanHeaders hs settings =
    option_map header_value
      (find (is_named_header (customHeaderName settings)) hs).
Proof.
  intros Ht Hn. apply truthy_nonempty in Hn.
  induction hs as [|h hs IH]; simpl; [reflexivity|].
  rewrite Ht, Hn. unfold is_named_header at 1. simpl.
  match goal with |- context [if ?b then Some _ else _] => destruct b end;
    [reflexivity|exact IH].
Qed.

(** X5.  Under the session type the matcher returns, verbatim, the value
    of the first header whose lower-cased name is 'x-session-token',
    'session-token' or 'x-session-id', and [null] when no header is so
    named.  That first header decides alone: when its value is the empty
    string the request is dropped, whatever the later headers carry.
    Lower-casing is [toLowerCase]: a header named 'X-SESSION-TO' U+212A
    'EN' is matched. *)
Theorem X5_session_matcher :
  forall st : State,
    tokenType (getSettings st) = session ->
    (forall hs,
        extractTokenFromHeaders (Some hs) (getSettings st) =
          option_map header_value (find is_session_header hs)) /\
    (forall details now hs h,
        requestHeaders details = Some hs ->
        find is_session_header hs = Some h ->
        header_value h = [] ->
        handleWebRequest details now st = (NoMatch, st)) /\
    (forall details now hs h,
        activeTabId st = Some (tabId details) ->
        tokenSource (getSettings st) = headers ->
        requestHeaders details = Some hs ->
        find is_session_header hs = Some h ->
        header_value h <> [] ->
        handleWebRequest details now st =
          addToken (header_value h) (request_url details)
                   (maxTokens (getSettings st)) now st) /\
    (forall value,
        extractTokenFromHeaders
          (Some [{| header_name := kelvin_header; header_value := value |}])
          (getSettings st) = Some value).
Proof.
  intros st Ht. split; [|split; [|split]].
  - intros hs. now apply scanHeaders_session_find.
  - intros details now hs h Hh Hf Hv. apply handleWebRequest_empty_token.
    rewrite Hh. simpl. rewrite scanHeaders_session_find by assumption.
    now rewrite Hf, <- Hv.
  - intros details now hs h Ha Hs Hh Hf Hv. unfold handleWebRequest.
    rewrite Ha, Z.eqb_refl, Hs, Hh. simpl.
    rewrite scanHeaders_session_find by assumption. rewrite Hf. simpl.
    apply truthy_nonempty in Hv. now rewrite Hv.
  - intros value. cbn [extractTokenFromHeaders].
    rewrite scanHeaders_session_find by assumption.
    cbn [find]. unfold is_session_header. cbn [header_name].
    change (toLowerCase kelvin_header) with (js "x-session-token").
    reflexivity.
Qed.

Lemma X5_session_example :
  tokenType (getSettings (workerStart (Some session_settings) None)) = session /\
  forall hs,
    extractTokenFromHeaders (Some hs)
      (getSettings (workerStart (Some session_settings) None)) =
    option_map header_value (find is_session_header hs).
Proof.
  split; [reflexivity|].
  exact (proj1 (X5_session_matcher
                  (workerStart (Some session_settings) None) eq_refl)).
Defined.

(** X6.  Under the custom type with a non-empty configured name the
    matcher returns, verbatim, the value of the first header whose
    lower-cased name equals the lower-cased configured name, and [null]
    when there is none.  Only the configured name up to case matters: two
    settings of the custom type whose names agree after lower-casing match
    every header list alike.  Lower-casing is [toLowerCase]: the configured
    name 'CL' U+00C9 '-API' matches a header named 'cl' U+00E9 '-api'. *)
Theorem X6_custom_matcher :
  forall st : State,
    tokenType (getSettings st) = custom ->
    customHeaderName (getSettings st) <> [] ->
    (forall hs,
        extractTokenFromHeaders (Some hs) (getSettings st) =
          option_map header_value
            (find (is_named_header (customHeaderName (getSettings st))) hs)) /\
    (forall settings' hs,
        tokenType settings' = custom ->
        toLowerCase (customHeaderName settings') =
          toLowerCase (customHeaderName (getSettings st)) ->
        extractTokenFromHeaders hs settings' =
          extractTokenFromHeaders hs (getSettings st)) /\
    (forall value source,
        extractTokenFromHeaders
          (Some [{| header_name := cle_api_lower; header_value := value |}])
          (custom_named cle_api_upper source) = Some value).
Proof.
  intros st Ht Hn. split; [|split].
  - intros hs. now apply scanHeaders_custom_find.
  - intros settings' [hs|] Ht' Hl; [|reflexivity]. simpl.
    assert (Hn' : customHeaderName settings' <> []).
    { apply truthy_nonempty. rewrite <- toLowerCase_truthy, Hl, toLowerCase_truthy.
      now apply truthy_nonempty. }
    rewrite !scanHeaders_custom_find by assumption.
    unfold is_named_header. now rewrite Hl.
  - intros value source. cbn [extractTokenFromHeaders].
    rewrite scanHeaders_custom_find by (reflexivity || discriminate).
    cbn [find]. unfold is_named_header. cbn [header_name customHeaderName custom_named].
    change (toLowerCase cle_api_lower) with cle_api_lower.
    change (toLowerCase cle_api_upper) with cle_api_lower.
    reflexivity.
Qed.

Lemma X6_custom_example :
  tokenType (getSettings (workerStart (Some (custom_settings "X-Api-Key")) None)) =
    custom /\
  customHeaderName
    (getSettings (workerStart (Some (custom_settings "X-Api-Key")) None)) <> [] /\
  forall hs,
    extractTokenFromHeaders hs (custom_settings "x-api-KEY") =
    extractTokenFromHeaders hs
      (getSettings (workerStart (Some (custom_settings "X-Api-Key")) None)).
Proof.
  assert (Hn : customHeaderName
                 (getSettings (workerStart (Some (custom_settings "X-Api-Key")) None))
               <> []) by discriminate.
  split; [reflexivity|]. split; [exact Hn|].
  intros hs.
  exact (proj1 (proj2 (X6_custom_matcher
                         (workerStart (Some (custom_settings "X-Api-Key")) None)
                         eq_refl Hn))
               (custom_settings "x-api-KEY") hs eq_refl eq_refl).
Defined.

(* ====================================================================== *)
(** ** Further properties: the cookie scan *)
(* ====================================================================== *)

Lemma In_scanCookies pats jar c :
  In c (scanCookies pats jar) <->
  exists cookie,
    In cookie jar /\
    key_matches pats (cookie_name cookie) = true /\
    plausible (cookie_value cookie) = true /\
    c = cookie_candidate cookie.
Proof.
  induction jar as [|k rest IH]; simpl.
  - split; [contradiction|]. intros [? [[] _]].
  - destruct (key_matches pats (cookie_name k) && plausible (cookie_value k)) eqn:E.
    + apply andb_true_iff in E as [Ek Ev]. simpl. rewrite IH. split.
      * intros [<-|[k' (Hin & Hk & Hv & ->)]].
        -- exists k. repeat split; auto.
        -- exists k'. repeat split; auto.
      * intros [k' ([<-|Hin] & Hk & Hv & ->)]; [now left|].
        right. exists k'. repeat split; auto.
    + rewrite IH. split.
      * intros [k' (Hin & Hk & Hv & ->)]. exists k'. repeat split; auto.
      * intros [k' ([<-|Hin] & Hk & Hv & ->)].
        -- rewrite Hk, Hv in E. discriminate.
        -- exists k'. repeat split; auto.
Qed.

(** X7.  The candidates of a cookie scan are exactly the cookies whose
    name, lower-cased, contains a lower-cased keyword of the selected type
    and whose value is longer than ten units; the candidate carries the
    cookie's value as token and 'cookie:' followed by the cookie's name as
    source.  There are never more candidates than cookies, and a cookie jar
    that cannot be read gives none.  Lower-casing is [toLowerCase]: under
    the configured name 'CL' U+00C9 '-API' the cookies named with U+00C9
    and with U+00E9 both give a candidate, the one named 'cle-api' none. *)
Theorem X7_cookie_candidates :
  forall (jar : list Cookie) (settings : Settings),
    let pats := cookie_patterns (tokenType settings) (customHeaderName settings) in
    (forall c,
        In c (extractTokensFromCookies (Some jar) settings) <->
        exists cookie,
          In cookie jar /\
          (exists pattern,
              In pattern pats /\
              includes (toLowerCase (cookie_name cookie)) (toLowerCase pattern) = true) /\
          (10 < strlen (cookie_value cookie))%nat /\
          cand_token c = cookie_value cookie /\
          cand_url c = js "cookie:" ++ cookie_name cookie) /\
    (List.length (extractTokensFromCookies (Some jar) settings) <= List.length jar)%nat /\
    extractTokensFromCookies None settings = [] /\
    extractTokensFromCookies
      (Some [{| cookie_name := cle_api_upper; cookie_value := js "abcdefghijkl" |};
             {| cookie_name := cle_api_lower; cookie_value := js "mnopqrstuvwx" |};
             {| cookie_name := js "cle-api"; cookie_value := js "yzabcdefghij" |}])
      (custom_named cle_api_upper cookies) =
      [{| cand_token := js "abcdefghijkl"; cand_url := js "cookie:" ++ cle_api_upper |};
       {| cand_token := js "mnopqrstuvwx"; cand_url := js "cookie:" ++ cle_api_lower |}].
Proof.
  intros jar settings pats. split; [|split; [|split]].
  - intros c. unfold extractTokensFromCookies. fold pats.
    rewrite In_scanCookies. split.
    + intros [k (Hin & Hk & Hv & ->)]. exists k.
      apply key_matches_iff in Hk. apply plausible_iff in Hv.
      repeat split; assumption.
    + intros [k (Hin & Hk & Hv & Ht & Hu)]. exists k.
      apply key_matches_iff in Hk. apply plausible_iff in Hv.
      repeat split; try assumption.
      destruct c as [tok u]. simpl in Ht, Hu. now subst.
  - apply scanCookies_length.
  - reflexivity.
  - vm_compute. reflexivity.
Qed.

(* ====================================================================== *)
(** ** Further properties: the keyword sets *)
(* ====================================================================== *)

Lemma startsWith_iff s p : startsWith s p = true <-> exists b, s = p ++ b.
Proof.
  revert s. induction p as [|y p IH]; intros s; simpl.
  - split; [intros _; now exists s|intros _; destruct s; reflexivity].
  - destruct s as [|x s]; simpl.
    + split; [discriminate|]. intros [b H]. discriminate.
    + rewrite andb_true_iff, N.eqb_eq, IH. split.
      * intros [-> [b ->]]. now exists b.
      * intros [b [= -> ->]]. split; [reflexivity|now exists b].
Qed.

Lemma includes_iff s p : includes s p = true <-> exists a b, s = a ++ p ++ b.
Proof.
  induction s as [|x s IH].
  - cbn [includes]. rewrite orb_false_r, startsWith_iff. split.
    + intros [b H]. now exists [], b.
    + intros [[|? a] [b H]]; [now exists b|discriminate].
  - cbn [includes]. rewrite orb_true_iff, startsWith_iff, IH. split.
    + intros [[b H]|[a [b H]]].
      * now exists [], b.
      * exists (x :: a), b. simpl. now rewrite H.
    + intros [[|y a] [b H]].
      * left. now exists b.
      * right. simpl in H. injection H as _ H. now exists a, b.
Qed.

Lemma includes_trans s p q :
  includes s p = true -> includes p q = true -> includes s q = true.
Proof.
  rewrite !includes_iff. intros [a [b ->]] [a' [b' ->]].
  exists (a ++ a'), (b' ++ b). now rewrite <- !app_assoc.
Qed.

Lemma bool_eq_iff (a b : bool) : (a = true <-> b = true) -> a = b.
Proof.
  destruct a, b; intros [H1 H2]; try reflexivity.
  - symmetry. now apply H1.
  - now apply H2.
Qed.

(** The lowercase form of a literal of the tables, by evaluation. *)
Ltac lower_literals :=
  repeat match goal with
         | |- context [toLowerCase (js ?w)] =>
             let v := eval vm_compute in (toLowerCase (js w)) in
             change (toLowerCase (js w)) with v
         end.

(** Each pattern of [pats] contains one of the [short] keywords, and each
    of those is a pattern: matching [pats] is matching [short]. *)
Lemma key_matches_collapse pats short key :
  Forall (fun p => existsb (fun q => includes (toLowerCase p) (toLowerCase q)) short = true)
         pats ->
  incl short pats ->
  key_matches pats key = key_matches short key.
Proof.
  intros Hall Hincl. apply bool_eq_iff. rewrite !key_matches_iff. split.
  - intros [p [Hp Hk]]. rewrite Forall_forall in Hall.
    specialize (Hall p Hp). apply existsb_exists in Hall as [q [Hq Hpq]].
    exists q. split; [assumption|]. eapply includes_trans; eauto.
  - intros [q [Hq Hk]]. exists q. split; [now apply Hincl|assumption].
Qed.

(** X8.  The keyword tables collapse.  A storage key is matched under the
    bearer type exactly when its lower-cased form contains 'token' or
    'bearer', and under the session type exactly when it contains
    'session'; a cookie name is matched under the bearer type exactly when
    it contains 'token', 'bearer' or 'jwt', and under the session type
    exactly when it contains 'session' or 'sid'.  Under the custom type a
    key is matched exactly when a name is configured and the lower-cased
    key contains the configured name lower-cased by the table and again by
    the test.  Lower-casing is [toLowerCase]: the key 'ACCESS_TO' U+212A
    'EN' is matched under the bearer type. *)
Theorem X8_keyword_sets :
  forall (key name : jsstring),
    let k := toLowerCase key in
    key_matches (storage_patterns bearer name) key =
      includes k (js "token") || includes k (js "bearer") /\
    key_matches (storage_patterns session name) key = includes k (js "session") /\
    key_matches (cookie_patterns bearer name) key =
      includes k (js "token") || includes k (js "bearer") || includes k (js "jwt") /\
    key_matches (cookie_patterns session name) key =
      includes k (js "session") || includes k (js "sid") /\
    key_matches (storage_patterns custom name) key =
      truthy name && includes k (toLowerCase (toLowerCase name)) /\
    key_matches (cookie_patterns custom name) key =
      truthy name && includes k (toLowerCase (toLowerCase name)) /\
    key_matches (storage_patterns bearer name) (js "ACCESS_TO" ++ [8490%N] ++ js "EN") =
      true.
Proof.
  intros key name k. subst k.
  split; [|split; [|split; [|split; [|split; [|split]]]]].
  - rewrite (key_matches_collapse (storage_patterns bearer name)
               [js "token"; js "bearer"] key).
    + unfold key_matches. cbn [existsb]. lower_literals.
      now rewrite orb_false_r.
    + repeat (apply Forall_cons; [vm_compute; reflexivity|]). apply Forall_nil.
    + intros q [<-|[<-|[]]]; simpl; tauto.
  - rewrite (key_matches_collapse (storage_patterns session name)
               [js "session"] key).
    + unfold key_matches. cbn [existsb]. lower_literals.
      now rewrite orb_false_r.
    + repeat (apply Forall_cons; [vm_compute; reflexivity|]). apply Forall_nil.
    + intros q [<-|[]]; simpl; tauto.
  - rewrite (key_matches_collapse (cookie_patterns bearer name)
               [js "token"; js "bearer"; js "jwt"] key).
    + unfold key_matches. cbn [existsb]. lower_literals.
      now rewrite orb_false_r, orb_assoc.
    + repeat (apply Forall_cons; [vm_compute; reflexivity|]). apply Forall_nil.
    + intros q [<-|[<-|[<-|[]]]]; simpl; tauto.
  - rewrite (key_matches_collapse (cookie_patterns session name)
               [js "session"; js "sid"] key).
    + unfold key_matches. cbn [existsb]. lower_literals.
      now rewrite orb_false_r.
    + repeat (apply Forall_cons; [vm_compute; reflexivity|]). apply Forall_nil.
    + intros q [<-|[<-|[]]]; simpl; tauto.
  - unfold key_matches, storage_patterns. destruct (truthy name);
      cbn [existsb andb]; [|reflexivity].
    now rewrite orb_false_r.
  - unfold key_matches, cookie_patterns. destruct (truthy name);
      cbn [existsb andb]; [|reflexivity].
    now rewrite orb_false_r.
  - vm_compute. reflexivity.
Qed.

(* ====================================================================== *)
(** ** Further properties: the scan loop *)
(* ====================================================================== *)

Lemma map_has_existsb t m :
  map_has t m = existsb (fun t' => str_eqb t' t) (map_keys m).
Proof.
  unfold map_has, map_keys. induction m as [|e m IH]; simpl; [reflexivity|].
  now rewrite IH.
Qed.

Lemma addTokens_entries cs k clock st :
  detectedTokens (addTokens cs k clock st) =
    detectedTokens st ++
    map entry_of
        (firstn (Z.to_nat (k - map_size (detectedTokens st)))
                (fresh_candidates (map_keys (detectedTokens st)) (stamped clock cs))).
Proof.
  revert clock st. induction cs as [|c cs IH]; intros clock st.
  - simpl. rewrite firstn_nil. simpl. now rewrite app_nil_r.
  - cbn [addTokens fresh_candidates stamped snd].
    destruct (addToken_spec (cand_token c) (cand_url c) k (clock O) st)
      as [Hhas|Hfresh Hk|Hfresh Hk].
    + rewrite IH. rewrite map_has_existsb in Hhas. now rewrite Hhas.
    + rewrite addTokens_at_capacity by assumption.
      replace (Z.to_nat (k - map_size (detectedTokens st))) with O by lia.
      simpl. now rewrite app_nil_r.
    + rewrite IH. cbn [detectedTokens persistTokens with_session_tokens with_tokens].
      rewrite map_has_existsb in Hfresh. rewrite Hfresh.
      rewrite map_size_app, map_keys_app. unfold map_size at 2. simpl List.length.
      replace (Z.to_nat (k - map_size (detectedTokens st)))
        with (S (Z.to_nat (k - (map_size (detectedTokens st) + Z.of_nat 1)))) by lia.
      cbn [firstn map]. rewrite <- app_assoc. reflexivity.
Qed.

Lemma In_firstn (A : Type) (n : nat) (l : list A) (x : A) :
  In x (firstn n l) -> In x l.
Proof.
  intros H. rewrite <- (firstn_skipn n l). apply in_or_app. now left.
Qed.

Lemma fresh_candidates_subset seen cs c :
  In c (fresh_candidates seen cs) -> In c cs.
Proof.
  revert seen. induction cs as [|c' cs IH]; intros seen; simpl; [auto|].
  destruct (existsb _ seen).
  - intros H. right. eapply IH; eauto.
  - intros [H|H]; [now left|]. right. eapply IH; eauto.
Qed.

Lemma stamped_In clock cs c : In c (stamped clock cs) -> In (snd c) cs.
Proof.
  revert clock. induction cs as [|c' cs IH]; intros clock; simpl; [auto|].
  intros [<-|H]; [now left|]. right. eapply IH; eauto.
Qed.

Lemma stamped_candidates clock cs : map snd (stamped clock cs) = cs.
Proof.
  revert clock. induction cs as [|c cs IH]; intros clock; simpl; [reflexivity|].
  now rewrite IH.
Qed.

Lemma stamped_nth clock cs i c :
  nth_error cs i = Some c -> nth_error (stamped clock cs) i = Some (clock i, c).
Proof.
  revert clock i. induction cs as [|c' cs IH]; intros clock i; destruct i; simpl;
    try discriminate.
  - now intros [= ->].
  - intros H. now rewrite (IH (later clock) i H).
Qed.

(** X9.  A scan whose stretches run with no other handler in between
    appends, and appends the earliest candidates: when the scan is the only
    handler at work and is resumed until it ends, the map is the map before
    followed by the entries of the first candidates, in the order found,
    whose token is neither stored already nor carried by an earlier
    candidate, as many as the capacity left allows; each entry carries its
    candidate's source and the time read in its own turn of the loop.  The
    handler answers with the list of the resulting map and leaves nothing
    suspended; under the storage source the candidates of localStorage come
    before those of sessionStorage. *)
Theorem X9_scan_appends_first_fresh :
  forall (st : State) (env : ScanEnv) (clock : nat -> Z)
         (box : list Response) (n : nat),
    enough n (RuntimeMessage (SCAN_STORAGE env clock)) ->
    let settings := getSettings st in
    let room := Z.to_nat (maxTokens settings - map_size (detectedTokens st)) in
    let kept :=
      firstn room
        (fresh_candidates (map_keys (detectedTokens st))
                          (stamped clock (foundTokens env settings))) in
    let sys' :=
      exec (Arrive (RuntimeMessage (SCAN_STORAGE env clock)) :: repeat (Resume O) n)
           {| worker := st; pending := []; outbox := box |} in
    detectedTokens (worker sys') = detectedTokens st ++ map entry_of kept /\
    outbox sys' = box ++ [RespTokens (tokenList (detectedTokens (worker sys')))] /\
    pending sys' = [] /\
    (List.length kept <= room)%nat /\
    (forall c, In c kept -> In (snd c) (foundTokens env settings)) /\
    (forall cs, map snd (stamped clock cs) = cs) /\
    (forall cs i c, nth_error cs i = Some c ->
                    nth_error (stamped clock cs) i = Some (clock i, c)) /\
    (forall page,
        tokenSource settings = storage ->
        page_storage env = Some page ->
        foundTokens env settings =
          scanStore (js "localStorage")
            (storage_patterns (tokenType settings) (customHeaderName settings))
            (localStorage page) ++
          scanStore (js "sessionStorage")
            (storage_patterns (tokenType settings) (customHeaderName settings))
            (sessionStorage page)).
Proof.
  intros st env clock box n Hn settings room kept sys'.
  assert (Hsys : sys' =
                 {| worker := step (RuntimeMessage (SCAN_STORAGE env clock)) st;
                    pending := [];
                    outbox := box ++ answer (RuntimeMessage (SCAN_STORAGE env clock)) st |})
    by (apply handler_completes; exact Hn).
  rewrite Hsys. cbn [worker outbox pending step answer onMessage fst snd].
  split; [|split; [|split; [|split; [|split; [|split; [|split]]]]]].
  - apply addTokens_entries.
  - reflexivity.
  - reflexivity.
  - subst kept. rewrite length_firstn. lia.
  - intros c Hc. subst kept. apply In_firstn in Hc.
    apply fresh_candidates_subset in Hc. eapply stamped_In; eauto.
  - intros cs. apply stamped_candidates.
  - intros cs i c. apply stamped_nth.
  - intros page Hs Hp. unfold foundTokens, extractTokensFromStorage.
    subst settings. now rewrite Hs, Hp.
Qed.

Lemma X9_race_page_alone :
  enough 7 (RuntimeMessage (SCAN_STORAGE race_env race_clock)) /\
  detectedTokens
    (worker (exec (Arrive (RuntimeMessage (SCAN_STORAGE race_env race_clock))
                     :: repeat (Resume O) 7)
                  {| worker := worker (exec [Arrive (TabActivated 7); Resume O] race_start);
                     pending := [];
                     outbox := [] |})) = race_entries.
Proof.
  assert (Hn : enough 7 (RuntimeMessage (SCAN_STORAGE race_env race_clock)))
    by (unfold enough; simpl; lia).
  split; [exact Hn|].
  exact (proj1 (X9_scan_appends_first_fresh
                  (worker (exec [Arrive (TabActivated 7); Resume O] race_start))
                  race_env race_clock [] 7 Hn)).
Defined.

Lemma addTokens_extends cs k clock st :
  exists added,
    detectedTokens (addTokens cs k clock st) = detectedTokens st ++ added.
Proof. eexists. apply addTokens_entries. Qed.

Lemma run_ingest_extends es st :
  Forall is_ingest es ->
  exists added, detectedTokens (run es st) = detectedTokens st ++ added.
Proof.
  intros Hes. revert st. induction Hes as [|e es He Hes IH]; intros st; simpl.
  - exists []. now rewrite app_nil_r.
  - destruct (IH (step e st)) as [added2 H2].
    destruct (ingest_shape e st He) as [cs [clock Hstep]].
    destruct (addTokens_extends cs (maxTokens (getSettings st)) clock st) as [added1 H1].
    exists (added1 ++ added2). rewrite H2, Hstep, H1. now rewrite app_assoc.
Qed.

(** X10.  Requests and scans only ever append: after any sequence of them
    the map before is an initial segment of the map after, entry for entry
    and in the same order, and so is the list a [GET_TOKENS] answers.  The
    number of entries never goes down. *)
Theorem X10_ingest_only_appends :
  forall (es : list Event) (st : State),
    Forall is_ingest es ->
    exists added,
      detectedTokens (run es st) = detectedTokens st ++ added /\
      response_tokens (fst (onMessage GET_TOKENS (run es st))) =
        response_tokens (fst (onMessage GET_TOKENS st)) ++ tokenList added /\
      (map_size (detectedTokens st) <= map_size (detectedTokens (run es st)))%Z.
Proof.
  intros es st Hes. destruct (run_ingest_extends es st Hes) as [added H].
  exists added. split; [assumption|]. split.
  - simpl. rewrite H. unfold tokenList. apply map_app.
  - rewrite H, map_size_app. pose proof (map_size_nonneg added). lia.
Qed.

Lemma X10_scenario2 :
  Forall is_ingest (skipn 1 scenario2_events) /\
  exists added,
    detectedTokens (run (skipn 1 scenario2_events) (run (firstn 1 scenario2_events)
                                                        (workerStart None None))) =
    detectedTokens (run (firstn 1 scenario2_events) (workerStart None None)) ++ added.
Proof.
  assert (H : Forall is_ingest (skipn 1 scenario2_events))
    by (simpl; repeat constructor).
  split; [exact H|].
  destruct (X10_ingest_only_appends (skipn 1 scenario2_events)
              (run (firstn 1 scenario2_events) (workerStart None None)) H)
    as [added [Ha _]].
  exists added. exact Ha.
Defined.

(* ====================================================================== *)
(** ** Further properties: what the popup shows *)
(* ====================================================================== *)

Lemma firstn_min_length (A : Type) (n : nat) (l : list A) :
  firstn (Nat.min n (List.length l)) l = firstn n l.
Proof.
  destruct (Nat.le_gt_cases n (List.length l)) as [H|H].
  - now rewrite Nat.min_l.
  - rewrite Nat.min_r by lia. rewrite !firstn_all2; [reflexivity|lia|lia].
Qed.

Lemma js_slice_from_start s stop :
  (0 <= stop)%Z -> js_slice s 0 stop = firstn (Z.to_nat stop) s.
Proof.
  intros H. unfold js_slice.
  assert (E0 : (0 <? 0)%Z = false) by reflexivity.
  assert (Es : (stop <? 0)%Z = false) by (apply Z.ltb_ge; lia).
  rewrite E0, Es. cbv zeta.
  replace (Z.min 0 (Z.of_nat (strlen s))) with 0%Z by lia. simpl skipn.
  replace (Z.to_nat (Z.min stop (Z.of_nat (strlen s)) - 0))
    with (Nat.min (Z.to_nat stop) (List.length s)) by (unfold strlen; lia).
  apply firstn_min_length.
Qed.

Lemma truncateUrl_short url0 maxLength :
  (Z.of_nat (strlen url0) <= maxLength)%Z -> truncateUrl url0 maxLength = url0.
Proof. intros H. unfold truncateUrl. apply Z.leb_le in H. now rewrite H. Qed.

Lemma truncateUrl_long url0 maxLength :
  (3 <= maxLength)%Z ->
  (maxLength < Z.of_nat (strlen url0))%Z ->
  truncateUrl url0 maxLength = firstn (Z.to_nat (maxLength - 3)) url0 ++ js "...".
Proof.
  intros H3 H. unfold truncateUrl. apply Z.leb_gt in H. rewrite H.
  rewrite js_slice_from_start by lia. reflexivity.
Qed.

Lemma truncateUrl_length url0 maxLength :
  (3 <= maxLength)%Z ->
  Z.of_nat (strlen (truncateUrl url0 maxLength)) =
    Z.min (Z.of_nat (strlen url0)) maxLength.
Proof.
  intros H3. destruct (Z_le_gt_dec (Z.of_nat (strlen url0)) maxLength) as [H|H].
  - rewrite truncateUrl_short by assumption. lia.
  - rewrite truncateUrl_long by lia. unfold strlen in *.
    rewrite length_app, length_firstn. simpl List.length. lia.
Qed.

(** X11.  For a limit of at least three, [truncateUrl] returns a URL that
    fits the limit as it is, and cuts a longer one to its first
    [limit - 3] units followed by three dots; the result is never longer
    than the limit and is exactly as long as the limit when it was cut.
    With the default limit the URL line of a card never exceeds 40 units. *)
Theorem X11_truncateUrl :
  forall (url0 : jsstring) (maxLength : Z),
    (3 <= maxLength)%Z ->
    ((Z.of_nat (strlen url0) <= maxLength)%Z ->
     truncateUrl url0 maxLength = url0) /\
    ((maxLength < Z.of_nat (strlen url0))%Z ->
     truncateUrl url0 maxLength =
       firstn (Z.to_nat (maxLength - 3)) url0 ++ js "...") /\
    Z.of_nat (strlen (truncateUrl url0 maxLength)) =
      Z.min (Z.of_nat (strlen url0)) maxLength.
Proof.
  intros url0 maxLength H3. split; [|split].
  - apply truncateUrl_short.
  - now apply truncateUrl_long.
  - now apply truncateUrl_length.
Qed.

Lemma X11_default_limit :
  (3 <= truncateUrl_default)%Z /\
  Z.of_nat (strlen (truncateUrl (js "https://api.example.com/v1/accounts/42/sessions/current")
                                truncateUrl_default)) =
    Z.min (Z.of_nat (strlen (js "https://api.example.com/v1/accounts/42/sessions/current")))
          truncateUrl_default.
Proof.
  assert (H : (3 <= truncateUrl_default)%Z) by (unfold truncateUrl_default; lia).
  split; [exact H|].
  exact (proj2 (proj2 (X11_truncateUrl
                         (js "https://api.example.com/v1/accounts/42/sessions/current")
                         truncateUrl_default H))).
Defined.

Lemma maskToken_length token :
  strlen (maskToken token) =
    if (strlen token <? 12)%nat then 36%nat
    else (8 + 3 * Nat.min 20 (strlen token - 8))%nat.
Proof.
  destruct (strlen token <? 12)%nat eqn:E.
  - apply Nat.ltb_lt in E. now rewrite maskToken_short.
  - apply Nat.ltb_ge in E. rewrite maskToken_long by assumption.
    unfold strlen, slice_prefix, slice_suffix in *.
    rewrite !length_app, length_firstn, length_skipn.
    change (List.length (repeat_str mask_unit ?n)) with (strlen (repeat_str mask_unit n)).
    rewrite repeat_str_length. simpl strlen. unfold strlen. lia.
Qed.

(** X12.  The masked string is 36 units long for a token shorter than
    twelve units and [8 + 3 * min 20 (length - 8)] units otherwise, so never
    longer than 68.  From 28 units on every token is masked to 68 units;
    between 12 and 28 units the length of the masked string determines the
    length of the token. *)
Theorem X12_mask_length :
  forall token : jsstring,
    (strlen (maskToken token) <= 68)%nat /\
    ((strlen token < 12)%nat -> strlen (maskToken token) = 36%nat) /\
    ((28 <= strlen token)%nat -> strlen (maskToken token) = 68%nat) /\
    (forall other,
        (12 <= strlen token <= 28)%nat ->
        (12 <= strlen other <= 28)%nat ->
        strlen (maskToken other) = strlen (maskToken token) ->
        strlen other = strlen token).
Proof.
  intros token. pose proof (maskToken_length token) as H.
  split; [|split; [|split]].
  - destruct (strlen token <? 12)%nat; lia.
  - intros Hs. apply Nat.ltb_lt in Hs. now rewrite Hs in H.
  - intros Hs. assert (E : (strlen token <? 12)%nat = false)
      by (apply Nat.ltb_ge; lia).
    rewrite E in H. lia.
  - intros other Ht Ho Heq. rewrite H, (maskToken_length other) in Heq.
    assert (E : (strlen token <? 12)%nat = false) by (apply Nat.ltb_ge; lia).
    assert (E' : (strlen other <? 12)%nat = false) by (apply Nat.ltb_ge; lia).
    rewrite E, E' in Heq. lia.
Qed.






(* ====================================================================== *)
(** ** Further properties: the settings page *)
(* ====================================================================== *)

Lemma shownMaxTokens_clamp x : shownMaxTokens x = clampMaxTokens x.
Proof.
  unfold shownMaxTokens, clampMaxTokens.
  destruct (5 <? x)%Z eqn:E5.
  - apply Z.ltb_lt in E5. simpl. lia.
  - apply Z.ltb_ge in E5. destruct (x <? 1)%Z eqn:E1.
    + apply Z.ltb_lt in E1. lia.
    + apply Z.ltb_ge in E1. lia.
Qed.

Lemma trimStart_idem s : trimStart (trimStart s) = trimStart s.
Proof.
  induction s as [|c s IH]; simpl; [reflexivity|].
  destruct (isWhiteSpace c) eqn:E; [exact IH|]. simpl. now rewrite E.
Qed.

Lemma trimStart_snoc l c :
  isWhiteSpace c = false -> trimStart (l ++ [c]) = trimStart l ++ [c].
Proof.
  intros Hc. induction l as [|x l IH]; simpl.
  - now rewrite Hc.
  - destruct (isWhiteSpace x); [exact IH|reflexivity].
Qed.

Lemma trimEnd_cons c r :
  isWhiteSpace c = false -> trimEnd (c :: r) = c :: trimEnd r.
Proof.
  intros Hc. unfold trimEnd. simpl rev.
  rewrite trimStart_snoc by assumption. rewrite rev_app_distr. reflexivity.
Qed.

Lemma trimEnd_idem s : trimEnd (trimEnd s) = trimEnd s.
Proof. unfold trimEnd. now rewrite rev_involutive, trimStart_idem. Qed.

Lemma trimStart_head s :
  trimStart s = [] \/
  exists c r, trimStart s = c :: r /\ isWhiteSpace c = false.
Proof.
  induction s as [|c s IH]; simpl; [now left|].
  destruct (isWhiteSpace c) eqn:E; [exact IH|].
  right. now exists c, s.
Qed.

Lemma trim_idem s : trim (trim s) = trim s.
Proof.
  unfold trim. destruct (trimStart_head s) as [->|[c [r [-> Hc]]]].
  - reflexivity.
  - rewrite trimEnd_cons by assumption. simpl trimStart. rewrite Hc.
    rewrite trimEnd_cons by assumption. now rewrite trimEnd_idem.
Qed.

Lemma trim_no_edge_whitespace s c r :
  trim s = c :: r ->
  isWhiteSpace c = false /\ isWhiteSpace (last (c :: r) c) = false.
Proof.
  unfold trim. destruct (trimStart_head s) as [->|[c' [r' [-> Hc']]]].
  - discriminate.
  - rewrite trimEnd_cons by assumption. intros [= <- <-]. split; [assumption|].
    unfold trimEnd.
    destruct (trimStart_head (rev r')) as [E|[x [t [E Hx]]]]; rewrite E.
    + simpl. assumption.
    + simpl rev. destruct (rev t ++ [x]) eqn:El.
      * destruct (rev t); discriminate.
      * rewrite <- El. clear El.
        change (last (c' :: rev t ++ [x]) c') with (last ((c' :: rev t) ++ [x]) c').
        now rewrite last_last.
Qed.

Lemma gather_custom_name f :
  form_tokenType f = custom ->
  customHeaderName (gatherSettings f) = trim (form_customHeaderName f).
Proof. intros H. unfold gatherSettings. cbn [customHeaderName]. now rewrite H. Qed.

Lemma gatherSettings_normal f :
  form_accepted f -> form_normal (gatherSettings f).
Proof.
  intros Hacc. split; [apply clampMaxTokens_range|].
  unfold gatherSettings. simpl. unfold form_accepted in Hacc.
  destruct (form_tokenType f); try reflexivity.
  split; [now apply Hacc|]. apply trim_idem.
Qed.

Lemma gather_load st f0 :
  form_normal (getSettings st) ->
  gatherSettings (loadSettings st f0) = getSettings st.
Proof.
  intros [Hm Hn]. unfold loadSettings. simpl.
  destruct (getSettings st) as [tt name src m ac]. simpl in *.
  unfold gatherSettings. simpl.
  assert (Hmax : clampMaxTokens (shownMaxTokens (or5 m)) = m).
  { unfold or5. destruct (Z.eqb m 0) eqn:E; [apply Z.eqb_eq in E; lia|].
    rewrite shownMaxTokens_clamp, !clampMaxTokens_id; [reflexivity|lia|].
    rewrite clampMaxTokens_id; lia. }
  rewrite Hmax. destruct tt.
  - now rewrite Hn.
  - now rewrite Hn.
  - destruct Hn as [Hne Htr]. apply truthy_nonempty in Hne. rewrite Hne.
    unfold trimmed in Htr. now rewrite Htr.
Qed.

Lemma submit_accepted f st :
  form_accepted f ->
  submitSettingsForm f st =
    (Saved RespSuccess, persistTokens (clearTokens (saveSettings (gatherSettings f) st))).
Proof.
  intros Hacc. unfold submitSettingsForm, form_accepted in *.
  destruct (form_tokenType f) eqn:Ht; try reflexivity.
  assert (Hn : truthy (customHeaderName (gatherSettings f)) = true).
  { apply truthy_nonempty. unfold gatherSettings. simpl. rewrite Ht. now apply Hacc. }
  now rewrite Hn.
Qed.

(** X14.  The number shown beside the slider is the number that is saved:
    the display clamp [min 5 (max 1 x)] and the submit handler's two ifs
    compute the same function, which is the identity on 1..5, idempotent
    and monotone.  A stored capacity of 0 is shown, by the settings page and
    by the popup alike, as 5. *)
Theorem X14_slider_shows_what_is_saved :
  forall f : SettingsForm,
    maxTokens (gatherSettings f) = shownMaxTokens (form_maxTokens f) /\
    (forall x, (1 <= x <= 5)%Z -> shownMaxTokens x = x) /\
    (forall x, shownMaxTokens (shownMaxTokens x) = shownMaxTokens x) /\
    (forall x y, (x <= y)%Z -> (shownMaxTokens x <= shownMaxTokens y)%Z) /\
    (forall st f0,
        maxTokens (getSettings st) = 0%Z ->
        form_maxTokens (loadSettings st f0) = 5%Z /\
        view_capacity (loadTokens st) = 5%Z).
Proof.
  intros f. split; [|split; [|split; [|split]]].
  - simpl. symmetry. apply shownMaxTokens_clamp.
  - intros x H. unfold shownMaxTokens. lia.
  - intros x. unfold shownMaxTokens. lia.
  - intros x y H. unfold shownMaxTokens. lia.
  - intros st f0 H. unfold loadSettings, loadTokens. simpl. rewrite H.
    split; reflexivity.
Qed.

(** X15.  What the settings form saves is in normal form and survives a
    round trip through the page.  After an accepted submission the policy
    in force has a capacity in 1..5, no header name unless the type is
    custom, and then a non-empty name without whitespace at either end.
    Loading the page from any worker whose policy is in that form and
    submitting it unedited is accepted and stores the same policy again;
    the default settings are in that form. *)
Theorem X15_settings_round_trip :
  forall (f : SettingsForm) (st : State),
    form_accepted f ->
    let st' := snd (submitSettingsForm f st) in
    form_normal (getSettings st') /\
    (forall c r,
        customHeaderName (getSettings st') = c :: r ->
        tokenType (getSettings st') = custom /\
        isWhiteSpace c = false /\ isWhiteSpace (last (c :: r) c) = false) /\
    (forall f0,
        gatherSettings (loadSettings st' f0) = getSettings st' /\
        form_accepted (loadSettings st' f0) /\
        getSettings (snd (submitSettingsForm (loadSettings st' f0) st')) =
          getSettings st') /\
    (forall st0 f0,
        form_normal (getSettings st0) ->
        gatherSettings (loadSettings st0 f0) = getSettings st0) /\
    form_normal DEFAULT_SETTINGS.
Proof.
  intros f st Hacc st'.
  assert (Hst' : getSettings st' = gatherSettings f)
    by (subst st'; now rewrite submit_accepted).
  assert (Hn : form_normal (getSettings st'))
    by (rewrite Hst'; now apply gatherSettings_normal).
  split; [exact Hn|]. split; [|split; [|split]].
  - intros c r Hname. rewrite Hst' in *.
    unfold gatherSettings in *. simpl in *.
    destruct (form_tokenType f); try discriminate.
    split; [reflexivity|]. now apply trim_no_edge_whitespace with (s := form_customHeaderName f).
  - intros f0. pose proof (gather_load st' f0 Hn) as Hg.
    assert (Ha : form_accepted (loadSettings st' f0)).
    { unfold form_accepted. intros Ht.
      assert (Hc : tokenType (gatherSettings (loadSettings st' f0)) = custom)
        by exact Ht.
      pose proof Hn as [_ Hn']. rewrite Hg in Hc. rewrite Hc in Hn'.
      destruct Hn' as [Hne _].
      rewrite <- (gather_custom_name _ Ht), Hg. exact Hne. }
    split; [exact Hg|]. split; [exact Ha|].
    rewrite submit_accepted by exact Ha. simpl. exact Hg.
  - intros st0 f0. apply gather_load.
  - split; [simpl; lia|reflexivity].
Qed.

Lemma X15_custom_form :
  form_accepted custom_form /\
  getSettings (snd (submitSettingsForm custom_form (workerStart None None))) =
    {| tokenType := custom; customHeaderName := js "X-Api-Key";
       tokenSource := headers; maxTokens := 3; autoCleanup := false |} /\
  form_normal (getSettings (snd (submitSettingsForm custom_form (workerStart None None)))).
Proof.
  assert (H : form_accepted custom_form) by (intros _; discriminate).
  split; [exact H|]. split; [reflexivity|].
  exact (proj1 (X15_settings_round_trip custom_form (workerStart None None) H)).
Defined.

(* ====================================================================== *)
(** ** Further properties: one request, one token *)
(* ====================================================================== *)

Lemma request_candidate_some details st c :
  request_candidate details st = Some c ->
  activeTabId st = Some (tabId details) /\
  tokenSource (getSettings st) = headers /\
  extractTokenFromHeaders (requestHeaders details) (getSettings st) =
    Some (cand_token c) /\
  cand_url c = request_url details.
Proof.
  unfold request_candidate.
  destruct (activeTabId st) as [active|]; [|discriminate].
  destruct (Z.eqb (tabId details) active) eqn:E; [|discriminate].
  apply Z.eqb_eq in E.
  destruct (tokenSource (getSettings st)); try discriminate.
  destruct (extractTokenFromHeaders _ _) as [token|]; [|discriminate].
  destruct (truthy token); [|discriminate].
  intros [= <-]. simpl. repeat split; congruence.
Qed.

(** X16.  A web request changes the state only by being accepted, and then
    by exactly one entry: either the call leaves through the accepting
    return, the request came from the stored active tab under the 'headers'
    source, and the map is the map before followed by one entry that
    carries the matcher's token, the request URL and the time of the call,
    with the session mirror rewritten to the new list; or the call leaves
    through another return and the whole state is as before.  Several
    matching headers in one request never yield more than one token. *)
Theorem X16_request_adds_at_most_one :
  forall (details : RequestDetails) (now : Z) (st : State),
    let r := handleWebRequest details now st in
    (fst r = Accepted /\
     activeTabId st = Some (tabId details) /\
     tokenSource (getSettings st) = headers /\
     exists token,
       extractTokenFromHeaders (requestHeaders details) (getSettings st) = Some token /\
       map_has token (detectedTokens st) = false /\
       detectedTokens (snd r) =
         detectedTokens st ++
         [(token, {| url := request_url details; timestamp := now |})] /\
       session_tokens (snd r) = Some (tokenList (detectedTokens (snd r)))) \/
    (fst r <> Accepted /\ snd r = st).
Proof.
  intros details now st r. subst r. rewrite handleWebRequest_candidate.
  destruct (request_candidate details st) as [c|] eqn:Ec.
  - apply request_candidate_some in Ec as (Ha & Hs & Hx & Hu).
    destruct (addToken_spec (cand_token c) (cand_url c)
                (maxTokens (getSettings st)) now st) as [Hhas|Hfresh Hk|Hfresh Hk].
    + right. split; [discriminate|reflexivity].
    + right. split; [discriminate|reflexivity].
    + left. split; [reflexivity|]. split; [assumption|]. split; [assumption|].
      exists (cand_token c). rewrite Hu. repeat split; assumption || reflexivity.
  - right. split; [discriminate|reflexivity].
Qed.

(* ====================================================================== *)
(** ** Further properties: the token of a well-formed bearer value *)
(* ====================================================================== *)

Lemma ws_run_app_stop ws t c r :
  forallb isWhiteSpace ws = true ->
  t = c :: r -> isWhiteSpace c = false ->
  ws_run (ws ++ t) = List.length ws.
Proof.
  intros Hws -> Hc. induction ws as [|x ws IH]; simpl.
  - now rewrite Hc.
  - simpl in Hws. apply andb_true_iff in Hws as [Hx Hws]. rewrite Hx.
    now rewrite IH.
Qed.

Lemma matchBearer_exact prefix ws token c r :
  fold_ascii prefix = js "bearer" ->
  ws <> [] -> forallb isWhiteSpace ws = true ->
  token = c :: r -> isWhiteSpace c = false ->
  forallb (fun u => negb (isLineTerminator u)) token = true ->
  matchBearer (prefix ++ ws ++ token) = Some token.
Proof.
  intros Hp Hne Hws Ht Hc Hlt. unfold matchBearer.
  assert (Hs : strip_prefix_ci (js "Bearer") (prefix ++ ws ++ token) = Some (ws ++ token)).
  { apply strip_prefix_ci_some. exists prefix. split; [reflexivity|].
    split; [|exact Hp].
    apply (f_equal (@List.length N)) in Hp. unfold fold_ascii in Hp.
    rewrite length_map in Hp. exact Hp. }
  rewrite Hs, (ws_run_app_stop ws token c r Hws Ht Hc).
  destruct ws as [|x ws']; [congruence|].
  cbn [List.length backtrack_ws].
  change (S (List.length ws')) with (List.length (x :: ws')).
  rewrite skipn_app, skipn_all, Nat.sub_diag. simpl app. simpl skipn.
  assert (Hd : dot_plus_to_end token = true).
  { unfold dot_plus_to_end. rewrite Hlt. subst token. reflexivity. }
  now rewrite Hd.
Qed.

(** X17.  For a value made of 'Bearer' in any letter case, one or more
    whitespace units and a token that starts with a non-whitespace unit and
    holds no line terminator, the matcher returns exactly that token.  The
    case of the prefix and the amount of whitespace therefore never
    distinguish two sightings of one token: the second is a duplicate. *)
Theorem X17_bearer_token_exact :
  forall (prefix ws token : jsstring) (c : N) (r : jsstring),
    toLowerCase prefix = js "bearer" ->
    ws <> [] -> forallb isWhiteSpace ws = true ->
    token = c :: r -> isWhiteSpace c = false ->
    forallb (fun u => negb (isLineTerminator u)) token = true ->
    matchBearer (prefix ++ ws ++ token) = Some token /\
    (forall name settings,
        tokenType settings = bearer ->
        toLowerCase name = js "authorization" ->
        extractTokenFromHeaders
          (Some [{| header_name := name; header_value := prefix ++ ws ++ token |}])
          settings = Some token) /\
    (forall prefix' ws',
        toLowerCase prefix' = js "bearer" ->
        ws' <> [] -> forallb isWhiteSpace ws' = true ->
        matchBearer (prefix' ++ ws' ++ token) = matchBearer (prefix ++ ws ++ token)).
Proof.
  intros prefix ws token c r Hp Hne Hws Ht Hc Hlt.
  apply toLowerCase_bearer in Hp.
  pose proof (matchBearer_exact prefix ws token c r Hp Hne Hws Ht Hc Hlt) as Hm.
  split; [exact Hm|]. split.
  - intros name settings Htt Hname. simpl. rewrite Htt, Hname, Hm.
    reflexivity.
  - intros prefix' ws' Hp' Hne' Hws'. rewrite Hm.
    apply toLowerCase_bearer in Hp'.
    now apply (matchBearer_exact prefix' ws' token c r).
Qed.

Lemma X17_two_spellings :
  toLowerCase (js "BEARER") = js "bearer" /\
  matchBearer (js "BEARER" ++ js "   " ++ js "abc123xyz789") = Some (js "abc123xyz789").
Proof.
  split; [reflexivity|].
  exact (proj1 (X17_bearer_token_exact (js "BEARER") (js "   ") (js "abc123xyz789")
                  97%N (js "bc123xyz789")
                  eq_refl ltac:(discriminate) eq_refl eq_refl eq_refl eq_refl)).
Defined.

(* ====================================================================== *)
(** ** Further properties: handlers and schedules *)
(* ====================================================================== *)

Lemma run_app a b st : run (a ++ b) st = run b (run a st).
Proof. revert st. induction a as [|e a IH]; intros st; simpl; auto. Qed.

Lemma scanLoop_at_capacity found k clock st :
  (k <= map_size (detectedTokens st))%Z ->
  scanLoop found k clock st =
    responded st (RespTokens (tokenList (detectedTokens st))).
Proof.
  intros Hk. revert clock. induction found as [|item found IH]; intros clock;
    cbn [scanLoop]; [reflexivity|].
  destruct (addToken_at_capacity (cand_token item) (cand_url item) k (clock O) st Hk)
    as [Hst Hout].
  destruct (addToken (cand_token item) (cand_url item) k (clock O) st)
    as [outcome st'].
  cbn [fst snd] in Hst, Hout. subst st'.
  destruct outcome; try apply IH. congruence.
Qed.

(** X18.  Handlers that run one at a time.  When every handler is resumed
    until it ends before the next event is delivered, the worker goes
    through the states [step] and [run] give, nothing stays suspended, and
    the responses sent are the ones [onMessage] returns, in the order of
    the events.  The same holds of one event delivered to a worker with no
    handler suspended. *)
Theorem X18_handlers_one_at_a_time :
  forall (n : nat) (es : list Event) (st : State) (box : list Response),
    Forall (enough n) es ->
    exec (serial n es) {| worker := st; pending := []; outbox := box |} =
      {| worker := run es st; pending := []; outbox := box ++ answers es st |} /\
    (forall e,
        In e es ->
        forall st' box',
          exec (Arrive e :: repeat (Resume O) n)
               {| worker := st'; pending := []; outbox := box' |} =
            {| worker := step e st'; pending := []; outbox := box' ++ answer e st' |}).
Proof.
  intros n es st box Hes. split; [now apply serial_exec|].
  intros e He st' box'. apply handler_completes.
  rewrite Forall_forall in Hes. now apply Hes.
Qed.

Lemma X18_scenario3 :
  Forall (enough 4) scenario3_events /\
  exec (serial 4 scenario3_events) (idle (workerStart None None)) =
    {| worker := run scenario3_events (workerStart None None);
       pending := [];
       outbox := [RespSuccess] |}.
Proof.
  assert (He : Forall (enough 4) scenario3_events)
    by (unfold scenario3_events;
        repeat (apply Forall_cons; [unfold enough; simpl; lia|]); apply Forall_nil).
  split; [exact He|].
  exact (proj1 (X18_handlers_one_at_a_time 4 scenario3_events
                  (workerStart None None) [] He)).
Defined.

(** X19.  The capacity return.  In a state that holds as many entries as
    the limit handed to it, or more: [addToken] on a token that is not a
    key leaves through the capacity return; the loop of a scan goes through
    all its candidates in one stretch, stores none and answers the list as
    it was; the stretch of a request handler that follows its settings read
    stores nothing; and a request or scan handled on its own under the
    limit in force leaves the state as it was.  In each case the state, and
    with it every stored entry, is untouched. *)
Theorem X19_capacity_return :
  forall st : State,
    (forall token u k now,
        (k <= map_size (detectedTokens st))%Z ->
        map_has token (detectedTokens st) = false ->
        addToken token u k now st = (CapacityReached, st)) /\
    (forall token u k now,
        (k <= map_size (detectedTokens st))%Z ->
        snd (addToken token u k now st) = st /\
        fst (addToken token u k now st) <> Accepted) /\
    (forall found k clock,
        (k <= map_size (detectedTokens st))%Z ->
        scanLoop found k clock st =
          responded st (RespTokens (tokenList (detectedTokens st)))) /\
    (forall details settings now,
        (maxTokens settings <= map_size (detectedTokens st))%Z ->
        resume (RequestSettings details settings now) st = finished st) /\
    (forall e,
        (maxTokens (getSettings st) <= map_size (detectedTokens st))%Z ->
        is_ingest e -> step e st = st).
Proof.
  intros st. split; [|split; [|split; [|split]]].
  - intros token u k now Hk Hfresh. now apply addToken_full.
  - intros token u k now Hk. now apply addToken_at_capacity.
  - intros found k clock Hk. now apply scanLoop_at_capacity.
  - intros details settings now Hk. cbn [resume].
    destruct (tokenSource settings); try reflexivity.
    destruct (extractTokenFromHeaders (requestHeaders details) settings)
      as [token|]; [|reflexivity].
    destruct (negb (truthy token)); [reflexivity|].
    destruct (addToken_at_capacity token (request_url details) (maxTokens settings)
                now st Hk) as [Hst Hout].
    destruct (addToken token (request_url details) (maxTokens settings) now st)
      as [outcome st'].
    cbn [fst snd] in Hst, Hout. subst st'.
    destruct outcome; try reflexivity. congruence.
  - intros e Hk He. now apply ingest_at_capacity.
Qed.

(** X20.  The bound that holds under every schedule.  Let [K] be at least
    the size of the map and the limit in force at the start, the limit
    every suspended handler keeps, and the limit of every settings save the
    schedule delivers.  Then, however the stretches interleave, the map
    never holds more than [K] entries, and the limit in force and the limits
    the suspended handlers keep stay at most [K].  With the limits the
    settings page saves, [K] is 5. *)
Theorem X20_bound_any_schedule :
  forall (K : Z) (schedule : list Action) (sys : Sys),
    arrivals (save_bounded K) schedule ->
    (map_size (detectedTokens (worker sys)) <= K)%Z ->
    (maxTokens (getSettings (worker sys)) <= K)%Z ->
    Forall (task_bounded K) (pending sys) ->
    (map_size (detectedTokens (worker (exec schedule sys))) <= K)%Z /\
    (maxTokens (getSettings (worker (exec schedule sys))) <= K)%Z /\
    Forall (task_bounded K) (pending (exec schedule sys)).
Proof.
  intros K schedule sys Hs Hsize Hlimit Hp.
  destruct (exec_bounded K schedule sys Hs (conj (conj Hsize Hlimit) Hp))
    as [[H1 H2] H3].
  auto.
Qed.

Lemma X20_race_within_five :
  arrivals (save_bounded 5) (race_schedule (storage_policy 1)) /\
  (map_size (detectedTokens (worker race_start)) <= 5)%Z /\
  (maxTokens (getSettings (worker race_start)) <= 5)%Z /\
  Forall (task_bounded 5) (pending race_start) /\
  (map_size
     (detectedTokens (worker (exec (race_schedule (storage_policy 1)) race_start)))
   <= 5)%Z.
Proof.
  assert (Hs : arrivals (save_bounded 5) (race_schedule (storage_policy 1)))
    by (unfold arrivals, race_schedule;
        repeat (apply Forall_cons; [simpl; try exact I; lia|]); apply Forall_nil).
  assert (Hsize : (map_size (detectedTokens (worker race_start)) <= 5)%Z)
    by (unfold map_size; simpl; lia).
  assert (Hlimit : (maxTokens (getSettings (worker race_start)) <= 5)%Z)
    by (simpl; lia).
  assert (Hp : Forall (task_bounded 5) (pending race_start)) by constructor.
  split; [exact Hs|]. split; [exact Hsize|]. split; [exact Hlimit|].
  split; [exact Hp|].
  exact (proj1 (X20_bound_any_schedule 5 (race_schedule (storage_policy 1))
                  race_start Hs Hsize Hlimit Hp)).
Defined.

(** X21.  Keys under every schedule.  However the stretches of the
    handlers interleave, the keys of the map stay pairwise distinct and
    non-empty, provided they are at the start and no scan suspended at the
    start holds a candidate with an empty token; the scans suspended later
    hold none either. *)
Theorem X21_keys_any_schedule :
  forall (schedule : list Action) (sys : Sys),
    distinct_tokens (worker sys) ->
    tokens_nonempty (worker sys) ->
    Forall task_clean (pending sys) ->
    distinct_tokens (worker (exec schedule sys)) /\
    tokens_nonempty (worker (exec schedule sys)) /\
    Forall task_clean (pending (exec schedule sys)).
Proof.
  intros schedule sys Hd Hn Hp.
  split; [now apply exec_distinct|].
  exact (exec_nonempty schedule sys (conj Hn Hp)).
Qed.

Lemma X21_race_keys :
  distinct_tokens (worker race_start) /\
  tokens_nonempty (worker race_start) /\
  Forall task_clean (pending race_start) /\
  distinct_tokens (worker (exec (race_schedule (storage_policy 1)) race_start)).
Proof.
  assert (Hd : distinct_tokens (worker race_start)) by constructor.
  assert (Hn : tokens_nonempty (worker race_start)) by constructor.
  assert (Hp : Forall task_clean (pending race_start)) by constructor.
  split; [exact Hd|]. split; [exact Hn|]. split; [exact Hp|].
  exact (proj1 (X21_keys_any_schedule (race_schedule (storage_policy 1))
                  race_start Hd Hn Hp)).
Defined.

(** X22.  What holds when the handlers run one at a time.  If every handler
    is resumed until it ends before the next event is delivered, the
    settings saves carry a non-negative limit and the worker starts within
    capacity, then the map never holds more entries than the limit in
    force; and after a settings save handled that way the map and the
    session mirror are empty, nothing is suspended and the saved settings
    are in force.  The stretch of a settings save that follows the write
    always leaves the map and the mirror empty. *)
Theorem X22_one_at_a_time_keeps_limit :
  forall (n : nat) (es : list Event) (st0 : State),
    (4 <= n)%nat ->
    Forall (enough n) es ->
    Forall saves_nonneg es ->
    within_capacity st0 ->
    within_capacity (worker (exec (serial n es) (idle st0))) /\
    (forall s,
        detectedTokens
          (worker (exec (serial n (es ++ [RuntimeMessage (SAVE_SETTINGS s)]))
                        (idle st0))) = [] /\
        session_tokens
          (worker (exec (serial n (es ++ [RuntimeMessage (SAVE_SETTINGS s)]))
                        (idle st0))) = Some [] /\
        getSettings
          (worker (exec (serial n (es ++ [RuntimeMessage (SAVE_SETTINGS s)]))
                        (idle st0))) = s /\
        pending (exec (serial n (es ++ [RuntimeMessage (SAVE_SETTINGS s)]))
                      (idle st0)) = []) /\
    (forall st,
        detectedTokens (after (resume SaveClear st)) = [] /\
        session_tokens (after (resume SaveClear st)) = Some []).
Proof.
  intros n es st0 Hn Hes Hsaves H0. split; [|split].
  - unfold idle. rewrite serial_exec by assumption. cbn [worker].
    now apply run_within_capacity.
  - intros s.
    assert (Hall : Forall (enough n) (es ++ [RuntimeMessage (SAVE_SETTINGS s)])).
    { apply Forall_app. split; [assumption|].
      constructor; [unfold enough; simpl; lia|constructor]. }
    unfold idle. rewrite serial_exec by assumption. cbn [worker pending].
    rewrite run_app. repeat split; reflexivity.
  - intros st. split; reflexivity.
Qed.

Lemma X22_scenario3 :
  (4 <= 4)%nat /\
  Forall (enough 4) scenario3_events /\
  Forall saves_nonneg scenario3_events /\
  within_capacity (workerStart None None) /\
  within_capacity
    (worker (exec (serial 4 scenario3_events) (idle (workerStart None None)))).
Proof.
  assert (Hn : (4 <= 4)%nat) by lia.
  assert (He : Forall (enough 4) scenario3_events)
    by (unfold scenario3_events;
        repeat (apply Forall_cons; [unfold enough; simpl; lia|]); apply Forall_nil).
  assert (Hs : Forall saves_nonneg scenario3_events)
    by (unfold scenario3_events;
        repeat (apply Forall_cons; [simpl; try exact I; lia|]); apply Forall_nil).
  assert (H0 : within_capacity (workerStart None None))
    by (unfold within_capacity, map_size; simpl; lia).
  split; [exact Hn|]. split; [exact He|]. split; [exact Hs|]. split; [exact H0|].
  exact (proj1 (X22_one_at_a_time_keeps_limit 4 scenario3_events
                  (workerStart None None) Hn He Hs H0)).
Defined.
